(** * Coffee embedding update script: a shallow embedding

    Source: [scripts/update_coffee_embeddings.py].

    Conventions of the embedding.
    - Python [float] values are modelled by real numbers ([R]): rounding and
      overflow are not modelled, a decimal literal denotes the exact decimal,
      [x ** 2] is [x ^ 2] and [x ** 0.5] is [sqrt x].  Division keeps
      Python's [ZeroDivisionError].
    - Python [str] values are modelled by [string] (one character per
      byte); [str.lower] folds the ASCII letters.
    - Everything outside the interpreter (the Supabase gateway, the OpenAI
      service, [time.sleep], [input], the interpreter's string hash) is an
      oracle of the environment [Env]; the calls to the gateway, the
      sleeps, the prompt and the calls of the two generators are recorded
      in a trace, together with the log lines.
    - [argparse] is an oracle as well: [parse_args()] hands over the
      namespace, or ends the process with status 0 ([--help]) or 2 (a
      command line it rejects).
    - The OpenAI client ([openai.OpenAI], version 1 of the library) is
      built without a request; given no key it looks at the environment
      variable [OPENAI_API_KEY] and raises [OpenAIError] when that is
      unset. *)

From Stdlib Require Import List String Ascii ZArith QArith Reals Lia Lra Bool.
From Stdlib Require Import Decimal DecimalString.
Import ListNotations.

Set Implicit Arguments.

(* ================================================================== *)
(** ** Python primitives *)
(* ================================================================== *)

Module Py.

(** Exceptions the script can meet.  [KeyboardInterrupt] and [SystemExit]
    derive from [BaseException] only: [except Exception] lets them pass. *)
Inductive exc : Type :=
| KeyboardInterrupt
| SystemExit (code : Z)
| ZeroDivisionError
| TypeError
| ValueError
| Error (what : string).

Definition is_Exception (e : exc) : bool :=
  match e with
  | KeyboardInterrupt | SystemExit _ => false
  | _ => true
  end.

(** Result of running a piece of Python: a value, a raised exception, or
    a loop that never ends. *)
Inductive outcome (A : Type) : Type :=
| Ret (a : A)
| Raise (e : exc)
| Diverge.
Arguments Ret {A} a.
Arguments Raise {A} e.
Arguments Diverge {A}.

(** [str.lower()] on one byte. *)
Definition lower_ascii (c : ascii) : ascii :=
  let n := nat_of_ascii c in
  if ((65 <=? n) && (n <=? 90))%nat then ascii_of_nat (n + 32) else c.

Fixpoint lower (s : string) : string :=
  match s with
  | EmptyString => EmptyString
  | String c rest => String (lower_ascii c) (lower rest)
  end.

(** [needle in hay] for two strings. *)
Fixpoint contains (needle hay : string) : bool :=
  if String.prefix needle hay then true
  else match hay with
       | EmptyString => false
       | String _ rest => contains needle rest
       end.

(** [str(n)] for a non-negative integer. *)
Definition str_of_nat (n : nat) : string :=
  NilEmpty.string_of_uint (Nat.to_uint n).

(** [a > b] on strings: lexicographic on code points. *)
Definition str_gt (a b : string) : bool := String.ltb b a.

(** Truth value of an optional string: [None] and [''] are falsy. *)
Definition truthy_str (o : option string) : bool :=
  match o with
  | Some s => negb (String.eqb s "")
  | None => false
  end.

(** [a or b] on optional strings. *)
Definition or_str (a b : option string) : option string :=
  if truthy_str a then a else b.

(** [range(0, stop, step)]: [ValueError] on a zero step, empty when the
    step is negative (the start is 0 and the stop a length). *)
Definition range0 (stop : nat) (step : Z) : outcome (list nat) :=
  if (step =? 0)%Z then Raise ValueError
  else if (step <? 0)%Z then Ret []
  else
    let st := Z.to_nat step in
    Ret (map (fun k => k * st)%nat (seq 0 ((stop + st - 1) / st))).

(** [l[i:j]] for [0 <= i] and [i <= j]. *)
Definition slice {A} (l : list A) (i j : nat) : list A :=
  firstn (j - i) (skipn i l).

(** [sum(l)] on floats: left to right from 0. *)
Definition sum (l : list R) : R := fold_left Rplus l 0%R.

(** [x / y] on floats. *)
Definition truediv (x y : R) : outcome R :=
  if Req_dec_T y 0%R then Raise ZeroDivisionError else Ret (x / y)%R.

(** [[f(x) for x in l]] when [f] may raise. *)
Fixpoint list_comp {A B} (f : A -> outcome B) (l : list A) : outcome (list B) :=
  match l with
  | [] => Ret []
  | x :: rest =>
      match f x with
      | Ret y =>
          match list_comp f rest with
          | Ret ys => Ret (y :: ys)
          | Raise e => Raise e
          | Diverge => Diverge
          end
      | Raise e => Raise e
      | Diverge => Diverge
      end
  end.

End Py.

Import Py.

(* ================================================================== *)
(** ** The interpreter's string hash

    [hash(s)] on a [str] is CPython's keyed SipHash-1-3 (CPython 3.11 and
    later) of the string's bytes.  The key [(k0, k1)] is drawn once per
    process from [PYTHONHASHSEED], at random when the variable is unset;
    [PYTHONHASHSEED=0] gives the key [(0, 0)]. *)
(* ================================================================== *)

Module SipHash.
Local Open Scope Z_scope.

Definition w64 (x : Z) : Z := x mod 2 ^ 64.

Definition rotl (x b : Z) : Z :=
  w64 (Z.lor (Z.shiftl x b) (Z.shiftr x (64 - b))).

Definition state : Type := Z * Z * Z * Z.

(** HALF_ROUND(a,b,c,d,s,t) of pyhash.c, returning [(a, b, c, d)]. *)
Definition half_round (a b c d s t : Z) : state :=
  let a := w64 (a + b) in
  let c := w64 (c + d) in
  let b := Z.lxor (rotl b s) a in
  let d := Z.lxor (rotl d t) c in
  let a := rotl a 32 in
  (a, b, c, d).

Definition single_round (v : state) : state :=
  let '(v0, v1, v2, v3) := v in
  let '(v0, v1, v2, v3) := half_round v0 v1 v2 v3 13 16 in
  let '(v2, v1, v0, v3) := half_round v2 v1 v0 v3 17 21 in
  (v0, v1, v2, v3).

(** Little-endian value of a byte sequence. *)
Fixpoint le_bytes (s : string) : Z :=
  match s with
  | EmptyString => 0
  | String c rest => Z.of_nat (nat_of_ascii c) + 256 * le_bytes rest
  end.

Definition absorb (v : state) (m : Z) : state :=
  let '(v0, v1, v2, v3) := v in
  let '(v0, v1, v2, v3) := single_round (v0, v1, v2, Z.lxor v3 m) in
  (Z.lxor v0 m, v1, v2, v3).

(** The 8-byte blocks of the input, then the tail with the length in the
    top byte.  [fuel] bounds the number of full blocks. *)
Fixpoint blocks (fuel : nat) (v : state) (total : Z) (s : string) : state :=
  match fuel with
  | O => absorb v (Z.lor (w64 (Z.shiftl total 56)) (le_bytes s))
  | S fuel' =>
      if (8 <=? String.length s)%nat
      then blocks fuel' (absorb v (le_bytes (String.substring 0 8 s)))
                  total (String.substring 8 (String.length s - 8) s)
      else absorb v (Z.lor (w64 (Z.shiftl total 56)) (le_bytes s))
  end.

Definition siphash13 (k0 k1 : Z) (s : string) : Z :=
  let v := (Z.lxor k0 0x736f6d6570736575, Z.lxor k1 0x646f72616e646f6d,
            Z.lxor k0 0x6c7967656e657261, Z.lxor k1 0x7465646279746573) in
  let '(v0, v1, v2, v3) :=
    blocks (String.length s / 8) v (Z.of_nat (String.length s)) s in
  let '(v0, v1, v2, v3) :=
    single_round (single_round (single_round (v0, v1, Z.lxor v2 0xff, v3))) in
  Z.lxor (Z.lxor v0 v1) (Z.lxor v2 v3).

(** [hash(s)]: the 64-bit value read as a signed integer, 0 for the empty
    string, and -1 (reserved for errors) replaced by -2. *)
Definition str_hash (k0 k1 : Z) (s : string) : Z :=
  if (String.length s =? 0)%nat then 0
  else
    let x := siphash13 k0 k1 s in
    let x := if 2 ^ 63 <=? x then x - 2 ^ 64 else x in
    if x =? -1 then -2 else x.

End SipHash.

(* ================================================================== *)
(** ** Constants *)
(* ================================================================== *)

Definition VECTOR_DIMENSIONS : nat := 1536.
Definition BATCH_SIZE : Z := 5.
Definition DELAY_BETWEEN_REQUESTS : Q := 1.
Definition DELAY_BETWEEN_BATCHES : Q := 3.

(* ================================================================== *)
(** ** generate_fallback_embedding *)
(* ================================================================== *)

Section Fallback.
Local Open Scope R_scope.

(** The interpreter's [hash] on strings. *)
Variable hash : string -> Z.

(** [flavor_map], in insertion order (the order [items()] iterates). *)
Definition flavor_map : list (string * list R) :=
  [ ("fruity"%string,    [0.8; 0.2; 0.1; 0.0; 0.3]);
    ("chocolate"%string, [0.2; 0.9; 0.4; 0.1; 0.1]);
    ("nutty"%string,     [0.3; 0.5; 0.8; 0.2; 0.1]);
    ("floral"%string,    [0.7; 0.1; 0.2; 0.1; 0.6]);
    ("spicy"%string,     [0.4; 0.2; 0.7; 0.5; 0.3]);
    ("sweet"%string,     [0.5; 0.6; 0.3; 0.1; 0.2]);
    ("bitter"%string,    [0.1; 0.4; 0.5; 0.8; 0.1]);
    ("acidic"%string,    [0.6; 0.2; 0.1; 0.7; 0.4]) ].

(** The inner [for flavor, vector in flavor_map.items()] loop: the vector
    of the first flavor found inside the lower-cased tag ([break]), or
    [None] when the loop ends with [matched] still false. *)
Fixpoint find_flavor (items : list (string * list R)) (tag_lower : string)
  : option (list R) :=
  match items with
  | [] => None
  | (flavor, vector) :: rest =>
      if contains flavor tag_lower then Some vector
      else find_flavor rest tag_lower
  end.

(** One iteration of [for tag in flavor_tags]. *)
Definition add_tag (base_vector : list R) (tag : string) : list R :=
  match find_flavor flavor_map (lower tag) with
  | Some vector =>
      map (fun p => fst p + 0.5 * snd p) (combine base_vector vector)
  | None => map (fun val => val + 0.05) base_vector
  end.

Definition composite (flavor_tags : list string) : list R :=
  fold_left add_tag flavor_tags (repeat 0.1 5).

Definition magnitude (base_vector : list R) : R :=
  sqrt (Py.sum (map (fun val => val ^ 2) base_vector)).

(** The inner [for val in normalized] loop of the extension, with its
    [break] once the vector is full. *)
Fixpoint extend_pass (normalized full_embedding : list R) : list R :=
  match normalized with
  | [] => full_embedding
  | val :: rest =>
      let variation :=
        val * (0.95 + IZR (hash (str_of_nat (List.length full_embedding)) mod 10) / 100) in
      let full_embedding := full_embedding ++ [variation] in
      if (VECTOR_DIMENSIONS <=? List.length full_embedding)%nat then full_embedding
      else extend_pass rest full_embedding
  end.

(** [while len(full_embedding) < VECTOR_DIMENSIONS]; out of fuel means
    the loop did not end within [fuel] passes. *)
Fixpoint extend_loop (fuel : nat) (normalized full_embedding : list R)
  : outcome (list R) :=
  if (List.length full_embedding <? VECTOR_DIMENSIONS)%nat then
    match fuel with
    | O => Diverge
    | S fuel' => extend_loop fuel' normalized (extend_pass normalized full_embedding)
    end
  else Ret full_embedding.

Definition generate_fallback_embedding (flavor_tags : list string)
  : outcome (list R) :=
  let base_vector := composite flavor_tags in
  let magnitude := magnitude base_vector in
  match list_comp (fun val => truediv val magnitude) base_vector with
  | Ret normalized =>
      match extend_loop (S VECTOR_DIMENSIONS) normalized [] with
      | Ret full_embedding => Ret (firstn VECTOR_DIMENSIONS full_embedding)
      | Raise e => Raise e
      | Diverge => Diverge
      end
  | Raise e => Raise e
  | Diverge => Diverge
  end.

End Fallback.

(* ================================================================== *)
(** ** Data model and environment *)
(* ================================================================== *)

(** A row of the [coffees] table as [select('*')] returns it: the columns
    are keys of the dict, a SQL NULL is [None].  [coffee_name] is [None]
    when the dict has no such key; [flavor_embedding] is the JSON value of
    the vector column (its text form). *)
Record Coffee : Type := {
  id : string;
  coffee_name : option string;
  flavor_tags : option (list string);
  created_at : option string;
  updated_at : option string;
  flavor_embedding : option string
}.

(** A row of [update_logs] as [select('created_at')] returns it. *)
Record UpdateLog : Type := { log_created_at : option string }.

(** The parsed command line ([argparse.Namespace]). *)
Record Args : Type := {
  supabase_url : option string;
  supabase_key : option string;
  openai_key : option string;
  force_all : bool;
  batch_size : Z;
  delay : Q;
  batch_delay : Q;
  dry_run : bool;
  verbose : bool
}.

(** What an external call does: it raises or it returns data. *)
Inductive response (A : Type) : Type :=
| Fails (e : exc)
| Data (d : A).
Arguments Fails {A} e.
Arguments Data {A} d.

(** What [parser.parse_args()] makes of [sys.argv]: the namespace with the
    declared attributes, or the way argparse ends the process itself:
    after [-h]/[--help] it prints the help and exits with status 0, on a
    command line it rejects (unknown option, missing or ill-typed value)
    it prints the usage and exits with status 2. *)
Inductive cmdline (A : Type) : Type :=
| Parsed (args : A)
| Help
| UsageError.
Arguments Parsed {A} args.
Arguments Help {A}.
Arguments UsageError {A}.

(** [result.data] of the RPC. *)
Inductive json : Type := JTrue | JFalse | JNull.

(** The world around the script.  The k-th call (from 0) of
    [generate_openai_embedding] gets the answer [embeddings_create k] of
    the embedding service if it gets as far as the request; the k-th
    update RPC and the k-th [time.sleep] each have their own answer too,
    so every pattern of failures can be described. *)
Record Env : Type := {
  environ_SUPABASE_URL : option string;
  environ_SUPABASE_KEY : option string;
  environ_OPENAI_API_KEY : option string;
  create_client : response unit;
  select_coffees : response (list Coffee);
  select_update_logs : response (list UpdateLog);
  embeddings_create : nat -> response (list R);
  rpc_update_coffee_flavor_vector : nat -> response json;
  sleep_interrupted : nat -> bool;
  input : response string;
  hash : string -> Z
}.

Inductive level : Type := DEBUG | INFO | WARNING | ERROR.

(** The log lines of the script, with the values they interpolate (the
    elapsed time and the rate of the progress lines are left out). *)
Inductive message : Type :=
| MsgCredentialsRequired
| MsgOpenAIConfigured
| MsgNoOpenAIKey
| MsgSupabaseInitialized
| MsgSupabaseInitFailed (e : exc)
| MsgNoCoffeesFound
| MsgFoundTotal (n : nat)
| MsgForceUpdate (n : nat)
| MsgLastUpdate (t : option string)
| MsgNoPreviousUpdates
| MsgNoLastUpdateTime (e : exc)
| MsgFoundNeedUpdate (n : nat)
| MsgErrorFetching (e : exc)
| MsgGeneratingOpenAI (text : string)
| MsgInvalidDimensions (got expected : nat)
| MsgErrorOpenAI (e : exc)
| MsgNoFlavorTags (coffee_id : string) (name : string)
| MsgProcessing (coffee_id : string) (name : string) (tags : string)
| MsgFailedToGenerate (coffee_id : string)
| MsgGenerated (dims : nat)
| MsgDryRunWouldUpdate (coffee_id : string) (dims : nat)
| MsgUpdated (coffee_id : string)
| MsgRpcFailure (coffee_id : string)
| MsgErrorUpdating (coffee_id : string) (e : exc)
| MsgStarting
| MsgNoCoffeesNeedUpdating
| MsgNoOpenAIButUpdating
| MsgCancelledByUser
| MsgStartingUpdate (batch_size : Z)
| MsgDryRunMode
| MsgProcessingBatch (batch_num total_batches : Z) (size : nat)
| MsgProgress (done total : nat)
| MsgCounts (updated failed : nat)
| MsgWaiting (secs : Q)
| MsgComplete
| MsgFinalResults (updated failed : nat)
| MsgInterrupted
| MsgUnhandled (e : exc).

(** What the script does, in order: its log lines, its calls to the
    gateway, and the calls of the two generators ([CallOpenAI tags] is
    recorded when [generate_openai_embedding(tags)] is entered,
    [CallFallback tags] when [generate_fallback_embedding(tags)] is). *)
Inductive event : Type :=
| Log (lvl : level) (m : message)
| CreateClient
| SelectCoffees
| SelectUpdateLogs
| CallOpenAI (flavor_tags : list string)
| CallFallback (flavor_tags : list string)
| RpcUpdate (coffee_id : string) (embedding : list R)
| Sleep (secs : Q)
| Input (prompt : string).

Definition trace : Type := list event.

Definition is_CallOpenAI (ev : event) : bool :=
  match ev with CallOpenAI _ => true | _ => false end.
Definition is_CallFallback (ev : event) : bool :=
  match ev with CallFallback _ => true | _ => false end.
Definition is_RpcUpdate (ev : event) : bool :=
  match ev with RpcUpdate _ _ => true | _ => false end.
Definition is_Sleep (ev : event) : bool :=
  match ev with Sleep _ => true | _ => false end.

Definition count (p : event -> bool) (tr : trace) : nat :=
  List.length (filter p tr).

(* ================================================================== *)
(** ** The monad of the script: a trace and an outcome *)
(* ================================================================== *)

Definition M (A : Type) : Type := trace -> outcome A * trace.

Definition ret {A} (a : A) : M A := fun tr => (Ret a, tr).

Definition bind {A B} (m : M A) (k : A -> M B) : M B :=
  fun tr =>
    match m tr with
    | (Ret a, tr') => k a tr'
    | (Raise e, tr') => (Raise e, tr')
    | (Diverge, tr') => (Diverge, tr')
    end.

Definition raise {A} (e : exc) : M A := fun tr => (Raise e, tr).

Definition emit (ev : event) : M unit := fun tr => (Ret tt, tr ++ [ev]).

Definition log (lvl : level) (m : message) : M unit := emit (Log lvl m).

(** [try: body except Exception as e: handler(e)]. *)
Definition try_except {A} (body : M A) (handler : exc -> M A) : M A :=
  fun tr =>
    match body tr with
    | (Raise e, tr') =>
        if is_Exception e then handler e tr' else (Raise e, tr')
    | r => r
    end.

(** The answer of an external call. *)
Definition answer {A} (r : response A) : M A :=
  match r with
  | Data d => ret d
  | Fails e => raise e
  end.

(** A pure computation run inside the script. *)
Definition lift {A} (o : outcome A) : M A := fun tr => (o, tr).

Declare Scope script_scope.
Delimit Scope script_scope with script.
Notation "x <- m ;; k" := (bind m (fun x => k))
  (at level 61, m at next level, right associativity) : script_scope.
Notation "m ;; k" := (bind m (fun _ => k))
  (at level 61, right associativity) : script_scope.
Local Open Scope script_scope.

(** [sys.exit(code)]. *)
Definition sys_exit {A} (code : Z) : M A := raise (SystemExit code).

(** [get_args()]: the parser declares the nine options of [Args], none of
    them required; [parse_args] returns the namespace or exits. *)
Definition get_args (argv : cmdline Args) : M Args :=
  match argv with
  | Parsed args => ret args
  | Help => sys_exit 0
  | UsageError => sys_exit 2
  end.

(** [openai.OpenAI(api_key=api_key)]: with no key given the constructor
    raises [OpenAIError] (it would look at the same environment variable
    itself); it sends nothing. *)
Definition new_openai_client (api_key : option string) : M unit :=
  match api_key with
  | Some _ => ret tt
  | None => raise (Error "OpenAIError")
  end.

(** [time.sleep(secs)]: Ctrl-C may arrive while the process sleeps. *)
Definition time_sleep (env : Env) (secs : Q) : M unit :=
  fun tr =>
    let k := count is_Sleep tr in
    if sleep_interrupted env k then (Raise KeyboardInterrupt, tr ++ [Sleep secs])
    else (Ret tt, tr ++ [Sleep secs]).

(* ================================================================== *)
(** ** The functions of the script *)
(* ================================================================== *)

Section Script.

Variable env : Env.

(** [not flavor_tags]: true for [None] and for the empty list. *)
Definition no_tags (tags : option (list string)) : bool :=
  match tags with
  | Some (_ :: _) => false
  | _ => true
  end.

Definition tags_of (c : Coffee) : list string :=
  match flavor_tags c with
  | Some tags => tags
  | None => []
  end.

(** [coffee.get("coffee_name", "Unknown")]. *)
Definition name_of (c : Coffee) : string :=
  match coffee_name c with
  | Some n => n
  | None => "Unknown"
  end.

Definition option_string_eqb (a b : option string) : bool :=
  match a, b with
  | Some x, Some y => String.eqb x y
  | None, None => true
  | _, _ => false
  end.

Definition tags_eqb (a b : option (list string)) : bool :=
  match a, b with
  | Some x, Some y => if list_eq_dec string_dec x y then true else false
  | None, None => true
  | _, _ => false
  end.

(** [a == b] on two rows (dict equality), on the columns of the model. *)
Definition coffee_eqb (a b : Coffee) : bool :=
  String.eqb (id a) (id b)
  && option_string_eqb (coffee_name a) (coffee_name b)
  && tags_eqb (flavor_tags a) (flavor_tags b)
  && option_string_eqb (created_at a) (created_at b)
  && option_string_eqb (updated_at a) (updated_at b)
  && option_string_eqb (flavor_embedding a) (flavor_embedding b).

(** *** initialize_clients *)

Definition initialize_clients (args : Args) : M bool :=
  let supabase_url := or_str (supabase_url args) (environ_SUPABASE_URL env) in
  let supabase_key := or_str (supabase_key args) (environ_SUPABASE_KEY env) in
  let openai_key := or_str (openai_key args) (environ_OPENAI_API_KEY env) in
  (if negb (truthy_str supabase_url) || negb (truthy_str supabase_key)
   then log ERROR MsgCredentialsRequired ;; sys_exit 1
   else ret tt) ;;
  let has_openai := truthy_str openai_key in
  (if has_openai then log INFO MsgOpenAIConfigured
   else log WARNING MsgNoOpenAIKey) ;;
  try_except
    (emit CreateClient ;;
     answer (create_client env) ;;
     log INFO MsgSupabaseInitialized ;;
     ret has_openai)
    (fun e => log ERROR (MsgSupabaseInitFailed e) ;; sys_exit 1).

(** *** get_coffee_data *)

(** The test of the filter loop on one row, [True] when the row is
    appended to [need_update].  Comparing a string with [None] raises
    [TypeError]. *)
Definition needs_update (last_update_time : option string) (coffee : Coffee)
  : outcome bool :=
  let coffee_updated := or_str (updated_at coffee) (created_at coffee) in
  let missing := negb (truthy_str (flavor_embedding coffee)) in
  match coffee_updated with
  | Some cu =>
      if truthy_str coffee_updated then
        match last_update_time with
        | Some t => if str_gt cu t then Ret true else Ret missing
        | None => Raise TypeError
        end
      else Ret missing
  | None => Ret missing
  end.

Fixpoint filter_need_update (last_update_time : option string)
  (coffees : list Coffee) (need_update : list Coffee) : outcome (list Coffee) :=
  match coffees with
  | [] => Ret need_update
  | coffee :: rest =>
      match needs_update last_update_time coffee with
      | Ret true => filter_need_update last_update_time rest (need_update ++ [coffee])
      | Ret false => filter_need_update last_update_time rest need_update
      | Raise e => Raise e
      | Diverge => Diverge
      end
  end.

(** The inner [try] of [get_coffee_data]: [inl coffees] when it returns
    from the function, [inr last_update_time] when it falls through. *)
Definition last_update (coffees : list Coffee)
  : M (list Coffee + option string) :=
  try_except
    (emit SelectUpdateLogs ;;
     data <- answer (select_update_logs env) ;;
     match data with
     | row :: _ =>
         let last_update_time := log_created_at row in
         log INFO (MsgLastUpdate last_update_time) ;;
         ret (inr last_update_time)
     | [] =>
         log INFO MsgNoPreviousUpdates ;;
         ret (inl coffees)
     end)
    (fun e => log WARNING (MsgNoLastUpdateTime e) ;; ret (inl coffees)).

Definition get_coffee_data (force_all : bool) : M (list Coffee) :=
  try_except
    (emit SelectCoffees ;;
     coffees <- answer (select_coffees env) ;;
     match coffees with
     | [] => log WARNING MsgNoCoffeesFound ;; ret []
     | _ :: _ =>
         log INFO (MsgFoundTotal (List.length coffees)) ;;
         if force_all then
           log INFO (MsgForceUpdate (List.length coffees)) ;; ret coffees
         else
           r <- last_update coffees ;;
           match r with
           | inl all => ret all
           | inr last_update_time =>
               need_update <- lift (filter_need_update last_update_time coffees []) ;;
               log INFO (MsgFoundNeedUpdate (List.length need_update)) ;;
               ret need_update
           end
     end)
    (fun e => log ERROR (MsgErrorFetching e) ;; ret []).

(** *** generate_openai_embedding *)

Definition generate_openai_embedding (flavor_tags : list string)
  : M (option (list R)) :=
  let text := String.concat ", " flavor_tags in
  fun tr =>
    let k := count is_CallOpenAI tr in
    (emit (CallOpenAI flavor_tags) ;;
     try_except
       (log DEBUG (MsgGeneratingOpenAI text) ;;
        new_openai_client (environ_OPENAI_API_KEY env) ;;
        embedding <- answer (embeddings_create env k) ;;
        if negb (List.length embedding =? VECTOR_DIMENSIONS)%nat then
          log ERROR (MsgInvalidDimensions (List.length embedding) VECTOR_DIMENSIONS) ;;
          ret None
        else ret (Some embedding))
       (fun e => log ERROR (MsgErrorOpenAI e) ;; ret None)) tr.

(** *** update_coffee_embedding *)

(** [not embedding]: true for [None] and for the empty list. *)
Definition no_embedding (embedding : option (list R)) : bool :=
  match embedding with
  | Some (_ :: _) => false
  | _ => true
  end.

Definition vector_of (embedding : option (list R)) : list R :=
  match embedding with
  | Some v => v
  | None => []
  end.

(** The RPC with its [try]: the vector is sent as it is (its text form
    [embedding_str] is not modelled). *)
Definition rpc_update (coffee_id : string) (embedding : list R) : M bool :=
  fun tr =>
    let k := count is_RpcUpdate tr in
    try_except
      (emit (RpcUpdate coffee_id embedding) ;;
       data <- answer (rpc_update_coffee_flavor_vector env k) ;;
       match data with
       | JTrue => log INFO (MsgUpdated coffee_id) ;; ret true
       | _ => log ERROR (MsgRpcFailure coffee_id) ;; ret false
       end)
      (fun e => log ERROR (MsgErrorUpdating coffee_id e) ;; ret false) tr.

Definition update_coffee_embedding (coffee : Coffee) (has_openai dry_run : bool)
  : M bool :=
  let coffee_id := id coffee in
  let coffee_name := name_of coffee in
  if no_tags (flavor_tags coffee) then
    log WARNING (MsgNoFlavorTags coffee_id coffee_name) ;; ret false
  else
    let flavor_tags := tags_of coffee in
    log INFO (MsgProcessing coffee_id coffee_name (String.concat ", " flavor_tags)) ;;
    embedding <-
      (if has_openai then generate_openai_embedding flavor_tags
       else
         emit (CallFallback flavor_tags) ;;
         v <- lift (generate_fallback_embedding (hash env) flavor_tags) ;;
         ret (Some v)) ;;
    if no_embedding embedding then
      log ERROR (MsgFailedToGenerate coffee_id) ;; ret false
    else
      let embedding := vector_of embedding in
      log DEBUG (MsgGenerated (List.length embedding)) ;;
      if dry_run then
        log INFO (MsgDryRunWouldUpdate coffee_id (List.length embedding)) ;;
        ret true
      else rpc_update coffee_id embedding.

(** *** main *)

(** [for coffee in batch], threading the two counters. *)
Fixpoint process_batch (args : Args) (has_openai : bool) (batch_last : Coffee)
  (todo : list Coffee) (counters : nat * nat) : M (nat * nat) :=
  match todo with
  | [] => ret counters
  | coffee :: rest =>
      let '(updated, failed) := counters in
      success <- update_coffee_embedding coffee has_openai (dry_run args) ;;
      let counters :=
        if success then (updated + 1, failed)%nat else (updated, failed + 1)%nat in
      (if negb (Qle_bool (delay args) 0) && negb (coffee_eqb coffee batch_last)
       then time_sleep env (delay args)
       else ret tt) ;;
      process_batch args has_openai batch_last rest counters
  end.

(** One iteration of [for i in range(0, total_coffees, batch_size)]. *)
Definition batch_at (args : Args) (coffees : list Coffee) (i : nat) : list Coffee :=
  slice coffees i (i + Z.to_nat (batch_size args)).

Definition process_batch_at (args : Args) (has_openai : bool)
  (coffees : list Coffee) (i : nat) (counters : nat * nat) : M (nat * nat) :=
  let total_coffees := List.length coffees in
  let batch := batch_at args coffees i in
  let batch_num := (Z.of_nat i / batch_size args + 1)%Z in
  let total_batches :=
    ((Z.of_nat total_coffees + batch_size args - 1) / batch_size args)%Z in
  log INFO (MsgProcessingBatch batch_num total_batches (List.length batch)) ;;
  counters <-
    match batch with
    | [] => ret counters
    | c :: _ => process_batch args has_openai (last batch c) batch counters
    end ;;
  log INFO (MsgProgress (i + List.length batch) total_coffees) ;;
  log INFO (MsgCounts (fst counters) (snd counters)) ;;
  (if (Z.of_nat i + batch_size args <? Z.of_nat total_coffees)%Z
      && negb (Qle_bool (batch_delay args) 0)
   then log INFO (MsgWaiting (batch_delay args)) ;; time_sleep env (batch_delay args)
   else ret tt) ;;
  ret counters.

Fixpoint for_each_batch (args : Args) (has_openai : bool) (coffees : list Coffee)
  (starts : list nat) (counters : nat * nat) : M (nat * nat) :=
  match starts with
  | [] => ret counters
  | i :: rest =>
      counters <- process_batch_at args has_openai coffees i counters ;;
      for_each_batch args has_openai coffees rest counters
  end.

(** The tracking set-up, the batch loop and the final report of [main];
    the result is the final [(updated, failed)]. *)
Definition process_batches (args : Args) (has_openai : bool)
  (coffees : list Coffee) : M (nat * nat) :=
  let total_coffees := List.length coffees in
  let counters := (0, 0)%nat in
  log INFO (MsgStartingUpdate (batch_size args)) ;;
  (if dry_run args then log INFO MsgDryRunMode else ret tt) ;;
  starts <- lift (range0 total_coffees (batch_size args)) ;;
  counters <- for_each_batch args has_openai coffees starts counters ;;
  log INFO MsgComplete ;;
  log INFO (MsgFinalResults (fst counters) (snd counters)) ;;
  ret counters.

(** [input(prompt)]. *)
Definition py_input (prompt : string) : M string :=
  emit (Input prompt) ;; answer (input env).

(** [main()]; the value is [None] in Python, here the final counters when
    the batch loop ran. *)
Definition main (argv : cmdline Args) : M (option (nat * nat)) :=
  args <- get_args argv ;;
  log INFO MsgStarting ;;
  has_openai <- initialize_clients args ;;
  coffees <- get_coffee_data (force_all args) ;;
  match coffees with
  | [] => log INFO MsgNoCoffeesNeedUpdating ;; ret None
  | _ :: _ =>
      proceed <-
        (if negb has_openai && negb (force_all args) then
           log WARNING MsgNoOpenAIButUpdating ;;
           user_input <- py_input "Continue with fallback embeddings? [y/N]: " ;;
           if negb (String.eqb (lower user_input) "y") then
             log INFO MsgCancelledByUser ;; ret false
           else ret true
         else ret true) ;;
      if (proceed : bool) then
        counters <- process_batches args has_openai coffees ;;
        ret (Some counters)
      else ret None
  end.

(** The [if __name__ == "__main__"] guard: the exit status of the
    process and its trace; no status when [main] never ends. *)
Definition script (argv : cmdline Args) : option Z * trace :=
  match main argv [] with
  | (Ret _, tr) => (Some 0%Z, tr)
  | (Raise KeyboardInterrupt, tr) => (Some 1%Z, tr ++ [Log INFO MsgInterrupted])
  | (Raise (SystemExit code), tr) => (Some code, tr)
  | (Raise e, tr) => (Some 1%Z, tr ++ [Log ERROR (MsgUnhandled e)])
  | (Diverge, tr) => (None, tr)
  end.

End Script.

(* ================================================================== *)
(** ** The migration script

    Source: [scripts/apply_migration.py].  The same embedding, with the
    events and log lines of that script. *)
(* ================================================================== *)

Module Migration.

(** The parsed command line. *)
Record MigrationArgs : Type := {
  migration_file : string;
  verbose : bool
}.

(** The world around the script: the environment variables (after
    [load_dotenv]), the file system, the gateway.  [exec_sql] answers with
    the [error] attribute of the response ([None] when there is none). *)
Record MigrationEnv : Type := {
  environ_URL : option string;
  environ_KEY : option string;
  path_exists : bool;
  read_file : response string;
  new_client : response unit;
  exec_sql : response (option string)
}.

Inductive message : Type :=
| MsgStarting
| MsgFileMissing (path : string)
| MsgCredentialsRequired
| MsgClientInitialized
| MsgClientInitFailed (e : exc)
| MsgFileRead (path : string)
| MsgReadFailed (e : exc)
| MsgApplying
| MsgResponseError (error : string)
| MsgApplyFailed (e : exc)
| MsgApplied
| MsgCompleted
| MsgFailed
| MsgInterrupted
| MsgUnhandled (e : exc).

Inductive event : Type :=
| Log (lvl : level) (m : message)
| PathExists (path : string)
| CreateClient
| ReadFile (path : string)
| ExecSql (sql : string).

Definition trace : Type := list event.

Definition M (A : Type) : Type := trace -> outcome A * trace.

Definition ret {A} (a : A) : M A := fun tr => (Ret a, tr).

Definition bind {A B} (m : M A) (k : A -> M B) : M B :=
  fun tr =>
    match m tr with
    | (Ret a, tr') => k a tr'
    | (Raise e, tr') => (Raise e, tr')
    | (Diverge, tr') => (Diverge, tr')
    end.

Definition raise {A} (e : exc) : M A := fun tr => (Raise e, tr).

Definition emit (ev : event) : M unit := fun tr => (Ret tt, tr ++ [ev]).

Definition log (lvl : level) (m : message) : M unit := emit (Log lvl m).

(** [try: body except Exception as e: handler(e)]. *)
Definition try_except {A} (body : M A) (handler : exc -> M A) : M A :=
  fun tr =>
    match body tr with
    | (Raise e, tr') =>
        if is_Exception e then handler e tr' else (Raise e, tr')
    | r => r
    end.

Definition answer {A} (r : response A) : M A :=
  match r with
  | Data d => ret d
  | Fails e => raise e
  end.

Definition sys_exit {A} (code : Z) : M A := raise (SystemExit code).

Declare Scope migration_scope.
Delimit Scope migration_scope with migration.
Notation "x <- m ;; k" := (bind m (fun x => k))
  (at level 61, m at next level, right associativity) : migration_scope.
Notation "m ;; k" := (bind m (fun _ => k))
  (at level 61, right associativity) : migration_scope.
Local Open Scope migration_scope.

(** [get_args()]: the parser declares the positional [migration_file]
    and [--verbose]; [parse_args] returns the namespace or exits (status 2
    when the positional argument is missing). *)
Definition get_args (argv : cmdline MigrationArgs) : M MigrationArgs :=
  match argv with
  | Parsed args => ret args
  | Help => sys_exit 0
  | UsageError => sys_exit 2
  end.

Section Script.

Variable env : MigrationEnv.

(** [initialize_supabase()]. *)
Definition initialize_supabase : M unit :=
  let supabase_url := environ_URL env in
  let supabase_key := environ_KEY env in
  (if negb (truthy_str supabase_url) || negb (truthy_str supabase_key)
   then log ERROR MsgCredentialsRequired ;; sys_exit 1
   else ret tt) ;;
  try_except
    (emit CreateClient ;;
     answer (new_client env) ;;
     log INFO MsgClientInitialized ;;
     ret tt)
    (fun e => log ERROR (MsgClientInitFailed e) ;; sys_exit 1).

(** [read_migration_file(file_path)]. *)
Definition read_migration_file (file_path : string) : M string :=
  try_except
    (emit (ReadFile file_path) ;;
     sql <- answer (read_file env) ;;
     log INFO (MsgFileRead file_path) ;;
     ret sql)
    (fun e => log ERROR (MsgReadFailed e) ;; sys_exit 1).

(** [apply_migration(supabase, sql)]. *)
Definition apply_migration (sql : string) : M bool :=
  try_except
    (log INFO MsgApplying ;;
     emit (ExecSql sql) ;;
     error <- answer (exec_sql env) ;;
     if truthy_str error then
       log ERROR (MsgResponseError (match error with Some e => e | None => "" end)) ;;
       ret false
     else
       log INFO MsgApplied ;; ret true)
    (fun e => log ERROR (MsgApplyFailed e) ;; ret false).

(** [main()]. *)
Definition main (argv : cmdline MigrationArgs) : M unit :=
  args <- get_args argv ;;
  log INFO MsgStarting ;;
  let migration_file := migration_file args in
  emit (PathExists migration_file) ;;
  (if negb (path_exists env)
   then log ERROR (MsgFileMissing migration_file) ;; sys_exit 1
   else ret tt) ;;
  initialize_supabase ;;
  sql <- read_migration_file migration_file ;;
  success <- apply_migration sql ;;
  if success then log INFO MsgCompleted
  else log ERROR MsgFailed ;; sys_exit 1.

(** The [if __name__ == "__main__"] guard. *)
Definition script (argv : cmdline MigrationArgs) : option Z * trace :=
  match main argv [] with
  | (Ret _, tr) => (Some 0%Z, tr)
  | (Raise KeyboardInterrupt, tr) => (Some 1%Z, tr ++ [Log INFO MsgInterrupted])
  | (Raise (SystemExit code), tr) => (Some code, tr)
  | (Raise e, tr) => (Some 1%Z, tr ++ [Log ERROR (MsgUnhandled e)])
  | (Diverge, tr) => (None, tr)
  end.

End Script.

(** The migration goes through: the file is there, so are the
    credentials, the client is created, the file is read and [exec_sql]
    answers without an error. *)
Definition goes_through (env : MigrationEnv) : Prop :=
  path_exists env = true
  /\ truthy_str (environ_URL env) = true
  /\ truthy_str (environ_KEY env) = true
  /\ new_client env = Data tt
  /\ (exists sql, read_file env = Data sql)
  /\ (exists error, exec_sql env = Data error /\ truthy_str error = false).

(** No call of the environment raises [SystemExit] itself. *)
Definition no_exit_raised (env : MigrationEnv) : Prop :=
  (forall code, read_file env <> Fails (SystemExit code))
  /\ (forall code, new_client env <> Fails (SystemExit code))
  /\ (forall code, exec_sql env <> Fails (SystemExit code)).

Definition is_ExecSql (ev : event) : bool :=
  match ev with ExecSql _ => true | _ => false end.

(** The last line of the log reports a failure or the interruption. *)
Definition ends_with_report (tr : trace) : Prop :=
  exists tr0, (exists m, tr = tr0 ++ [Log ERROR m])
              \/ tr = tr0 ++ [Log INFO MsgInterrupted].

Definition sample_args : MigrationArgs :=
  {| migration_file := "migrations/001_vectors.sql"; verbose := false |}.

Definition broken_env : MigrationEnv :=
  {| environ_URL := Some "https://example.supabase.co"%string;
     environ_KEY := Some "service-key"%string;
     path_exists := true;
     read_file := Data "create extension vector;"%string;
     new_client := Data tt;
     exec_sql := Data (Some "syntax error"%string) |}.

Definition sample_env : MigrationEnv :=
  {| environ_URL := Some "https://example.supabase.co"%string;
     environ_KEY := Some "service-key"%string;
     path_exists := true;
     read_file := Data "create extension vector;"%string;
     new_client := Data tt;
     exec_sql := Data None |}.

End Migration.

(* ================================================================== *)
(** ** Vocabulary of the properties *)
(* ================================================================== *)

(** *** Fallback generator *)

(** The shape every intermediate [base_vector] has. *)
Definition base_ok (v : list R) : Prop :=
  List.length v = 5%nat /\ Forall (fun x => (0.1 <= x)%R) v.

(** The factor applied at position [i] of the expansion. *)
Definition variation_factor (hash : string -> Z) (i : nat) : R :=
  (0.95 + IZR (hash (str_of_nat i) mod 10) / 100)%R.

(** The value at position [i] of the expansion of a pattern: the pattern
    repeats, each value times the factor of its position. *)
Definition expanded (hash : string -> Z) (normalized : list R) (i : nat) : R :=
  (nth (i mod List.length normalized) normalized 0 * variation_factor hash i)%R.

(** The normalized vector of a tag list. *)
Definition normalized_of (flavor_tags : list string) : list R :=
  map (fun val => (val / magnitude (composite flavor_tags))%R) (composite flavor_tags).

(** *** Change detector *)

(** [updated_at], falling back to [created_at] when it is absent. *)
Definition effective_timestamp (c : Coffee) : option string :=
  or_str (updated_at c) (created_at c).

(** The timestamp is there and strictly later than [t]. *)
Definition strictly_later (timestamp : option string) (t : string) : bool :=
  match timestamp with
  | Some s => str_gt s t
  | None => false
  end.

(** [flavor_embedding] is absent or empty. *)
Definition embedding_absent (c : Coffee) : bool :=
  negb (truthy_str (flavor_embedding c)).

(** Changed after [since], or never embedded. *)
Definition stale (since : string) (c : Coffee) : bool :=
  strictly_later (effective_timestamp c) since || embedding_absent c.

(** The later of two optional timestamps. *)
Definition later_of (a b : option string) : option string :=
  match a, b with
  | Some x, Some y => if str_gt y x then Some y else Some x
  | Some x, None => Some x
  | None, _ => b
  end.

(** The last sync time: the [created_at] of the most recent row of the
    log of past runs; [None] when the log has no row. *)
Definition last_sync_time (logs : list UpdateLog) : option string :=
  fold_left (fun latest row => later_of latest (log_created_at row)) logs None.

(** *** Runner *)

(** No Ctrl-C (and no [SystemExit]) arrives while the batch loop waits for
    the embedding service, the update RPC or a pacing sleep: whatever those
    calls raise is an [Exception]. *)
Definition calm (env : Env) : Prop :=
  (forall k e, embeddings_create env k = Fails e -> is_Exception e = true)
  /\ (forall k e, rpc_update_coffee_flavor_vector env k = Fails e -> is_Exception e = true)
  /\ (forall k, sleep_interrupted env k = false).

(** What happens to one record: it is updated, or it meets one of the
    per-record errors ([TransportFailure]: the primary generator raised,
    building its client or calling the service). *)
Inductive verdict : Type :=
| Updated
| EmptyTags
| DimensionMismatch
| TransportFailure
| WriteFailed.

Definition succeeded (v : verdict) : bool :=
  match v with Updated => true | _ => false end.

(** The persistence step of a record whose vector was generated, given the
    number of RPC calls made before: the verdict and the new number. *)
Definition write_verdict (env : Env) (dry_run : bool) (n_rpc : nat) : verdict * nat :=
  if dry_run then (Updated, n_rpc)
  else match rpc_update_coffee_flavor_vector env n_rpc with
       | Data JTrue => (Updated, S n_rpc)
       | _ => (WriteFailed, S n_rpc)
       end.

(** The verdict on one record, given the numbers of calls made before to
    the embedding service and to the RPC, and the new numbers. *)
Definition judge_one (env : Env) (has_openai dry_run : bool) (c : Coffee)
  (n_openai n_rpc : nat) : verdict * nat * nat :=
  if no_tags (flavor_tags c) then (EmptyTags, n_openai, n_rpc)
  else if has_openai then
    match environ_OPENAI_API_KEY env with
    | None => (TransportFailure, S n_openai, n_rpc)
    | Some _ =>
        match embeddings_create env n_openai with
        | Fails _ => (TransportFailure, S n_openai, n_rpc)
        | Data embedding =>
            if (List.length embedding =? VECTOR_DIMENSIONS)%nat then
              let w := write_verdict env dry_run n_rpc in
              (fst w, S n_openai, snd w)
            else (DimensionMismatch, S n_openai, n_rpc)
        end
    end
  else
    let w := write_verdict env dry_run n_rpc in
    (fst w, n_openai, snd w).

(** The verdicts reached so far, record by record, with the numbers of
    external calls made. *)
Record progress : Type := {
  verdicts : list (Coffee * verdict);
  openai_calls : nat;
  fallback_calls : nat;
  rpc_calls : nat
}.

Definition judge (env : Env) (has_openai dry_run : bool) (p : progress) (c : Coffee)
  : progress :=
  let r := judge_one env has_openai dry_run c (openai_calls p) (rpc_calls p) in
  {| verdicts := verdicts p ++ [(c, fst (fst r))];
     openai_calls := snd (fst r);
     fallback_calls :=
       if no_tags (flavor_tags c) || has_openai then fallback_calls p
       else S (fallback_calls p);
     rpc_calls := snd r |}.

(** The record-by-record account of a run over [coffees]: one verdict per
    record, in order. *)
Definition judge_all (env : Env) (has_openai dry_run : bool) (coffees : list Coffee)
  (p : progress) : progress :=
  fold_left (judge env has_openai dry_run) coffees p.

Definition count_updated (p : progress) : nat :=
  List.length (filter (fun cv => succeeded (snd cv)) (verdicts p)).

Definition count_failed (p : progress) : nat :=
  List.length (filter (fun cv => negb (succeeded (snd cv))) (verdicts p)).

(** The account before the first record, at trace [tr]. *)
Definition start_of (tr : trace) : progress :=
  {| verdicts := [];
     openai_calls := count is_CallOpenAI tr;
     fallback_calls := count is_CallFallback tr;
     rpc_calls := count is_RpcUpdate tr |}.

(** The record whose processing a log line opens: the first line of
    [update_coffee_embedding] names it. *)
Definition visit_of (ev : event) : list string :=
  match ev with
  | Log _ (MsgNoFlavorTags coffee_id _) => [coffee_id]
  | Log _ (MsgProcessing coffee_id _ _) => [coffee_id]
  | _ => []
  end.

(** The records visited along a trace, in order. *)
Definition visited (tr : trace) : list string := flat_map visit_of tr.

(** The counters and the trace of the script match an account. *)
Definition agrees (tr0 tr : trace) (counters : nat * nat) (p : progress) : Prop :=
  fst counters = count_updated p
  /\ snd counters = count_failed p
  /\ count is_CallOpenAI tr = openai_calls p
  /\ count is_CallFallback tr = fallback_calls p
  /\ count is_RpcUpdate tr = rpc_calls p
  /\ visited tr = visited tr0 ++ map (fun cv => id (fst cv)) (verdicts p).

(** The batches of the runner, in order. *)
Definition batches (args : Args) (coffees : list Coffee) (starts : list nat)
  : list (list Coffee) :=
  map (batch_at args coffees) starts.

(** The line "Processing batch k/n (size coffees)" opens a batch. *)
Definition opens_batch (ev : event) : bool :=
  match ev with
  | Log _ (MsgProcessingBatch _ _ _) => true
  | _ => false
  end.

(** The records visited along a trace before the next batch opens. *)
Fixpoint visited_in_batch (tr : trace) : list string :=
  match tr with
  | [] => []
  | ev :: rest =>
      if opens_batch ev then [] else visit_of ev ++ visited_in_batch rest
  end.

(** The batches a trace shows: for every line that opens a batch, the
    records visited from there to the next such line. *)
Fixpoint batches_run (tr : trace) : list (list string) :=
  match tr with
  | [] => []
  | ev :: rest =>
      if opens_batch ev then visited_in_batch rest :: batches_run rest
      else batches_run rest
  end.

(** The batch sizes the trace announces, line by line. *)
Definition announced_size (ev : event) : list nat :=
  match ev with
  | Log _ (MsgProcessingBatch _ _ size) => [size]
  | _ => []
  end.

Definition announced_sizes (tr : trace) : list nat := flat_map announced_size tr.

(** *** What a run may do *)

(** Whatever the start of the trace, [m] only appends events that satisfy
    [P]; it does not diverge; a value it returns satisfies [Q] and an
    exception it raises satisfies [E]. *)
Definition runs {A} (P : event -> Prop) (Q : A -> Prop) (E : exc -> Prop) (m : M A)
  : Prop :=
  forall tr, exists evs,
    snd (m tr) = tr ++ evs
    /\ Forall P evs
    /\ match fst (m tr) with
       | Ret a => Q a
       | Raise e => E e
       | Diverge => False
       end.

Definition has_tags (c : Coffee) : bool := negb (no_tags (flavor_tags c)).

(** The exception comes out of a call to the gateway or to the embedding
    service, or is the Ctrl-C that ends a sleep. *)
Definition raised_by_service (env : Env) (e : exc) : Prop :=
  create_client env = Fails e
  \/ select_coffees env = Fails e
  \/ select_update_logs env = Fails e
  \/ (exists k, embeddings_create env k = Fails e)
  \/ (exists k, rpc_update_coffee_flavor_vector env k = Fails e)
  \/ (e = KeyboardInterrupt /\ exists k, sleep_interrupted env k = true).

(** An exception no [except Exception] clause stops. *)
Definition interrupts (env : Env) (e : exc) : Prop :=
  is_Exception e = false /\ raised_by_service env e.

(** An exception that stops the batch loop: one that no [except Exception]
    clause catches, out of the embedding service, the RPC or a sleep. *)
Definition loop_interrupts (env : Env) (e : exc) : Prop :=
  is_Exception e = false
  /\ ((exists k, embeddings_create env k = Fails e)
      \/ (exists k, rpc_update_coffee_flavor_vector env k = Fails e)
      \/ (e = KeyboardInterrupt /\ exists k, sleep_interrupted env k = true)).

(** A work set is a selection of rows: some of them, in their order. *)
Definition selection_of (rows work_set : list Coffee) : Prop :=
  exists keep, work_set = filter keep rows.

(** The events the processing of one record may produce. *)
Definition record_event (c : Coffee) (has_openai dry_run : bool) (ev : event) : Prop :=
  match ev with
  | Log _ _ => True
  | CallOpenAI tags => has_openai = true /\ tags = tags_of c /\ has_tags c = true
  | CallFallback tags => has_openai = false /\ tags = tags_of c /\ has_tags c = true
  | RpcUpdate coffee_id embedding =>
      dry_run = false /\ coffee_id = id c /\ has_tags c = true
      /\ List.length embedding = VECTOR_DIMENSIONS
  | _ => False
  end.

(** The events the batch loop over [coffees] may produce. *)
Definition batch_event (args : Args) (has_openai : bool) (coffees : list Coffee)
  (ev : event) : Prop :=
  match ev with
  | Log _ _ => True
  | Sleep secs =>
      (secs = delay args /\ Qle_bool (delay args) 0 = false)
      \/ (secs = batch_delay args /\ Qle_bool (batch_delay args) 0 = false)
  | CallOpenAI _ | CallFallback _ | RpcUpdate _ _ =>
      exists c, In c coffees /\ record_event c has_openai (dry_run args) ev
  | _ => False
  end.

(** What a generator hands over: nothing, or a vector of full dimension. *)
Definition full_or_none (o : option (list R)) : Prop :=
  match o with
  | Some v => List.length v = VECTOR_DIMENSIONS
  | None => True
  end.

(** The events [get_coffee_data] may produce. *)
Definition query_event (ev : event) : Prop :=
  match ev with
  | Log _ _ | SelectCoffees | SelectUpdateLogs => True
  | _ => False
  end.

(** The events [initialize_clients] may produce. *)
Definition init_event (ev : event) : Prop :=
  match ev with
  | Log _ _ | CreateClient => True
  | _ => False
  end.

(** The test of the filter loop, as a plain predicate. *)
Definition kept (last_update_time : option string) (coffee : Coffee) : bool :=
  match needs_update last_update_time coffee with
  | Ret true => true
  | _ => false
  end.

(** The events of a run that generates nothing, writes nothing and does
    not sleep. *)
Definition quiet_event (ev : event) : Prop :=
  match ev with
  | Log _ _ | CreateClient | SelectCoffees | SelectUpdateLogs | Input _ => True
  | _ => False
  end.

(** [has_openai] as [initialize_clients] computes it. *)
Definition has_openai_of (env : Env) (args : Args) : bool :=
  truthy_str (or_str (openai_key args) (environ_OPENAI_API_KEY env)).

(** The rows the catalog query returns ([[]] when it fails). *)
Definition fetched (env : Env) : list Coffee :=
  match select_coffees env with
  | Data coffees => coffees
  | Fails _ => []
  end.

(** The events a run of the script may produce. *)
Definition main_event (env : Env) (args : Args) (ev : event) : Prop :=
  match ev with
  | Log _ _ | CreateClient | SelectCoffees | SelectUpdateLogs => True
  | Input _ => has_openai_of env args = false /\ force_all args = false
  | _ => batch_event args (has_openai_of env args) (fetched env) ev
  end.

(** The exceptions that may come out of [main]. *)
Definition main_raises (env : Env) (e : exc) : Prop :=
  e = SystemExit 1 \/ e = ValueError \/ input env = Fails e \/ interrupts env e.

(** *** Exit status *)

(** The Supabase URL and key are there, on the command line or in the
    environment. *)
Definition credentials_present (env : Env) (args : Args) : bool :=
  truthy_str (or_str (supabase_url args) (environ_SUPABASE_URL env))
  && truthy_str (or_str (supabase_key args) (environ_SUPABASE_KEY env)).

(** Nobody presses Ctrl-C during the run, and the prompt gets an answer. *)
Definition undisturbed (env : Env) : Prop :=
  calm env
  /\ (forall e, select_coffees env = Fails e -> is_Exception e = true)
  /\ (forall e, select_update_logs env = Fails e -> is_Exception e = true)
  /\ (exists answer, input env = Data answer).

(** *** Sample data *)

Definition guji : Coffee :=
  {| id := "c-001"; coffee_name := Some "Guji Natural"%string;
     flavor_tags := Some ["Fruity"; "floral notes"]%string;
     created_at := Some "2024-01-10T08:00:00+00:00"%string;
     updated_at := Some "2024-05-02T09:30:00+00:00"%string;
     flavor_embedding := Some "[0.1,0.2]"%string |}.

Definition huila : Coffee :=
  {| id := "c-002"; coffee_name := Some "Huila Washed"%string;
     flavor_tags := Some ["chocolate"; "nutty"]%string;
     created_at := Some "2024-01-11T08:00:00+00:00"%string;
     updated_at := None;
     flavor_embedding := Some "[0.3,0.4]"%string |}.

Definition decaf : Coffee :=
  {| id := "c-003"; coffee_name := None;
     flavor_tags := Some [];
     created_at := Some "2024-01-12T08:00:00+00:00"%string;
     updated_at := None;
     flavor_embedding := None |}.

(** Two past runs, as the log of past runs records them. *)
Definition january_run : UpdateLog :=
  {| log_created_at := Some "2024-01-01T00:00:00+00:00"%string |}.

Definition june_run : UpdateLog :=
  {| log_created_at := Some "2024-06-01T00:00:00+00:00"%string |}.

Definition default_args : Args :=
  {| supabase_url := None; supabase_key := None; openai_key := None;
     force_all := false; batch_size := BATCH_SIZE;
     delay := DELAY_BETWEEN_REQUESTS; batch_delay := DELAY_BETWEEN_BATCHES;
     dry_run := false; verbose := false |}.

(** A world where the gateway answers, the embedding service answers with
    [answers], every write succeeds and nobody presses Ctrl-C. *)
Definition sample_env (coffees : list Coffee) (logs : list UpdateLog)
  (answers : nat -> response (list R)) : Env :=
  {| environ_SUPABASE_URL := Some "https://example.supabase.co"%string;
     environ_SUPABASE_KEY := Some "service-key"%string;
     environ_OPENAI_API_KEY := Some "sk-test"%string;
     create_client := Data tt;
     select_coffees := Data coffees;
     select_update_logs := Data logs;
     embeddings_create := answers;
     rpc_update_coffee_flavor_vector := fun _ => Data JTrue;
     sleep_interrupted := fun _ => false;
     input := Data "y"%string;
     hash := SipHash.str_hash 0 0 |}.

(** The same world, but every write is refused by the RPC. *)
Definition refusing_env (coffees : list Coffee) (logs : list UpdateLog)
  (answers : nat -> response (list R)) : Env :=
  {| environ_SUPABASE_URL := Some "https://example.supabase.co"%string;
     environ_SUPABASE_KEY := Some "service-key"%string;
     environ_OPENAI_API_KEY := Some "sk-test"%string;
     create_client := Data tt;
     select_coffees := Data coffees;
     select_update_logs := Data logs;
     embeddings_create := answers;
     rpc_update_coffee_flavor_vector := fun _ => Data JFalse;
     sleep_interrupted := fun _ => false;
     input := Data "y"%string;
     hash := SipHash.str_hash 0 0 |}.

Definition dry_run_args : Args :=
  {| supabase_url := None; supabase_key := None; openai_key := None;
     force_all := false; batch_size := BATCH_SIZE;
     delay := DELAY_BETWEEN_REQUESTS; batch_delay := DELAY_BETWEEN_BATCHES;
     dry_run := true; verbose := false |}.

(** The user presses Ctrl-C during the first pacing sleep. *)
Definition ctrl_c_env (coffees : list Coffee) : Env :=
  {| environ_SUPABASE_URL := Some "https://example.supabase.co"%string;
     environ_SUPABASE_KEY := Some "service-key"%string;
     environ_OPENAI_API_KEY := Some "sk-test"%string;
     create_client := Data tt;
     select_coffees := Data coffees;
     select_update_logs := Data [];
     embeddings_create := fun _ => Fails (Error "connection refused");
     rpc_update_coffee_flavor_vector := fun _ => Data JTrue;
     sleep_interrupted := fun _ => true;
     input := Data "y"%string;
     hash := SipHash.str_hash 0 0 |}.

(** The gateway cannot be reached when the catalog is fetched. *)
Definition unreachable_env : Env :=
  {| environ_SUPABASE_URL := Some "https://example.supabase.co"%string;
     environ_SUPABASE_KEY := Some "service-key"%string;
     environ_OPENAI_API_KEY := Some "sk-test"%string;
     create_client := Data tt;
     select_coffees := Fails (Error "connection refused");
     select_update_logs := Fails (Error "connection refused");
     embeddings_create := fun _ => Fails (Error "connection refused");
     rpc_update_coffee_flavor_vector := fun _ => Fails (Error "connection refused");
     sleep_interrupted := fun _ => false;
     input := Data "y"%string;
     hash := SipHash.str_hash 0 0 |}.

(** No OpenAI key, and the user answers "n" at the prompt. *)
Definition declining_env (coffees : list Coffee) : Env :=
  {| environ_SUPABASE_URL := Some "https://example.supabase.co"%string;
     environ_SUPABASE_KEY := Some "service-key"%string;
     environ_OPENAI_API_KEY := None;
     create_client := Data tt;
     select_coffees := Data coffees;
     select_update_logs := Data [];
     embeddings_create := fun _ => Fails (Error "connection refused");
     rpc_update_coffee_flavor_vector := fun _ => Data JTrue;
     sleep_interrupted := fun _ => false;
     input := Data "n"%string;
     hash := SipHash.str_hash 0 0 |}.

(** No credentials at all. *)
Definition bare_env : Env :=
  {| environ_SUPABASE_URL := None;
     environ_SUPABASE_KEY := None;
     environ_OPENAI_API_KEY := None;
     create_client := Data tt;
     select_coffees := Data [];
     select_update_logs := Data [];
     embeddings_create := fun _ => Fails (Error "connection refused");
     rpc_update_coffee_flavor_vector := fun _ => Data JTrue;
     sleep_interrupted := fun _ => false;
     input := Data "y"%string;
     hash := SipHash.str_hash 0 0 |}.

(** The OpenAI key is not in the environment; the embedding service
    would answer every request. *)
Definition keyless_env (coffees : list Coffee) : Env :=
  {| environ_SUPABASE_URL := Some "https://example.supabase.co"%string;
     environ_SUPABASE_KEY := Some "service-key"%string;
     environ_OPENAI_API_KEY := None;
     create_client := Data tt;
     select_coffees := Data coffees;
     select_update_logs := Data [];
     embeddings_create := fun _ => Data (repeat 0%R VECTOR_DIMENSIONS);
     rpc_update_coffee_flavor_vector := fun _ => Data JTrue;
     sleep_interrupted := fun _ => false;
     input := Data "y"%string;
     hash := SipHash.str_hash 0 0 |}.

(** [--openai-key sk-cli]. *)
Definition keyed_args : Args :=
  {| supabase_url := None; supabase_key := None; openai_key := Some "sk-cli"%string;
     force_all := false; batch_size := BATCH_SIZE;
     delay := DELAY_BETWEEN_REQUESTS; batch_delay := DELAY_BETWEEN_BATCHES;
     dry_run := false; verbose := false |}.

(** [--batch-size 0]. *)
Definition zero_batch_args : Args :=
  {| supabase_url := None; supabase_key := None; openai_key := None;
     force_all := false; batch_size := 0;
     delay := DELAY_BETWEEN_REQUESTS; batch_delay := DELAY_BETWEEN_BATCHES;
     dry_run := false; verbose := false |}.

(** [--batch-size 2 --delay 0]. *)
Definition paced_args : Args :=
  {| supabase_url := None; supabase_key := None; openai_key := None;
     force_all := false; batch_size := 2;
     delay := 0; batch_delay := DELAY_BETWEEN_BATCHES;
     dry_run := false; verbose := false |}.

Definition service_down : nat -> response (list R) :=
  fun _ => Fails (Error "connection refused").

Definition service_up : nat -> response (list R) :=
  fun _ => Data (repeat 0%R VECTOR_DIMENSIONS).

(* ================================================================== *)
(** ** Facts about the fallback generator *)
(* ================================================================== *)

Section FallbackFacts.
Local Open Scope R_scope.

Variable hash : string -> Z.

Lemma VECTOR_DIMENSIONS_gt_1 : (1 < VECTOR_DIMENSIONS)%nat.
Proof. apply Nat.ltb_lt. reflexivity. Qed.

Lemma flavor_map_shape :
  Forall (fun p => List.length (snd p) = 5%nat /\ Forall (fun x => 0 <= x) (snd p))
         flavor_map.
Proof.
  unfold flavor_map.
  repeat (apply Forall_cons || apply Forall_nil || split);
    simpl; try reflexivity; lra.
Qed.

Lemma find_flavor_In items tag_lower vector :
  find_flavor items tag_lower = Some vector ->
  exists flavor, In (flavor, vector) items.
Proof.
  induction items as [|[flavor v] rest IH]; simpl; intros H.
  - discriminate.
  - destruct (contains flavor tag_lower).
    + injection H as ->. exists flavor. now left.
    + destruct (IH H) as [f Hf]. exists f. now right.
Qed.

Lemma find_flavor_shape tag_lower vector :
  find_flavor flavor_map tag_lower = Some vector ->
  List.length vector = 5%nat /\ Forall (fun x => 0 <= x) vector.
Proof.
  intros H. destruct (find_flavor_In _ _ H) as [flavor Hin].
  pose proof flavor_map_shape as Hs.
  rewrite Forall_forall in Hs. exact (Hs _ Hin).
Qed.

Lemma add_tag_ok base_vector tag :
  base_ok base_vector -> base_ok (add_tag base_vector tag).
Proof.
  intros [Hlen Hpos]. unfold add_tag.
  destruct (find_flavor flavor_map (lower tag)) as [vector|] eqn:Hfind.
  - destruct (find_flavor_shape _ Hfind) as [Hvlen Hvpos].
    split.
    + rewrite length_map, length_combine, Hlen, Hvlen. reflexivity.
    + rewrite Forall_forall in *. intros x Hx.
      apply in_map_iff in Hx. destruct Hx as [[b f] [<- Hbf]]. simpl.
      pose proof (Hpos _ (in_combine_l _ _ _ _ Hbf)).
      pose proof (Hvpos _ (in_combine_r _ _ _ _ Hbf)).
      lra.
  - split.
    + now rewrite length_map.
    + rewrite Forall_forall in *. intros x Hx.
      apply in_map_iff in Hx. destruct Hx as [val [<- Hval]].
      pose proof (Hpos _ Hval). lra.
Qed.

Lemma fold_add_tag_ok flavor_tags : forall base_vector,
  base_ok base_vector -> base_ok (fold_left add_tag flavor_tags base_vector).
Proof.
  induction flavor_tags as [|tag rest IH]; simpl; intros base Hb.
  - exact Hb.
  - apply IH, add_tag_ok, Hb.
Qed.

Lemma composite_ok flavor_tags : base_ok (composite flavor_tags).
Proof.
  apply fold_add_tag_ok. split.
  - reflexivity.
  - simpl. repeat constructor; lra.
Qed.

Lemma fold_squares_ge (l : list R) : forall a,
  a <= fold_left Rplus (map (fun val => val ^ 2) l) a.
Proof.
  induction l as [|x l IH]; intros a; cbn [map fold_left].
  - lra.
  - specialize (IH (a + x ^ 2)).
    pose proof (pow2_ge_0 x). lra.
Qed.

Lemma magnitude_pos base_vector : base_ok base_vector -> 0 < magnitude base_vector.
Proof.
  intros [Hlen Hpos]. unfold magnitude, Py.sum.
  apply sqrt_lt_R0.
  destruct base_vector as [|x l]; [discriminate|].
  inversion Hpos as [|? ? Hx _]; subst.
  cbn [map fold_left].
  pose proof (fold_squares_ge l (0 + x ^ 2)) as Hge.
  assert (0.01 <= x ^ 2) by nra. lra.
Qed.

Lemma list_comp_truediv (m : R) (l : list R) :
  m <> 0 ->
  list_comp (fun val => truediv val m) l = Ret (map (fun val => val / m) l).
Proof.
  intros Hm. induction l as [|x l IH]; simpl.
  - reflexivity.
  - rewrite IH. unfold truediv.
    destruct (Req_dec_T m 0) as [E|_]; [contradiction|reflexivity].
Qed.

Lemma extend_pass_cons val rest full_embedding :
  extend_pass hash (val :: rest) full_embedding =
  let full' := full_embedding ++ [val * variation_factor hash (List.length full_embedding)] in
  if (VECTOR_DIMENSIONS <=? List.length full')%nat then full'
  else extend_pass hash rest full'.
Proof. reflexivity. Qed.

Lemma extend_loop_eq fuel normalized full_embedding :
  extend_loop hash fuel normalized full_embedding =
  if (List.length full_embedding <? VECTOR_DIMENSIONS)%nat then
    match fuel with
    | O => Diverge
    | S fuel' =>
        extend_loop hash fuel' normalized (extend_pass hash normalized full_embedding)
    end
  else Ret full_embedding.
Proof. destruct fuel; reflexivity. Qed.

(** One pass only appends, never beyond [VECTOR_DIMENSIONS], and appends
    something when [normalized] is not empty. *)
Lemma extend_pass_appends normalized : forall full_embedding,
  (List.length full_embedding < VECTOR_DIMENSIONS)%nat ->
  exists suffix,
    extend_pass hash normalized full_embedding = full_embedding ++ suffix
    /\ (List.length (full_embedding ++ suffix) <= VECTOR_DIMENSIONS)%nat
    /\ (normalized <> [] -> suffix <> []).
Proof.
  induction normalized as [|val rest IH]; intros full Hlt.
  - exists []. simpl. rewrite app_nil_r. repeat split; [lia|congruence].
  - rewrite extend_pass_cons. cbv zeta.
    set (x := val * variation_factor hash (List.length full)).
    destruct (Nat.leb_spec VECTOR_DIMENSIONS (List.length (full ++ [x]))) as [Hge|Hlt'].
    + exists [x]. rewrite length_app in *. simpl in *.
      repeat split; [lia|discriminate].
    + destruct (IH (full ++ [x]) Hlt') as (suffix & Heq & Hlen & _).
      exists (x :: suffix). rewrite Heq.
      replace (full ++ x :: suffix) with ((full ++ [x]) ++ suffix)
        by (rewrite <- app_assoc; reflexivity).
      repeat split; [exact Hlen|discriminate].
Qed.

(** With a non-empty [normalized] the [while] loop ends, with a vector
    of exactly [VECTOR_DIMENSIONS] elements that extends the start. *)
Lemma extend_loop_returns normalized : normalized <> [] ->
  forall fuel full_embedding,
  (List.length full_embedding <= VECTOR_DIMENSIONS)%nat ->
  (VECTOR_DIMENSIONS - List.length full_embedding < fuel)%nat ->
  exists suffix,
    extend_loop hash fuel normalized full_embedding = Ret (full_embedding ++ suffix)
    /\ List.length (full_embedding ++ suffix) = VECTOR_DIMENSIONS.
Proof.
  intros Hne. induction fuel as [|fuel IH]; intros full Hle Hfuel.
  - lia.
  - rewrite extend_loop_eq.
    destruct (Nat.ltb_spec (List.length full) VECTOR_DIMENSIONS) as [Hlt|Hge].
    + destruct (extend_pass_appends normalized full Hlt) as (s1 & Heq & Hlen & Hs1).
      specialize (Hs1 Hne). rewrite Heq.
      assert (List.length s1 <> 0%nat) as Hs1len
          by (destruct s1; [congruence|discriminate]).
      rewrite length_app in Hlen.
      destruct (IH (full ++ s1)) as (s2 & Heq2 & Hlen2).
      * rewrite length_app. lia.
      * rewrite length_app. lia.
      * exists (s1 ++ s2). rewrite app_assoc. split; assumption.
    + exists []. rewrite app_nil_r. split; [reflexivity|lia].
Qed.

(** The generator returns, its result has [VECTOR_DIMENSIONS] elements,
    and the first one is the first normalized component times the factor
    of position 0. *)
Lemma generate_fallback_embedding_returns flavor_tags :
  exists first rest,
    generate_fallback_embedding hash flavor_tags = Ret (first :: rest)
    /\ List.length (first :: rest) = VECTOR_DIMENSIONS
    /\ first = hd 0 (normalized_of flavor_tags) * variation_factor hash 0.
Proof.
  pose proof (composite_ok flavor_tags) as Hok.
  pose proof (magnitude_pos Hok) as Hmag.
  pose proof VECTOR_DIMENSIONS_gt_1 as HD.
  unfold generate_fallback_embedding.
  rewrite list_comp_truediv by lra.
  fold (normalized_of flavor_tags).
  assert (exists n0 nrest, normalized_of flavor_tags = n0 :: nrest) as (n0 & nrest & Hn).
  { unfold normalized_of. destruct Hok as [Hlen _].
    destruct (composite flavor_tags) as [|b0 brest]; [discriminate|].
    simpl. eauto. }
  rewrite Hn. simpl hd.
  rewrite extend_loop_eq.
  destruct (Nat.ltb_spec (@List.length R []) VECTOR_DIMENSIONS) as [_|Hge];
    [|simpl in Hge; lia].
  rewrite extend_pass_cons. cbv zeta. rewrite app_nil_l. cbn [List.length].
  destruct (Nat.leb_spec VECTOR_DIMENSIONS 1) as [Hbad|_]; [lia|].
  destruct (extend_pass_appends nrest [n0 * variation_factor hash 0]) as (s1 & Heq1 & Hlen1 & _).
  { simpl. lia. }
  rewrite Heq1.
  destruct (@extend_loop_returns (n0 :: nrest) ltac:(discriminate)
              VECTOR_DIMENSIONS ([n0 * variation_factor hash 0] ++ s1) Hlen1)
    as (s2 & Heq2 & Hlen2).
  { rewrite length_app. cbn [List.length]. lia. }
  rewrite Heq2.
  rewrite firstn_all2 by (rewrite Hlen2; lia).
  exists (n0 * variation_factor hash 0), (s1 ++ s2).
  split; [rewrite <- app_assoc; reflexivity|].
  split; [rewrite <- Hlen2, <- app_assoc; reflexivity|reflexivity].
Qed.

End FallbackFacts.

Section FallbackHash.
Local Open Scope R_scope.

Variables h1 h2 : string -> Z.

(** The two interpreters' hashes agree modulo 10 on the decimal form of
    every position. *)
Hypothesis residues :
  forall i, (i < VECTOR_DIMENSIONS)%nat ->
            (h1 (str_of_nat i) mod 10 = h2 (str_of_nat i) mod 10)%Z.

Lemma extend_pass_residues normalized : forall full_embedding,
  (List.length full_embedding < VECTOR_DIMENSIONS)%nat ->
  extend_pass h1 normalized full_embedding = extend_pass h2 normalized full_embedding.
Proof.
  induction normalized as [|val rest IH]; intros full Hlt.
  - reflexivity.
  - rewrite !extend_pass_cons. cbv zeta. unfold variation_factor.
    rewrite (residues Hlt).
    destruct (Nat.leb_spec VECTOR_DIMENSIONS
                (List.length (full ++ [val * (0.95 + IZR (h2 (str_of_nat (List.length full)) mod 10) / 100)])))
      as [_|Hlt']; [reflexivity|].
    apply IH, Hlt'.
Qed.

Lemma extend_loop_residues normalized fuel : forall full_embedding,
  extend_loop h1 fuel normalized full_embedding
  = extend_loop h2 fuel normalized full_embedding.
Proof.
  induction fuel as [|fuel IH]; intros full; rewrite !(extend_loop_eq _ _ normalized full).
  - reflexivity.
  - destruct (Nat.ltb_spec (List.length full) VECTOR_DIMENSIONS) as [Hlt|_];
      [|reflexivity].
    rewrite (extend_pass_residues normalized full Hlt). apply IH.
Qed.

Lemma generate_fallback_embedding_residues flavor_tags :
  generate_fallback_embedding h1 flavor_tags
  = generate_fallback_embedding h2 flavor_tags.
Proof.
  unfold generate_fallback_embedding.
  destruct (list_comp _ (composite flavor_tags)) as [normalized| |];
    [|reflexivity|reflexivity].
  now rewrite extend_loop_residues.
Qed.

End FallbackHash.

Lemma normalized_hd_pos flavor_tags : (0 < hd 0 (normalized_of flavor_tags))%R.
Proof.
  pose proof (composite_ok flavor_tags) as Hok.
  pose proof (magnitude_pos Hok) as Hmag.
  unfold normalized_of. destruct Hok as [Hlen Hpos].
  destruct (composite flavor_tags) as [|b0 rest]; [discriminate|].
  inversion Hpos as [|? ? Hb0 _]; subst. simpl.
  apply Rdiv_lt_0_compat; lra.
Qed.

(** C3: for every non-empty list of tag strings (whatever keywords the
    tags match or miss, and whatever the interpreter's hash),
    [generate_fallback_embedding] returns a vector of exactly 1536
    elements. *)
Theorem generate_fallback_embedding_length (hash : string -> Z) (flavor_tags : list string) :
  flavor_tags <> [] ->
  exists embedding,
    generate_fallback_embedding hash flavor_tags = Ret embedding
    /\ List.length embedding = 1536%nat.
Proof.
  intros _.
  destruct (generate_fallback_embedding_returns hash flavor_tags)
    as (first & rest & Heq & Hlen & _).
  exists (first :: rest). split; [exact Heq|exact Hlen].
Qed.

Lemma generate_fallback_embedding_length_witness :
  ["Fruity notes"; "caramel"; "dark CHOCOLATE"]%string <> []
  /\ exists embedding,
       generate_fallback_embedding (SipHash.str_hash 0 0)
         ["Fruity notes"; "caramel"; "dark CHOCOLATE"]%string = Ret embedding
       /\ List.length embedding = 1536%nat.
Proof.
  split; [discriminate|].
  apply generate_fallback_embedding_length. discriminate.
Defined.

(** C9: [generate_fallback_embedding] never raises, for any list of tag
    strings: every component of the intermediate vector stays at or above
    0.1, so its Euclidean norm is positive and the division of the
    normalization step is never a division by zero; the function returns a
    vector. *)
Theorem generate_fallback_embedding_never_raises (hash : string -> Z) (flavor_tags : list string) :
  Forall (fun x => (0.1 <= x)%R) (composite flavor_tags)
  /\ (0 < magnitude (composite flavor_tags))%R
  /\ (forall e, generate_fallback_embedding hash flavor_tags <> Raise e)
  /\ exists embedding, generate_fallback_embedding hash flavor_tags = Ret embedding.
Proof.
  pose proof (composite_ok flavor_tags) as Hok.
  destruct (generate_fallback_embedding_returns hash flavor_tags)
    as (first & rest & Heq & _).
  split; [apply Hok|].
  split; [apply magnitude_pos, Hok|].
  split; [intros e; rewrite Heq; discriminate|].
  now exists (first :: rest).
Qed.

(** C8, counterexample: the same tag sequence gives two different vectors
    in two interpreter processes whose string hashes are keyed differently
    ([PYTHONHASHSEED=0] and [PYTHONHASHSEED=1]): [hash("0") % 10] is 8 in
    the first and 5 in the second, so the first components differ. *)
Lemma generate_fallback_embedding_depends_on_hash_key :
  generate_fallback_embedding (SipHash.str_hash 0 0) ["fruity"%string]
  <> generate_fallback_embedding
       (SipHash.str_hash 0xaed66ce184be2329 0xebe9bbf1f1499052) ["fruity"%string].
Proof.
  destruct (generate_fallback_embedding_returns
              (SipHash.str_hash 0 0) ["fruity"%string])
    as (x & xs & Hx & _ & Hx0).
  destruct (generate_fallback_embedding_returns
              (SipHash.str_hash 0xaed66ce184be2329 0xebe9bbf1f1499052) ["fruity"%string])
    as (y & ys & Hy & _ & Hy0).
  rewrite Hx, Hy. intros Heq. injection Heq as Hxy _.
  pose proof (normalized_hd_pos ["fruity"%string]) as Hpos.
  unfold variation_factor in Hx0, Hy0.
  assert ((SipHash.str_hash 0 0 (str_of_nat 0) mod 10 = 8)%Z) as E0
      by (vm_compute; reflexivity).
  assert ((SipHash.str_hash 0xaed66ce184be2329 0xebe9bbf1f1499052 (str_of_nat 0) mod 10 = 5)%Z)
    as E1 by (vm_compute; reflexivity).
  rewrite E0 in Hx0. rewrite E1 in Hy0.
  subst x y. nra.
Qed.

(** C8, amended: the vector is a function of the tag sequence and of the
    interpreter's string hash only, and of the hash only through
    [hash(str(i)) % 10] for the positions [i] below 1536: two calls with
    the same tags under hashes that agree on those residues (in particular
    two calls in one process) return the identical outcome. *)
Theorem generate_fallback_embedding_deterministic (h1 h2 : string -> Z) (flavor_tags : list string) :
  (forall i, (i < 1536)%nat ->
             (h1 (str_of_nat i) mod 10 = h2 (str_of_nat i) mod 10)%Z) ->
  generate_fallback_embedding h1 flavor_tags = generate_fallback_embedding h2 flavor_tags.
Proof.
  intros H. apply generate_fallback_embedding_residues. exact H.
Qed.

Lemma generate_fallback_embedding_deterministic_witness :
  (forall i, (i < 1536)%nat ->
     (SipHash.str_hash 0 0 (str_of_nat i) mod 10
      = (SipHash.str_hash 0 0 (str_of_nat i) + 10) mod 10)%Z)
  /\ generate_fallback_embedding (SipHash.str_hash 0 0) ["fruity"%string]
     = generate_fallback_embedding (fun s => (SipHash.str_hash 0 0 s + 10)%Z) ["fruity"%string].
Proof.
  assert (forall i, (i < 1536)%nat ->
     (SipHash.str_hash 0 0 (str_of_nat i) mod 10
      = (SipHash.str_hash 0 0 (str_of_nat i) + 10) mod 10)%Z) as H.
  { intros i _.
    replace (SipHash.str_hash 0 0 (str_of_nat i) + 10)%Z
      with (SipHash.str_hash 0 0 (str_of_nat i) + 1 * 10)%Z by lia.
    now rewrite Z_mod_plus_full. }
  split; [exact H|].
  apply (generate_fallback_embedding_deterministic
           (SipHash.str_hash 0 0) (fun s => (SipHash.str_hash 0 0 s + 10)%Z)).
  exact H.
Defined.

(* ================================================================== *)
(** ** Facts about the change detector *)
(* ================================================================== *)

Lemma str_gt_empty (t : string) : str_gt "" t = false.
Proof. unfold str_gt, String.ltb. destruct t; reflexivity. Qed.

Lemma needs_update_stale (t : string) (coffee : Coffee) :
  needs_update (Some t) coffee = Ret (stale t coffee).
Proof.
  unfold needs_update, stale, strictly_later, embedding_absent, effective_timestamp.
  destruct (or_str (updated_at coffee) (created_at coffee)) as [cu|]; [|reflexivity].
  simpl. destruct (String.eqb_spec cu "") as [->|_]; simpl.
  - now rewrite str_gt_empty.
  - destruct (str_gt cu t); reflexivity.
Qed.

Lemma filter_need_update_stale (t : string) (coffees : list Coffee) :
  forall need_update,
    filter_need_update (Some t) coffees need_update
    = Ret (need_update ++ filter (stale t) coffees).
Proof.
  induction coffees as [|coffee rest IH]; intros acc; simpl.
  - now rewrite app_nil_r.
  - rewrite needs_update_stale. destruct (stale t coffee).
    + rewrite IH, <- app_assoc. reflexivity.
    + apply IH.
Qed.

(** Runs the monadic plumbing of the script as far as it computes. *)
Ltac run_script :=
  cbv beta iota zeta delta
    [get_coffee_data last_update initialize_clients generate_openai_embedding
     new_openai_client get_args rpc_update py_input sys_exit
     try_except bind emit log answer lift ret raise fst snd negb].

(** The work set when a last sync time exists and [force_all] is unset. *)
Lemma get_coffee_data_prior_sync env coffees row logs t tr :
  select_coffees env = Data coffees ->
  select_update_logs env = Data (row :: logs) ->
  log_created_at row = Some t ->
  fst (get_coffee_data env false tr) = Ret (filter (stale t) coffees).
Proof.
  intros Hc Hl Ht.
  run_script. rewrite Hc. destruct coffees as [|c rest]; [reflexivity|].
  run_script. rewrite Hl. run_script. rewrite Ht, filter_need_update_stale.
  reflexivity.
Qed.

(** The work set under [force_all]. *)
Lemma get_coffee_data_force_all env coffees tr :
  select_coffees env = Data coffees ->
  fst (get_coffee_data env true tr) = Ret coffees.
Proof.
  intros Hc.
  run_script. rewrite Hc. destruct coffees; reflexivity.
Qed.

(** The work set when the log of past runs is empty. *)
Lemma get_coffee_data_no_prior_sync env coffees tr :
  select_coffees env = Data coffees ->
  select_update_logs env = Data [] ->
  fst (get_coffee_data env false tr) = Ret coffees.
Proof.
  intros Hc Hl.
  run_script. rewrite Hc. destruct coffees as [|c rest]; [reflexivity|].
  run_script. rewrite Hl. reflexivity.
Qed.

(** A record without tags is reported by [update_coffee_embedding]: one
    warning, the result [False], nothing else. *)
Lemma update_coffee_embedding_no_tags env coffee has_openai dry_run tr :
  no_tags (flavor_tags coffee) = true ->
  update_coffee_embedding env coffee has_openai dry_run tr
  = (Ret false, tr ++ [Log WARNING (MsgNoFlavorTags (id coffee) (name_of coffee))]).
Proof.
  intros H. unfold update_coffee_embedding. rewrite H. reflexivity.
Qed.

(** C1: the change detector does not compare with the last sync time but
    with the [created_at] of the first row the log query returns, and that
    query asks for no order and no limit.  With the log of two runs
    returned oldest first (January, then June), a record updated in May
    that holds an embedding is selected, although it was updated before
    the last sync time (June); with the same two rows returned newest
    first it is left out. *)
Theorem get_coffee_data_compares_with_first_log_row :
  last_sync_time [january_run; june_run] = Some "2024-06-01T00:00:00+00:00"%string
  /\ last_sync_time [june_run; january_run] = Some "2024-06-01T00:00:00+00:00"%string
  /\ strictly_later (effective_timestamp guji) "2024-06-01T00:00:00+00:00" = false
  /\ embedding_absent guji = false
  /\ fst (get_coffee_data (sample_env [guji] [january_run; june_run] service_down)
            false [])
     = Ret [guji]
  /\ fst (get_coffee_data (sample_env [guji] [june_run; january_run] service_down)
            false [])
     = Ret [].
Proof. repeat split; vm_compute; reflexivity. Qed.

(** X24: with [force_all] unset, when the log query returns at least one
    row and the first of them carries the [created_at] [t], the work set
    of [get_coffee_data] holds a fetched record exactly when its
    [updated_at] (or [created_at] when [updated_at] is absent or empty)
    is strictly later than [t], as strings, or its [flavor_embedding] is
    absent or empty; the other rows of the log are not looked at. *)
Theorem get_coffee_data_selects_stale env coffees row logs t tr :
  select_coffees env = Data coffees ->
  select_update_logs env = Data (row :: logs) ->
  log_created_at row = Some t ->
  exists work_set,
    fst (get_coffee_data env false tr) = Ret work_set
    /\ (forall c, In c work_set <->
                  In c coffees
                  /\ (strictly_later (effective_timestamp c) t = true
                      \/ embedding_absent c = true))
    /\ (forall c, strictly_later (effective_timestamp c) t = false ->
                  embedding_absent c = false -> ~ In c work_set).
Proof.
  intros Hc Hl Ht.
  exists (filter (stale t) coffees).
  split; [eapply get_coffee_data_prior_sync; eassumption|].
  assert (forall c, In c (filter (stale t) coffees) <->
                  In c coffees
                  /\ (strictly_later (effective_timestamp c) t = true
                      \/ embedding_absent c = true)) as Hiff.
  { intros c. rewrite filter_In. unfold stale. rewrite orb_true_iff. reflexivity. }
  split; [exact Hiff|].
  intros c Hnl Hne Hin. apply Hiff in Hin. destruct Hin as [_ [H|H]]; congruence.
Qed.

Lemma get_coffee_data_selects_stale_witness :
  select_coffees (sample_env [guji; huila; decaf]
                    [{| log_created_at := Some "2024-03-01T00:00:00+00:00"%string |}]
                    service_down)
  = Data [guji; huila; decaf]
  /\ select_update_logs (sample_env [guji; huila; decaf]
                    [{| log_created_at := Some "2024-03-01T00:00:00+00:00"%string |}]
                    service_down)
     = Data [{| log_created_at := Some "2024-03-01T00:00:00+00:00"%string |}]
  /\ log_created_at {| log_created_at := Some "2024-03-01T00:00:00+00:00"%string |}
     = Some "2024-03-01T00:00:00+00:00"%string
  /\ exists work_set,
    fst (get_coffee_data
           (sample_env [guji; huila; decaf]
              [{| log_created_at := Some "2024-03-01T00:00:00+00:00"%string |}]
              service_down) false [])
    = Ret work_set
    /\ (forall c, In c work_set <->
                  In c [guji; huila; decaf]
                  /\ (strictly_later (effective_timestamp c) "2024-03-01T00:00:00+00:00" = true
                      \/ embedding_absent c = true))
    /\ (forall c, strictly_later (effective_timestamp c) "2024-03-01T00:00:00+00:00" = false ->
                  embedding_absent c = false -> ~ In c work_set).
Proof.
  split; [reflexivity|]. split; [reflexivity|]. split; [reflexivity|].
  apply (@get_coffee_data_selects_stale
           (sample_env [guji; huila; decaf]
              [{| log_created_at := Some "2024-03-01T00:00:00+00:00"%string |}]
              service_down)
           [guji; huila; decaf]
           {| log_created_at := Some "2024-03-01T00:00:00+00:00"%string |}
           [] "2024-03-01T00:00:00+00:00" []); reflexivity.
Defined.

Example get_coffee_data_sample :
  fst (get_coffee_data
         (sample_env [guji; huila; decaf]
            [{| log_created_at := Some "2024-03-01T00:00:00+00:00"%string |}]
            service_down) false [])
  = Ret [guji; decaf].
Proof. vm_compute. reflexivity. Qed.

(** C2: under [force_all] the work set of [get_coffee_data] contains a
    record whose [flavor_tags] is empty.  The query is [select('*')], with
    no condition on [flavor_tags], while the comment above it reads "Get
    all coffees with flavor tags" and the line it logs, here
    [MsgFoundTotal 2], reads "Found 2 total coffees with flavor tags". *)
Lemma get_coffee_data_keeps_record_without_tags :
  flavor_tags decaf = Some []
  /\ get_coffee_data (sample_env [guji; decaf] [] service_down) true []
     = (Ret [guji; decaf],
        [SelectCoffees; Log INFO (MsgFoundTotal 2); Log INFO (MsgForceUpdate 2)])
  /\ In decaf [guji; decaf].
Proof.
  split; [reflexivity|]. split; [vm_compute; reflexivity|].
  right. left. reflexivity.
Qed.

(* ================================================================== *)
(** ** Facts about the runner *)
(* ================================================================== *)

Lemma count_app p (a b : trace) : count p (a ++ b) = (count p a + count p b)%nat.
Proof. unfold count. now rewrite filter_app, length_app. Qed.

Lemma visited_app (a b : trace) : visited (a ++ b) = visited a ++ visited b.
Proof. apply flat_map_app. Qed.

(** The embedding service call, case by case. *)
Lemma generate_openai_embedding_eq env tags tr :
  generate_openai_embedding env tags tr =
  let text := String.concat ", " tags in
  match environ_OPENAI_API_KEY env with
  | None =>
      (Ret None,
       tr ++ [CallOpenAI tags; Log DEBUG (MsgGeneratingOpenAI text);
              Log ERROR (MsgErrorOpenAI (Error "OpenAIError"))])
  | Some _ =>
      match embeddings_create env (count is_CallOpenAI tr) with
      | Data embedding =>
          if (List.length embedding =? VECTOR_DIMENSIONS)%nat then
            (Ret (Some embedding),
             tr ++ [CallOpenAI tags; Log DEBUG (MsgGeneratingOpenAI text)])
          else
            (Ret None,
             tr ++ [CallOpenAI tags; Log DEBUG (MsgGeneratingOpenAI text);
                    Log ERROR (MsgInvalidDimensions (List.length embedding)
                                 VECTOR_DIMENSIONS)])
      | Fails e =>
          if is_Exception e then
            (Ret None,
             tr ++ [CallOpenAI tags; Log DEBUG (MsgGeneratingOpenAI text);
                    Log ERROR (MsgErrorOpenAI e)])
          else (Raise e, tr ++ [CallOpenAI tags; Log DEBUG (MsgGeneratingOpenAI text)])
      end
  end.
Proof.
  run_script.
  destruct (environ_OPENAI_API_KEY env) as [key|];
    [|cbn; now rewrite <- !app_assoc].
  run_script.
  destruct (embeddings_create env (count is_CallOpenAI tr)) as [e|embedding].
  - destruct (is_Exception e); now rewrite <- !app_assoc.
  - destruct (List.length embedding =? VECTOR_DIMENSIONS)%nat;
      run_script; now rewrite <- !app_assoc.
Qed.

(** The update RPC, case by case. *)
Lemma rpc_update_eq env coffee_id embedding tr :
  rpc_update env coffee_id embedding tr =
  match rpc_update_coffee_flavor_vector env (count is_RpcUpdate tr) with
  | Data JTrue =>
      (Ret true, tr ++ [RpcUpdate coffee_id embedding; Log INFO (MsgUpdated coffee_id)])
  | Data _ =>
      (Ret false, tr ++ [RpcUpdate coffee_id embedding; Log ERROR (MsgRpcFailure coffee_id)])
  | Fails e =>
      if is_Exception e then
        (Ret false,
         tr ++ [RpcUpdate coffee_id embedding; Log ERROR (MsgErrorUpdating coffee_id e)])
      else (Raise e, tr ++ [RpcUpdate coffee_id embedding])
  end.
Proof.
  run_script.
  destruct (rpc_update_coffee_flavor_vector env (count is_RpcUpdate tr)) as [e|[ | | ]].
  - destruct (is_Exception e); now rewrite <- ?app_assoc.
  - now rewrite <- !app_assoc.
  - now rewrite <- !app_assoc.
  - now rewrite <- !app_assoc.
Qed.

(** One more record in the account. *)
Lemma agrees_step tr0 tr u f p evs c v (b : bool) n_openai n_fallback n_rpc :
  agrees tr0 tr (u, f) p ->
  visited evs = [id c] ->
  (openai_calls p + count is_CallOpenAI evs = n_openai)%nat ->
  (fallback_calls p + count is_CallFallback evs = n_fallback)%nat ->
  (rpc_calls p + count is_RpcUpdate evs = n_rpc)%nat ->
  b = succeeded v ->
  agrees tr0 (tr ++ evs)
    (if b then (u + 1, f)%nat else (u, f + 1)%nat)
    {| verdicts := verdicts p ++ [(c, v)];
       openai_calls := n_openai; fallback_calls := n_fallback;
       rpc_calls := n_rpc |}.
Proof.
  intros (Hu & Hf & Ho & Hfb & Hr & Hv) Hvis Hno Hnf Hnr ->.
  unfold agrees, count_updated, count_failed in *. simpl in *.
  rewrite !filter_app, !length_app, !count_app, visited_app, map_app.
  rewrite Hvis, Hv, <- app_assoc. simpl.
  destruct (succeeded v); simpl; repeat split; lia.
Qed.

(** Events that are no generator call, no write and no visit leave the
    account as it is. *)
Lemma agrees_silent tr0 tr counters p evs :
  agrees tr0 tr counters p ->
  visited evs = [] ->
  count is_CallOpenAI evs = 0%nat ->
  count is_CallFallback evs = 0%nat ->
  count is_RpcUpdate evs = 0%nat ->
  agrees tr0 (tr ++ evs) counters p.
Proof.
  intros (Hu & Hf & Ho & Hfb & Hr & Hv) Hvis Hno Hnf Hnr.
  unfold agrees. rewrite !count_app, visited_app, Hvis, Hno, Hnf, Hnr, app_nil_r.
  repeat split; try assumption; lia.
Qed.

(** Only the plumbing of the monad. *)
Ltac run_monad :=
  cbv beta iota zeta delta
    [try_except bind emit log answer lift ret raise fst snd negb].

Lemma count_snoc_log p (tr : trace) lvl m :
  p (Log lvl m) = false -> count p (tr ++ [Log lvl m]) = count p tr.
Proof.
  intros H. rewrite count_app. unfold count at 2. simpl. rewrite H. simpl. lia.
Qed.

Lemma full_vector_not_empty (embedding : list R) :
  (List.length embedding =? VECTOR_DIMENSIONS)%nat = true ->
  no_embedding (Some embedding) = false.
Proof.
  destruct embedding; [|reflexivity].
  intros H. apply Nat.eqb_eq in H. pose proof VECTOR_DIMENSIONS_gt_1. simpl in H. lia.
Qed.

Ltac run_record :=
  cbv beta iota zeta delta
    [try_except bind emit log answer lift ret raise fst snd negb vector_of].

Ltac account tr :=
  rewrite <- ?app_assoc; cbn [List.app];
  eexists _, _; split; [reflexivity|];
  apply agrees_step with (tr := tr); try assumption; try reflexivity;
  unfold count; simpl; lia.

Lemma update_coffee_embedding_judged env coffee has_openai dry_run tr0 tr u f p :
  calm env ->
  agrees tr0 tr (u, f) p ->
  exists (b : bool) tr',
    update_coffee_embedding env coffee has_openai dry_run tr = (Ret b, tr')
    /\ agrees tr0 tr' (if b then (u + 1, f)%nat else (u, f + 1)%nat)
         (judge env has_openai dry_run p coffee).
Proof.
  intros (Hoa & Hrpc & _) Hag.
  pose proof Hag as (_ & _ & Ho & _ & Hr & _).
  unfold update_coffee_embedding, judge, judge_one, write_verdict.
  destruct (no_tags (flavor_tags coffee)) eqn:Htags.
  - run_record. account tr.
  - destruct has_openai.
    + run_record. rewrite generate_openai_embedding_eq. cbv zeta.
      rewrite count_snoc_log by reflexivity. rewrite Ho.
      destruct (environ_OPENAI_API_KEY env) as [key|];
        [|unfold no_embedding; run_record; account tr].
      destruct (embeddings_create env (openai_calls p)) as [e|embedding] eqn:Hresp.
      * rewrite (Hoa _ _ Hresp). unfold no_embedding. run_record.
        account tr.
      * destruct (List.length embedding =? VECTOR_DIMENSIONS)%nat eqn:Hdim.
        -- rewrite (full_vector_not_empty _ Hdim).
           destruct dry_run.
           ++ run_record. account tr.
           ++ run_record. rewrite rpc_update_eq.
              rewrite !count_app, Hr. unfold count at 1 2 3. simpl List.length.
              rewrite !Nat.add_0_r.
              destruct (rpc_update_coffee_flavor_vector env (rpc_calls p))
                as [e|[ | | ]] eqn:Hw.
              ** rewrite (Hrpc _ _ Hw). run_record. account tr.
              ** run_record. account tr.
              ** run_record. account tr.
              ** run_record. account tr.
        -- unfold no_embedding. run_record. account tr.
    + run_record.
      destruct (generate_fallback_embedding_returns (hash env) (tags_of coffee))
        as (first & rest & Hgen & _).
      rewrite Hgen. unfold no_embedding. run_record.
      destruct dry_run.
      * run_record. account tr.
      * run_record. rewrite rpc_update_eq.
        rewrite !count_app, Hr. unfold count at 1 2 3. simpl List.length.
        rewrite !Nat.add_0_r.
        destruct (rpc_update_coffee_flavor_vector env (rpc_calls p))
          as [e|[ | | ]] eqn:Hw.
        -- rewrite (Hrpc _ _ Hw). run_record. account tr.
        -- run_record. account tr.
        -- run_record. account tr.
        -- run_record. account tr.
Qed.

Lemma time_sleep_calm env secs tr :
  calm env -> time_sleep env secs tr = (Ret tt, tr ++ [Sleep secs]).
Proof.
  intros (_ & _ & Hsleep). unfold time_sleep. now rewrite Hsleep.
Qed.

Lemma judge_all_app env has_openai dry_run (a b : list Coffee) p :
  judge_all env has_openai dry_run (a ++ b) p
  = judge_all env has_openai dry_run b (judge_all env has_openai dry_run a p).
Proof. apply fold_left_app. Qed.

(** The inner loop follows the account, record by record. *)
Lemma process_batch_judged env args has_openai batch_last todo :
  calm env ->
  forall counters tr tr0 p,
    agrees tr0 tr counters p ->
    exists counters' tr',
      process_batch env args has_openai batch_last todo counters tr = (Ret counters', tr')
      /\ agrees tr0 tr' counters' (judge_all env has_openai (dry_run args) todo p).
Proof.
  intros Hcalm. induction todo as [|coffee rest IH]; intros [u f] tr tr0 p Hag.
  - exists (u, f), tr. split; [reflexivity|exact Hag].
  - destruct (update_coffee_embedding_judged coffee has_openai (dry_run args) Hcalm Hag)
      as (b & tr1 & Hrun & Hag1).
    cbn [process_batch judge_all fold_left]. unfold bind at 1. rewrite Hrun.
    unfold bind at 1.
    destruct (negb (Qle_bool (delay args) 0) && negb (coffee_eqb coffee batch_last)).
    + rewrite (time_sleep_calm _ _ Hcalm).
      apply IH. apply agrees_silent; [exact Hag1|reflexivity|reflexivity|reflexivity|reflexivity].
    + unfold ret at 1. apply IH. exact Hag1.
Qed.

(** One batch: the records of the slice, between the log lines and the
    pacing sleep. *)
Lemma process_batch_at_judged env args has_openai coffees i :
  calm env ->
  forall counters tr tr0 p,
    agrees tr0 tr counters p ->
    exists counters' tr',
      process_batch_at env args has_openai coffees i counters tr = (Ret counters', tr')
      /\ agrees tr0 tr' counters'
           (judge_all env has_openai (dry_run args) (batch_at args coffees i) p).
Proof.
  intros Hcalm counters tr tr0 p Hag.
  unfold process_batch_at. cbv zeta.
  set (batch := batch_at args coffees i).
  unfold bind at 1, log at 1, emit at 1.
  match goal with |- context [tr ++ [?ev]] =>
    assert (agrees tr0 (tr ++ [ev]) counters p) as Hag0
      by (apply agrees_silent; [exact Hag|reflexivity|reflexivity|reflexivity|reflexivity]);
    set (tr1 := tr ++ [ev]) in *
  end.
  assert (exists counters' tr',
    match batch with
    | [] => ret counters
    | c :: _ => process_batch env args has_openai (last batch c) batch counters
    end tr1 = (Ret counters', tr')
    /\ agrees tr0 tr' counters' (judge_all env has_openai (dry_run args) batch p))
    as (counters1 & tr2 & Hrun & Hag1).
  { destruct batch as [|c rest].
    - exists counters, tr1. split; [reflexivity|exact Hag0].
    - apply process_batch_judged; assumption. }
  unfold bind at 1. rewrite Hrun.
  run_monad.
  destruct ((Z.of_nat i + batch_size args <? Z.of_nat (List.length coffees))%Z
            && (if Qle_bool (batch_delay args) 0 then false else true)).
  - rewrite (time_sleep_calm _ _ Hcalm).
    eexists _, _. split; [reflexivity|].
    rewrite <- !app_assoc. cbn [List.app].
    apply agrees_silent; [exact Hag1|reflexivity|reflexivity|reflexivity|reflexivity].
  - eexists _, _. split; [reflexivity|].
    rewrite <- !app_assoc. cbn [List.app].
    apply agrees_silent; [exact Hag1|reflexivity|reflexivity|reflexivity|reflexivity].
Qed.

(** The outer loop: the batches one after the other. *)
Lemma for_each_batch_judged env args has_openai coffees starts :
  calm env ->
  forall counters tr tr0 p,
    agrees tr0 tr counters p ->
    exists counters' tr',
      for_each_batch env args has_openai coffees starts counters tr = (Ret counters', tr')
      /\ agrees tr0 tr' counters'
           (judge_all env has_openai (dry_run args)
              (List.concat (batches args coffees starts)) p).
Proof.
  intros Hcalm. induction starts as [|i rest IH]; intros counters tr tr0 p Hag.
  - exists counters, tr. split; [reflexivity|exact Hag].
  - destruct (process_batch_at_judged args has_openai coffees i Hcalm Hag)
      as (counters1 & tr1 & Hrun & Hag1).
    cbn [for_each_batch batches map List.concat]. unfold bind at 1. rewrite Hrun.
    rewrite judge_all_app. apply IH. exact Hag1.
Qed.

(** *** The partition into batches *)

Lemma range0_positive (stop : nat) (step : Z) :
  (0 < step)%Z ->
  range0 stop step
  = Ret (map (fun k => k * Z.to_nat step)%nat
             (seq 0 ((stop + Z.to_nat step - 1) / Z.to_nat step))).
Proof.
  intros H. unfold range0.
  destruct (Z.eqb_spec step 0); [lia|].
  destruct (Z.ltb_spec step 0); [lia|reflexivity].
Qed.

Lemma slice_chunk {A} (l : list A) (i size : nat) :
  slice l i (i + size) = firstn size (skipn i l).
Proof. unfold slice. f_equal. lia. Qed.

(** Cutting a list every [size] elements and gluing the pieces gives the
    list back, as soon as the pieces reach its end. *)
Lemma chunks_concat {A} (size : nat) :
  (0 < size)%nat ->
  forall m (l : list A),
    (List.length l <= m * size)%nat ->
    List.concat (map (fun i => slice l i (i + size))
                     (map (fun k => k * size)%nat (seq 0 m))) = l.
Proof.
  intros Hsize. induction m as [|m IH]; intros l Hlen.
  - destruct l; [reflexivity|simpl in Hlen; lia].
  - cbn [seq map List.concat]. rewrite <- seq_shift, !map_map.
    rewrite (slice_chunk l (0 * size) size). cbn [Nat.mul skipn].
    transitivity (firstn size l ++ skipn size l); [|apply firstn_skipn].
    f_equal.
    transitivity
      (List.concat (map (fun i => slice (skipn size l) i (i + size))
                        (map (fun k => k * size)%nat (seq 0 m)))).
    + rewrite map_map. f_equal. apply map_ext. intros k.
      rewrite !slice_chunk, skipn_skipn. do 2 f_equal. simpl. lia.
    + apply IH. rewrite length_skipn. simpl in Hlen. lia.
Qed.

Lemma ceil_covers (n size : nat) :
  (0 < size)%nat -> (n <= (n + size - 1) / size * size)%nat.
Proof.
  intros H.
  pose proof (Nat.div_mod_eq (n + size - 1) size) as Hdm.
  pose proof (Nat.mod_upper_bound (n + size - 1) size ltac:(lia)) as Hmod.
  nia.
Qed.

Lemma ceil_tight (n size : nat) :
  (0 < size)%nat -> (0 < n)%nat ->
  (0 < (n + size - 1) / size /\ ((n + size - 1) / size - 1) * size < n)%nat.
Proof.
  intros H Hn.
  pose proof (Nat.div_mod_eq (n + size - 1) size) as Hdm.
  pose proof (Nat.mod_upper_bound (n + size - 1) size ltac:(lia)) as Hmod.
  assert (0 < (n + size - 1) / size)%nat by (apply Nat.div_str_pos; lia).
  split; [assumption|nia].
Qed.

Lemma batch_at_length args (coffees : list Coffee) (i : nat) :
  List.length (batch_at args coffees i)
  = Nat.min (Z.to_nat (batch_size args)) (List.length coffees - i).
Proof.
  unfold batch_at. now rewrite slice_chunk, length_firstn, length_skipn.
Qed.

(** The batches cover the work set, in order, each record once. *)
Lemma batches_concat args (coffees : list Coffee) starts :
  (0 < batch_size args)%Z ->
  range0 (List.length coffees) (batch_size args) = Ret starts ->
  List.concat (batches args coffees starts) = coffees.
Proof.
  intros Hpos Hrange. rewrite (range0_positive _ Hpos) in Hrange.
  injection Hrange as <-.
  unfold batches, batch_at.
  apply chunks_concat; [lia|]. apply ceil_covers. lia.
Qed.

(** Every batch but the last has [batch_size] records, and the last one
    has at least one and at most [batch_size]. *)
Lemma batches_sizes args (coffees : list Coffee) starts :
  (0 < batch_size args)%Z ->
  coffees <> [] ->
  range0 (List.length coffees) (batch_size args) = Ret starts ->
  exists full last_batch,
    batches args coffees starts = full ++ [last_batch]
    /\ Forall (fun b => List.length b = Z.to_nat (batch_size args)) full
    /\ (0 < List.length last_batch <= Z.to_nat (batch_size args))%nat.
Proof.
  intros Hpos Hne Hrange. rewrite (range0_positive _ Hpos) in Hrange.
  injection Hrange as <-.
  set (size := Z.to_nat (batch_size args)).
  set (n := List.length coffees).
  assert (0 < size)%nat as Hsize by (unfold size; lia).
  assert (0 < n)%nat as Hn by (unfold n; destruct coffees; [congruence|simpl; lia]).
  destruct (ceil_tight Hsize Hn) as [Hm Htight].
  set (m := ((n + size - 1) / size)%nat) in *.
  replace m with (S (m - 1)) by lia.
  rewrite seq_S. cbn [Nat.add]. unfold batches. rewrite !map_app. cbn [map].
  eexists _, _. split; [reflexivity|]. split.
  - rewrite Forall_forall. intros b Hb.
    rewrite map_map in Hb. apply in_map_iff in Hb. destruct Hb as (k & <- & Hk).
    apply in_seq in Hk. rewrite batch_at_length. fold size n.
    apply Nat.min_l. nia.
  - rewrite batch_at_length. fold size n. lia.
Qed.

(** *** The whole run *)

Lemma judge_all_verdicts env has_openai dry_run (coffees : list Coffee) : forall p,
  map fst (verdicts (judge_all env has_openai dry_run coffees p))
  = map fst (verdicts p) ++ coffees.
Proof.
  induction coffees as [|c rest IH]; intros p; cbn [judge_all fold_left].
  - now rewrite app_nil_r.
  - fold (judge_all env has_openai dry_run rest (judge env has_openai dry_run p c)).
    rewrite IH. unfold judge. cbn [verdicts].
    rewrite map_app, <- app_assoc. reflexivity.
Qed.

Lemma counts_cover (p : progress) :
  (count_updated p + count_failed p = List.length (verdicts p))%nat.
Proof.
  unfold count_updated, count_failed.
  induction (verdicts p) as [|[c v] rest IH]; simpl; [reflexivity|].
  destruct (succeeded v); simpl; lia.
Qed.

Lemma agrees_start (tr : trace) : agrees tr tr (0, 0)%nat (start_of tr).
Proof.
  unfold agrees, start_of, count_updated, count_failed. simpl.
  rewrite app_nil_r. repeat split; reflexivity.
Qed.

(** The batch loop of [main] returns, and its counters and trace match
    the record-by-record account of the work set. *)
Lemma process_batches_judged env args has_openai coffees tr :
  calm env ->
  (0 < batch_size args)%Z ->
  exists counters tr',
    process_batches env args has_openai coffees tr = (Ret counters, tr')
    /\ agrees tr tr' counters
         (judge_all env has_openai (dry_run args) coffees (start_of tr)).
Proof.
  intros Hcalm Hpos.
  unfold process_batches. cbv zeta.
  rewrite (range0_positive _ Hpos).
  set (starts := map _ (seq 0 _)).
  assert (range0 (List.length coffees) (batch_size args) = Ret starts) as Hrange
      by apply (range0_positive _ Hpos).
  assert (exists tr1,
             (forall (k : unit -> M (nat * nat)),
                bind (log INFO (MsgStartingUpdate (batch_size args)))
                  (fun _ => bind (if dry_run args then log INFO MsgDryRunMode else ret tt) k) tr
                = k tt tr1)
             /\ agrees tr tr1 (0, 0)%nat (start_of tr)) as (tr1 & Htr1 & Hag1).
  { destruct (dry_run args); eexists; (split; [intros k; reflexivity|]).
    - rewrite <- app_assoc.
      apply agrees_silent; [apply agrees_start|reflexivity|reflexivity|reflexivity|reflexivity].
    - apply agrees_silent; [apply agrees_start|reflexivity|reflexivity|reflexivity|reflexivity]. }
  rewrite Htr1.
  unfold bind at 1, lift at 1.
  destruct (for_each_batch_judged args has_openai coffees starts Hcalm Hag1)
    as (counters & tr2 & Hrun & Hag2).
  rewrite (batches_concat _ _ Hpos Hrange) in Hag2.
  unfold bind at 1. rewrite Hrun. run_monad.
  eexists _, _. split; [reflexivity|].
  rewrite <- app_assoc.
  apply agrees_silent; [exact Hag2|reflexivity|reflexivity|reflexivity|reflexivity].
Qed.

Lemma visited_account env has_openai dry_run coffees tr tr' counters :
  agrees tr tr' counters (judge_all env has_openai dry_run coffees (start_of tr)) ->
  visited tr' = visited tr ++ map id coffees.
Proof.
  intros (_ & _ & _ & _ & _ & Hv). rewrite Hv. f_equal.
  rewrite <- (map_map fst id), judge_all_verdicts. reflexivity.
Qed.

Lemma sample_env_calm coffees logs answers :
  (forall k e, answers k = Fails e -> is_Exception e = true) ->
  calm (sample_env coffees logs answers).
Proof.
  intros H. split; [exact H|]. split; [|reflexivity].
  intros k e He. discriminate He.
Qed.

Lemma service_down_is_Exception k e :
  service_down k = Fails e -> is_Exception e = true.
Proof. intros H. injection H as <-. reflexivity. Qed.

(** *** The batches of a run, read off its trace *)

Definition steady (ev : event) : Prop := opens_batch ev = false.

Lemma visited_in_batch_app (a b : trace) :
  Forall steady a ->
  visited_in_batch (a ++ b) = visited a ++ visited_in_batch b.
Proof.
  induction 1 as [|ev a Hev _ IH]; [reflexivity|].
  cbn [List.app visited_in_batch]. rewrite Hev, IH.
  unfold visited. cbn [flat_map]. now rewrite app_assoc.
Qed.

Lemma batches_run_app (a b : trace) :
  Forall steady a -> batches_run (a ++ b) = batches_run b.
Proof.
  induction 1 as [|ev a Hev _ IH]; [reflexivity|].
  cbn [List.app batches_run]. now rewrite Hev.
Qed.

Lemma announced_sizes_steady (a : trace) :
  Forall steady a -> announced_sizes a = [].
Proof.
  induction 1 as [|ev a Hev _ IH]; [reflexivity|].
  unfold announced_sizes in *. cbn [flat_map]. rewrite IH, app_nil_r.
  destruct ev as [lvl m| | | | | | | |]; try reflexivity.
  destruct m; try reflexivity. discriminate Hev.
Qed.

Ltac visit_leaf :=
  rewrite <- ?app_assoc; cbn [List.app];
  eexists _, _; split; [reflexivity|];
  split; [repeat constructor|reflexivity].

(** Processing one record opens no batch and visits that record, once. *)
Lemma update_coffee_embedding_visit env coffee has_openai dry_run tr :
  calm env ->
  exists (b : bool) evs,
    update_coffee_embedding env coffee has_openai dry_run tr = (Ret b, tr ++ evs)
    /\ Forall steady evs
    /\ visited evs = [id coffee].
Proof.
  intros (Hoa & Hrpc & _).
  unfold update_coffee_embedding.
  destruct (no_tags (flavor_tags coffee)) eqn:Htags.
  - run_record. visit_leaf.
  - destruct has_openai.
    + run_record. rewrite generate_openai_embedding_eq. cbv zeta.
      destruct (environ_OPENAI_API_KEY env) as [key|];
        [|unfold no_embedding; run_record; visit_leaf].
      destruct (embeddings_create env _) as [e|embedding] eqn:Hresp.
      * rewrite (Hoa _ _ Hresp). unfold no_embedding. run_record. visit_leaf.
      * destruct (List.length embedding =? VECTOR_DIMENSIONS)%nat eqn:Hdim.
        -- rewrite (full_vector_not_empty _ Hdim).
           destruct dry_run.
           ++ run_record. visit_leaf.
           ++ run_record. rewrite rpc_update_eq.
              destruct (rpc_update_coffee_flavor_vector env _) as [e|[ | | ]] eqn:Hw.
              ** rewrite (Hrpc _ _ Hw). run_record. visit_leaf.
              ** run_record. visit_leaf.
              ** run_record. visit_leaf.
              ** run_record. visit_leaf.
        -- unfold no_embedding. run_record. visit_leaf.
    + run_record.
      destruct (generate_fallback_embedding_returns (hash env) (tags_of coffee))
        as (first & rest & Hgen & _).
      rewrite Hgen. unfold no_embedding. run_record.
      destruct dry_run.
      * run_record. visit_leaf.
      * run_record. rewrite rpc_update_eq.
        destruct (rpc_update_coffee_flavor_vector env _) as [e|[ | | ]] eqn:Hw.
        -- rewrite (Hrpc _ _ Hw). run_record. visit_leaf.
        -- run_record. visit_leaf.
        -- run_record. visit_leaf.
        -- run_record. visit_leaf.
Qed.

(** The inner loop opens no batch and visits the records of [todo], in
    order. *)
Lemma process_batch_visits env args has_openai batch_last todo :
  calm env ->
  forall counters tr,
    exists counters' evs,
      process_batch env args has_openai batch_last todo counters tr
      = (Ret counters', tr ++ evs)
      /\ Forall steady evs
      /\ visited evs = map id todo.
Proof.
  intros Hcalm. induction todo as [|coffee rest IH]; intros [u f] tr.
  - exists (u, f), []. rewrite app_nil_r. repeat split. constructor.
  - destruct (update_coffee_embedding_visit coffee has_openai (dry_run args) tr Hcalm)
      as (b & evs1 & Hrun & Hst1 & Hv1).
    cbn [process_batch]. unfold bind at 1. rewrite Hrun. unfold bind at 1.
    destruct (negb (Qle_bool (delay args) 0) && negb (coffee_eqb coffee batch_last)).
    + rewrite (time_sleep_calm _ _ Hcalm).
      destruct (IH (if b then (u + 1, f)%nat else (u, f + 1)%nat)
                   ((tr ++ evs1) ++ [Sleep (delay args)]))
        as (counters' & evs2 & Hrest & Hst2 & Hv2).
      exists counters', (evs1 ++ [Sleep (delay args)] ++ evs2).
      rewrite Hrest, <- !app_assoc. split; [reflexivity|].
      split; [apply Forall_app; split; [exact Hst1|constructor; [reflexivity|exact Hst2]]|].
      rewrite visited_app, Hv1. cbn [List.app map]. f_equal. exact Hv2.
    + unfold ret at 1.
      destruct (IH (if b then (u + 1, f)%nat else (u, f + 1)%nat) (tr ++ evs1))
        as (counters' & evs2 & Hrest & Hst2 & Hv2).
      exists counters', (evs1 ++ evs2).
      rewrite Hrest, <- !app_assoc. split; [reflexivity|].
      split; [apply Forall_app; split; assumption|].
      rewrite visited_app, Hv1, Hv2. reflexivity.
Qed.

(** One iteration of the outer loop: the line that opens the batch, with
    the size of the slice, then the records of the slice and nothing that
    opens a batch. *)
Lemma process_batch_at_visits env args has_openai coffees i counters tr :
  calm env ->
  exists counters' total_batches evs,
    process_batch_at env args has_openai coffees i counters tr
    = (Ret counters',
       tr ++ Log INFO (MsgProcessingBatch (Z.of_nat i / batch_size args + 1)
                         total_batches (List.length (batch_at args coffees i)))
             :: evs)
    /\ Forall steady evs
    /\ visited evs = map id (batch_at args coffees i).
Proof.
  intros Hcalm. unfold process_batch_at. cbv zeta.
  unfold bind at 1, log at 1, emit at 1.
  set (opening := Log INFO (MsgProcessingBatch _ _ _)).
  assert (exists counters1 evs1,
             match batch_at args coffees i with
             | [] => ret counters
             | c :: _ =>
                 process_batch env args has_openai (last (batch_at args coffees i) c)
                   (batch_at args coffees i) counters
             end (tr ++ [opening]) = (Ret counters1, (tr ++ [opening]) ++ evs1)
             /\ Forall steady evs1
             /\ visited evs1 = map id (batch_at args coffees i))
    as (counters1 & evs1 & Hrun & Hst & Hv).
  { destruct (batch_at args coffees i) as [|c rest] eqn:Hb.
    - exists counters, []. rewrite app_nil_r. repeat split. constructor.
    - apply process_batch_visits. exact Hcalm. }
  unfold bind at 1. rewrite Hrun. run_monad.
  destruct ((Z.of_nat i + batch_size args <? Z.of_nat (List.length coffees))%Z
            && (if Qle_bool (batch_delay args) 0 then false else true)).
  - rewrite (time_sleep_calm _ _ Hcalm).
    eexists _, _, _. rewrite <- !app_assoc. cbn [List.app].
    split; [reflexivity|]. split.
    + apply Forall_app. split; [exact Hst|repeat constructor].
    + rewrite visited_app, Hv. cbn. apply app_nil_r.
  - eexists _, _, _. rewrite <- !app_assoc. cbn [List.app].
    split; [reflexivity|]. split.
    + apply Forall_app. split; [exact Hst|repeat constructor].
    + rewrite visited_app, Hv. cbn. apply app_nil_r.
Qed.

(** The outer loop: the trace shows the slices at [starts], one batch
    each, whatever follows as long as it visits nothing before it opens a
    batch. *)
Lemma for_each_batch_visits env args has_openai coffees starts :
  calm env ->
  forall counters tr,
    exists counters' evs,
      for_each_batch env args has_openai coffees starts counters tr
      = (Ret counters', tr ++ evs)
      /\ announced_sizes evs
         = map (@List.length Coffee) (batches args coffees starts)
      /\ forall rest,
           visited_in_batch rest = [] ->
           visited_in_batch (evs ++ rest) = []
           /\ batches_run (evs ++ rest)
              = map (map id) (batches args coffees starts) ++ batches_run rest.
Proof.
  intros Hcalm. induction starts as [|i more IH]; intros counters tr.
  - exists counters, []. rewrite app_nil_r.
    split; [reflexivity|]. split; [reflexivity|].
    intros rest Hrest. split; [exact Hrest|reflexivity].
  - destruct (process_batch_at_visits args has_openai coffees i counters tr Hcalm)
      as (counters1 & total & evs1 & Hrun & Hst & Hv).
    cbn [for_each_batch]. unfold bind at 1. rewrite Hrun.
    destruct (IH counters1
                 (tr ++ Log INFO (MsgProcessingBatch (Z.of_nat i / batch_size args + 1)
                                    total (List.length (batch_at args coffees i)))
                        :: evs1))
      as (counters' & evs2 & Hmore & Hsizes & Hshape).
    exists counters'. eexists. rewrite Hmore, <- app_assoc. cbn [List.app].
    split; [reflexivity|]. split.
    + unfold announced_sizes in *. cbn [flat_map announced_size List.app batches map].
      rewrite flat_map_app.
      fold (announced_sizes evs1). rewrite (announced_sizes_steady Hst).
      cbn [List.app]. f_equal. exact Hsizes.
    + intros rest Hrest. destruct (Hshape rest Hrest) as (Hquiet & Hbatches).
      cbn [List.app visited_in_batch batches_run opens_batch batches map].
      split; [reflexivity|].
      rewrite <- app_assoc, visited_in_batch_app, batches_run_app by exact Hst.
      rewrite Hquiet, app_nil_r, Hv, Hbatches. reflexivity.
Qed.

(** The batch loop of [main]: what its trace shows are the slices of the
    work set. *)
Lemma process_batches_visits env args has_openai coffees tr starts :
  calm env ->
  range0 (List.length coffees) (batch_size args) = Ret starts ->
  exists counters evs,
    process_batches env args has_openai coffees tr = (Ret counters, tr ++ evs)
    /\ batches_run evs = map (map id) (batches args coffees starts)
    /\ announced_sizes evs = map (@List.length Coffee) (batches args coffees starts).
Proof.
  intros Hcalm Hrange.
  unfold process_batches. cbv zeta. rewrite Hrange.
  assert (exists evs0,
             (forall (k : unit -> M (nat * nat)),
                bind (log INFO (MsgStartingUpdate (batch_size args)))
                  (fun _ => bind (if dry_run args then log INFO MsgDryRunMode else ret tt) k) tr
                = k tt (tr ++ evs0))
             /\ Forall steady evs0) as (evs0 & Hpre & Hst0).
  { destruct (dry_run args); eexists; (split; [intros k; run_monad;
      rewrite <- ?app_assoc; reflexivity|]); repeat constructor. }
  rewrite Hpre. unfold bind at 1, lift at 1.
  destruct (for_each_batch_visits args has_openai coffees starts Hcalm (0, 0)%nat
              (tr ++ evs0))
    as (counters & evs & Hrun & Hsizes & Hshape).
  unfold bind at 1. rewrite Hrun. run_monad.
  eexists _, _. rewrite <- !app_assoc. split; [reflexivity|].
  destruct (Hshape [Log INFO MsgComplete;
                    Log INFO (MsgFinalResults (fst counters) (snd counters))]
                   eq_refl) as (_ & Hbatches).
  split.
  - rewrite batches_run_app by exact Hst0.
    refine (eq_trans Hbatches _). cbn. apply app_nil_r.
  - unfold announced_sizes in *. rewrite !flat_map_app.
    fold (announced_sizes evs0). rewrite (announced_sizes_steady Hst0), Hsizes.
    cbn. apply app_nil_r.
Qed.

(** C7: for every work set and every positive [batch_size], the run of
    the batch loop shows a partition of the work set: the records visited
    between one "Processing batch" line and the next are consecutive
    pieces of the work set which, glued together, give it back; every
    piece but the last has [batch_size] records, the last has between 1
    and [batch_size]; each line announces the size of its piece; the run
    visits every record once, in order.  13 records with [batch_size] 5
    are run as batches of 5, 5 and 3. *)
Theorem work_set_partitioned_into_batches env args has_openai coffees tr :
  (0 < batch_size args)%Z ->
  calm env ->
  exists counters evs run,
    process_batches env args has_openai coffees tr = (Ret counters, tr ++ evs)
    /\ batches_run evs = map (map id) run
    /\ announced_sizes evs = map (@List.length Coffee) run
    /\ List.concat run = coffees
    /\ (coffees <> [] ->
        exists full last_batch,
          run = full ++ [last_batch]
          /\ Forall (fun b => List.length b = Z.to_nat (batch_size args)) full
          /\ (0 < List.length last_batch <= Z.to_nat (batch_size args))%nat)
    /\ (coffees = [] -> run = [])
    /\ (List.length coffees = 13%nat -> batch_size args = 5%Z ->
        map (@List.length string) (batches_run evs) = [5; 5; 3]%nat)
    /\ visited evs = map id coffees.
Proof.
  intros Hpos Hcalm.
  pose proof (range0_positive (List.length coffees) Hpos) as Hrange.
  destruct (process_batches_visits args has_openai coffees tr Hcalm Hrange)
    as (counters & evs & Hrun & Hbatches & Hsizes).
  exists counters, evs. eexists.
  split; [exact Hrun|]. split; [exact Hbatches|]. split; [exact Hsizes|].
  split; [apply batches_concat; assumption|].
  split; [intros Hne; apply batches_sizes; assumption|].
  split; [intros ->; cbn [List.length Nat.add];
          rewrite Nat.div_small by lia; reflexivity|].
  split.
  - intros H13 H5. rewrite Hbatches, map_map.
    rewrite (map_ext _ (@List.length Coffee)) by (intros b; apply length_map).
    rewrite H13, H5.
    change (map _ (seq 0 _)) with [0; 5; 10]%nat.
    unfold batches. cbn [map]. rewrite !batch_at_length, H13, H5. reflexivity.
  - destruct (process_batches_judged args has_openai coffees tr Hcalm Hpos)
      as (counters' & tr' & Hrun' & Hag).
    rewrite Hrun in Hrun'. injection Hrun' as _ <-.
    apply visited_account in Hag. rewrite visited_app in Hag.
    now apply app_inv_head in Hag.
Qed.

Lemma work_set_partitioned_into_batches_witness :
  (0 < batch_size paced_args)%Z
  /\ calm (sample_env [guji; huila; decaf] [] service_down)
  /\ exists counters evs,
       process_batches (sample_env [guji; huila; decaf] [] service_down)
         paced_args true [guji; huila; decaf] [] = (Ret counters, [] ++ evs)
       /\ batches_run evs = [["c-001"; "c-002"]; ["c-003"]]%string.
Proof.
  split; [reflexivity|].
  split; [apply sample_env_calm, service_down_is_Exception|].
  destruct (@work_set_partitioned_into_batches
              (sample_env [guji; huila; decaf] [] service_down)
              paced_args true [guji; huila; decaf] [])
    as (counters & evs & run & Hrun & Hbatches & _).
  - reflexivity.
  - apply sample_env_calm, service_down_is_Exception.
  - exists counters, evs. split; [exact Hrun|].
    assert (snd (process_batches (sample_env [guji; huila; decaf] [] service_down)
                   paced_args true [guji; huila; decaf] []) = evs) as <-
        by (now rewrite Hrun).
    vm_compute. reflexivity.
Defined.

(** C10: the counters of the runner start at 0 (a run over no record
    returns [(0, 0)]); every record of the work set gets exactly one
    verdict, [updated] is the number of records whose verdict is a success
    and [failed] the number of the others, so each record adds one to
    exactly one counter; at the end [updated + failed] is the number of
    records of the work set. *)
Theorem counters_account_for_every_record env args has_openai coffees tr :
  calm env ->
  (0 < batch_size args)%Z ->
  (exists tr', process_batches env args has_openai [] tr = (Ret (0, 0)%nat, tr'))
  /\ exists updated failed tr',
       process_batches env args has_openai coffees tr = (Ret (updated, failed), tr')
       /\ map fst (verdicts (judge_all env has_openai (dry_run args) coffees (start_of tr)))
          = coffees
       /\ updated
          = count_updated (judge_all env has_openai (dry_run args) coffees (start_of tr))
       /\ failed
          = count_failed (judge_all env has_openai (dry_run args) coffees (start_of tr))
       /\ (updated + failed = List.length coffees)%nat.
Proof.
  intros Hcalm Hpos. split.
  - destruct (process_batches_judged args has_openai [] tr Hcalm Hpos)
      as ([u f] & tr' & Hrun & (Hu & Hf & _)).
    exists tr'. rewrite Hrun. simpl in Hu, Hf. now subst.
  - destruct (process_batches_judged args has_openai coffees tr Hcalm Hpos)
      as ([u f] & tr' & Hrun & (Hu & Hf & _)).
    simpl in Hu, Hf.
    pose proof (judge_all_verdicts env has_openai (dry_run args) coffees (start_of tr))
      as Hv. simpl in Hv.
    exists u, f, tr'. repeat split; try assumption.
    rewrite Hu, Hf, counts_cover, <- (length_map fst), Hv. reflexivity.
Qed.

Lemma counters_account_for_every_record_witness :
  calm (sample_env [guji; huila; decaf] [] service_up)
  /\ (0 < batch_size default_args)%Z
  /\ exists updated failed tr',
       process_batches (sample_env [guji; huila; decaf] [] service_up)
         default_args true [guji; huila; decaf] [] = (Ret (updated, failed), tr')
       /\ (updated + failed = 3)%nat.
Proof.
  assert (calm (sample_env [guji; huila; decaf] [] service_up)) as Hcalm.
  { apply sample_env_calm. intros k e H. discriminate H. }
  split; [exact Hcalm|]. split; [reflexivity|].
  destruct (@counters_account_for_every_record
              (sample_env [guji; huila; decaf] [] service_up)
              default_args true [guji; huila; decaf] [] Hcalm)
    as (_ & u & f & tr' & Hrun & _ & _ & _ & Hsum).
  - reflexivity.
  - exists u, f, tr'. split; assumption.
Defined.

(** *** Dry run against live run, in the account *)

Lemma judge_dry_live env has_openai pd pl c :
  openai_calls pd = openai_calls pl ->
  fallback_calls pd = fallback_calls pl ->
  openai_calls (judge env has_openai true pd c)
  = openai_calls (judge env has_openai false pl c)
  /\ fallback_calls (judge env has_openai true pd c)
     = fallback_calls (judge env has_openai false pl c)
  /\ rpc_calls (judge env has_openai true pd c) = rpc_calls pd
  /\ (count_updated (judge env has_openai false pl c) + count_updated pd
      <= count_updated (judge env has_openai true pd c) + count_updated pl)%nat
  /\ ((forall k, rpc_update_coffee_flavor_vector env k = Data JTrue) ->
      (count_updated (judge env has_openai false pl c) + count_updated pd
       = count_updated (judge env has_openai true pd c) + count_updated pl)%nat)
  /\ (Forall (fun cv => snd cv <> WriteFailed) (verdicts pd) ->
      Forall (fun cv => snd cv <> WriteFailed)
             (verdicts (judge env has_openai true pd c))).
Proof.
  intros Ho Hf.
  unfold judge, judge_one, write_verdict, count_updated. cbn [verdicts openai_calls fallback_calls rpc_calls].
  rewrite !filter_app, !length_app, Ho, Hf.
  destruct (no_tags (flavor_tags c)); [|destruct has_openai].
  - cbn. repeat split; try lia. intros H. apply Forall_app. split; [exact H|].
    repeat constructor. discriminate.
  - destruct (environ_OPENAI_API_KEY env) as [key|];
      [destruct (embeddings_create env (openai_calls pl)) as [e|embedding]|].
    + cbn. repeat split; try lia. intros H. apply Forall_app. split; [exact H|].
      repeat constructor. discriminate.
    + destruct (List.length embedding =? VECTOR_DIMENSIONS)%nat.
      * destruct (rpc_update_coffee_flavor_vector env (rpc_calls pl)) as [e|[ | | ]] eqn:Hw;
          cbn; repeat split; try lia;
          try (intros Hall; rewrite Hall in Hw; discriminate Hw);
          intros H; apply Forall_app; (split; [exact H|]);
          repeat constructor; discriminate.
      * cbn. repeat split; try lia. intros H. apply Forall_app. split; [exact H|].
        repeat constructor. discriminate.
    + cbn. repeat split; try lia. intros H. apply Forall_app. split; [exact H|].
      repeat constructor. discriminate.
  - destruct (rpc_update_coffee_flavor_vector env (rpc_calls pl)) as [e|[ | | ]] eqn:Hw;
      cbn; repeat split; try lia;
      try (intros Hall; rewrite Hall in Hw; discriminate Hw);
      intros H; apply Forall_app; (split; [exact H|]);
      repeat constructor; discriminate.
Qed.

Lemma judge_all_dry_live env has_openai coffees : forall pd pl,
  openai_calls pd = openai_calls pl ->
  fallback_calls pd = fallback_calls pl ->
  openai_calls (judge_all env has_openai true coffees pd)
  = openai_calls (judge_all env has_openai false coffees pl)
  /\ fallback_calls (judge_all env has_openai true coffees pd)
     = fallback_calls (judge_all env has_openai false coffees pl)
  /\ rpc_calls (judge_all env has_openai true coffees pd) = rpc_calls pd
  /\ (count_updated (judge_all env has_openai false coffees pl) + count_updated pd
      <= count_updated (judge_all env has_openai true coffees pd) + count_updated pl)%nat
  /\ ((forall k, rpc_update_coffee_flavor_vector env k = Data JTrue) ->
      (count_updated (judge_all env has_openai false coffees pl) + count_updated pd
       = count_updated (judge_all env has_openai true coffees pd) + count_updated pl)%nat)
  /\ (Forall (fun cv => snd cv <> WriteFailed) (verdicts pd) ->
      Forall (fun cv => snd cv <> WriteFailed)
             (verdicts (judge_all env has_openai true coffees pd))).
Proof.
  induction coffees as [|c rest IH]; intros pd pl Ho Hf.
  - cbn. repeat split; try lia. trivial.
  - cbn [judge_all fold_left].
    fold (judge_all env has_openai true rest (judge env has_openai true pd c)).
    fold (judge_all env has_openai false rest (judge env has_openai false pl c)).
    destruct (judge_dry_live env has_openai pd pl c Ho Hf)
      as (So & Sf & Sr & Sle & Seq & Sw).
    destruct (IH _ _ So Sf) as (Io & If & Ir & Ile & Ieq & Iw).
    repeat split; try congruence; try lia.
    + intros Hall. specialize (Seq Hall). specialize (Ieq Hall). lia.
    + intros H. apply Iw, Sw, H.
Qed.

(** C4, counterexample: on one record whose vector is generated and whose
    write the RPC refuses, the dry run ends with [updated] 1 and the live
    run with [updated] 0. *)
Lemma dry_run_count_differs_from_live_run :
  fst (process_batches (refusing_env [guji] [] service_up) dry_run_args true [guji] [])
  = Ret (1, 0)%nat
  /\ fst (process_batches (refusing_env [guji] [] service_up) default_args true [guji] [])
     = Ret (0, 1)%nat.
Proof. split; vm_compute; reflexivity. Qed.

(** C4, amended: a dry run issues no update RPC call; it runs the
    generation step as the live run does (the same numbers of generator
    calls) and counts every record whose vector is generated (no record
    fails on the write).  Its [updated] count is at least that of a live
    run on the same work set with the same answers of the generator, and
    equal to it when every write of the live run succeeds. *)
Theorem dry_run_against_live_run env dry_args live_args has_openai coffees tr :
  calm env ->
  (0 < batch_size dry_args)%Z ->
  (0 < batch_size live_args)%Z ->
  dry_run dry_args = true ->
  dry_run live_args = false ->
  exists dry_updated dry_failed dry_trace live_updated live_failed live_trace,
    process_batches env dry_args has_openai coffees tr
    = (Ret (dry_updated, dry_failed), dry_trace)
    /\ process_batches env live_args has_openai coffees tr
       = (Ret (live_updated, live_failed), live_trace)
    /\ count is_RpcUpdate dry_trace = count is_RpcUpdate tr
    /\ count is_CallOpenAI dry_trace = count is_CallOpenAI live_trace
    /\ count is_CallFallback dry_trace = count is_CallFallback live_trace
    /\ dry_updated = count_updated (judge_all env has_openai true coffees (start_of tr))
    /\ Forall (fun cv => snd cv <> WriteFailed)
              (verdicts (judge_all env has_openai true coffees (start_of tr)))
    /\ (live_updated <= dry_updated)%nat
    /\ ((forall k, rpc_update_coffee_flavor_vector env k = Data JTrue) ->
        live_updated = dry_updated).
Proof.
  intros Hcalm Hd Hl Hdry Hlive.
  destruct (process_batches_judged dry_args has_openai coffees tr Hcalm Hd)
    as ([ud fd] & trd & Hrund & (Hud & _ & Hod & Hfd & Hrd & _)).
  destruct (process_batches_judged live_args has_openai coffees tr Hcalm Hl)
    as ([ul fl] & trl & Hrunl & (Hul & _ & Hol & Hfl & _ & _)).
  rewrite Hdry in *. rewrite Hlive in *. simpl in Hud, Hul.
  destruct (judge_all_dry_live env has_openai coffees (start_of tr) (start_of tr)
              eq_refl eq_refl) as (Jo & Jf & Jr & Jle & Jeq & Jw).
  exists ud, fd, trd, ul, fl, trl.
  split; [exact Hrund|]. split; [exact Hrunl|].
  split; [rewrite Hrd, Jr; reflexivity|].
  split; [congruence|]. split; [congruence|].
  split; [exact Hud|].
  split; [apply Jw; constructor|].
  split; [lia|].
  intros Hall. specialize (Jeq Hall). lia.
Qed.

Lemma dry_run_against_live_run_witness :
  calm (refusing_env [guji; huila; decaf] [] service_up)
  /\ (0 < batch_size dry_run_args)%Z
  /\ (0 < batch_size default_args)%Z
  /\ dry_run dry_run_args = true
  /\ dry_run default_args = false
  /\ exists dry_updated dry_failed dry_trace live_updated live_failed live_trace,
       process_batches (refusing_env [guji; huila; decaf] [] service_up)
         dry_run_args true [guji; huila; decaf] []
       = (Ret (dry_updated, dry_failed), dry_trace)
       /\ process_batches (refusing_env [guji; huila; decaf] [] service_up)
            default_args true [guji; huila; decaf] []
          = (Ret (live_updated, live_failed), live_trace)
       /\ count is_RpcUpdate dry_trace = count is_RpcUpdate []
       /\ (live_updated <= dry_updated)%nat.
Proof.
  assert (calm (refusing_env [guji; huila; decaf] [] service_up)) as Hcalm.
  { split; [|split]; [intros k e H; discriminate H|intros k e H; discriminate H|reflexivity]. }
  split; [exact Hcalm|]. repeat (split; [reflexivity|]).
  destruct (@dry_run_against_live_run
              (refusing_env [guji; huila; decaf] [] service_up)
              dry_run_args default_args true [guji; huila; decaf] [] Hcalm)
    as (ud & fd & trd & ul & fl & trl & H1 & H2 & H3 & _ & _ & _ & _ & H4 & _);
    try reflexivity.
  exists ud, fd, trd, ul, fl, trl. repeat split; assumption.
Defined.

(** C5: whatever the work set and whatever the pattern of per-record
    errors (empty [flavor_tags], a vector of the wrong dimension, a failure
    of the embedding service or of its client, a failed write), the run
    goes through every
    record, in order, and returns; a record that meets an error adds one to
    [failed] and nothing to [updated].  A record with empty [flavor_tags]
    has the verdict [EmptyTags]: [update_coffee_embedding] returns [False]
    for it without calling either generator. *)
Theorem per_record_errors_are_isolated env args has_openai coffees tr :
  calm env ->
  (0 < batch_size args)%Z ->
  (exists updated failed tr',
     process_batches env args has_openai coffees tr = (Ret (updated, failed), tr')
     /\ visited tr' = visited tr ++ map id coffees
     /\ map fst (verdicts (judge_all env has_openai (dry_run args) coffees (start_of tr)))
        = coffees
     /\ failed
        = List.length
            (filter (fun cv => negb (succeeded (snd cv)))
               (verdicts (judge_all env has_openai (dry_run args) coffees (start_of tr))))
     /\ updated
        = List.length
            (filter (fun cv => succeeded (snd cv))
               (verdicts (judge_all env has_openai (dry_run args) coffees (start_of tr)))))
  /\ (forall c n_openai n_rpc,
        no_tags (flavor_tags c) = true ->
        judge_one env has_openai (dry_run args) c n_openai n_rpc
        = (EmptyTags, n_openai, n_rpc))
  /\ (forall c n_openai n_rpc,
        no_tags (flavor_tags c) = false ->
        environ_OPENAI_API_KEY env = None
        \/ (exists e, embeddings_create env n_openai = Fails e) ->
        judge_one env true (dry_run args) c n_openai n_rpc
        = (TransportFailure, S n_openai, n_rpc))
  /\ (forall c n_openai n_rpc key embedding,
        no_tags (flavor_tags c) = false ->
        environ_OPENAI_API_KEY env = Some key ->
        embeddings_create env n_openai = Data embedding ->
        List.length embedding <> VECTOR_DIMENSIONS ->
        judge_one env true (dry_run args) c n_openai n_rpc
        = (DimensionMismatch, S n_openai, n_rpc))
  /\ (forall dry n_rpc,
        fst (write_verdict env dry n_rpc) = WriteFailed <->
        dry = false /\ rpc_update_coffee_flavor_vector env n_rpc <> Data JTrue)
  /\ (forall c any_openai any_dry_run tr1,
        no_tags (flavor_tags c) = true ->
        exists tr2,
          update_coffee_embedding env c any_openai any_dry_run tr1 = (Ret false, tr2)
          /\ count is_CallOpenAI tr2 = count is_CallOpenAI tr1
          /\ count is_CallFallback tr2 = count is_CallFallback tr1).
Proof.
  intros Hcalm Hpos.
  split; [|split; [|split; [|split; [|split]]]].
  - destruct (process_batches_judged args has_openai coffees tr Hcalm Hpos)
      as ([u f] & tr' & Hrun & Hag).
    exists u, f, tr'. split; [exact Hrun|].
    split; [eapply visited_account, Hag|].
    split; [apply (judge_all_verdicts env has_openai (dry_run args) coffees (start_of tr))|].
    destruct Hag as (Hu & Hf & _). split; assumption.
  - intros c n_openai n_rpc Hno. unfold judge_one. now rewrite Hno.
  - intros c n_openai n_rpc Hno He. unfold judge_one. rewrite Hno.
    destruct (environ_OPENAI_API_KEY env) as [key|]; [|reflexivity].
    destruct He as [He|(e & He)]; [discriminate He|]. now rewrite He.
  - intros c n_openai n_rpc key embedding Hno Hkey He Hlen. unfold judge_one.
    rewrite Hno, Hkey, He. apply Nat.eqb_neq in Hlen. now rewrite Hlen.
  - intros dry n_rpc. unfold write_verdict.
    destruct dry; [split; [discriminate|intros [H _]; discriminate H]|].
    destruct (rpc_update_coffee_flavor_vector env n_rpc) as [e|[ | | ]]; simpl;
      split; try discriminate; try (intros [_ H]; congruence);
      intros _; (split; [reflexivity|discriminate]).
  - intros c any_openai any_dry_run tr1 Hno.
    rewrite (update_coffee_embedding_no_tags env c any_openai any_dry_run tr1 Hno).
    eexists. split; [reflexivity|].
    split; apply count_snoc_log; reflexivity.
Qed.

Lemma per_record_errors_are_isolated_witness :
  calm (refusing_env [guji; huila; decaf] [] service_down)
  /\ (0 < batch_size default_args)%Z
  /\ exists updated failed tr',
       process_batches (refusing_env [guji; huila; decaf] [] service_down)
         default_args true [guji; huila; decaf] [] = (Ret (updated, failed), tr')
       /\ visited tr' = visited [] ++ map id [guji; huila; decaf].
Proof.
  assert (calm (refusing_env [guji; huila; decaf] [] service_down)) as Hcalm.
  { split; [|split]; [apply service_down_is_Exception|intros k e H; discriminate H|reflexivity]. }
  split; [exact Hcalm|]. split; [reflexivity|].
  destruct (@per_record_errors_are_isolated
              (refusing_env [guji; huila; decaf] [] service_down)
              default_args true [guji; huila; decaf] [] Hcalm)
    as ((u & f & tr' & Hrun & Hvis & _) & _); [reflexivity|].
  exists u, f, tr'. split; assumption.
Defined.

(* ================================================================== *)
(** ** Facts about the exit status *)
(* ================================================================== *)

Lemma needs_update_outcome last coffee :
  (exists b, needs_update last coffee = Ret b)
  \/ needs_update last coffee = Raise TypeError.
Proof.
  unfold needs_update.
  destruct (or_str (updated_at coffee) (created_at coffee)) as [cu|]; [|eauto].
  destruct (truthy_str (Some cu)); [|eauto].
  destruct last as [t|]; [|now right].
  destruct (str_gt cu t); eauto.
Qed.

Lemma filter_need_update_outcome last coffees : forall need_update,
  (exists l, filter_need_update last coffees need_update = Ret l)
  \/ filter_need_update last coffees need_update = Raise TypeError.
Proof.
  induction coffees as [|coffee rest IH]; intros acc; simpl.
  - eauto.
  - destruct (needs_update_outcome last coffee) as [[b ->]| ->]; [|now right].
    destruct b; apply IH.
Qed.

(** Unless Ctrl-C arrives, [get_coffee_data] returns a list: every failure
    of the gateway ends in its [except Exception] clauses. *)
Lemma get_coffee_data_returns env force_all tr :
  (forall e, select_coffees env = Fails e -> is_Exception e = true) ->
  (forall e, select_update_logs env = Fails e -> is_Exception e = true) ->
  exists work_set tr', get_coffee_data env force_all tr = (Ret work_set, tr').
Proof.
  intros Hc Hl. run_script.
  destruct (select_coffees env) as [e|coffees] eqn:Hsc.
  - rewrite (Hc e eq_refl). eexists _, _. reflexivity.
  - destruct coffees as [|c rest]; [eexists _, _; reflexivity|].
    run_script. destruct force_all; [eexists _, _; reflexivity|].
    run_script. destruct (select_update_logs env) as [e|logs] eqn:Hsl.
    + rewrite (Hl e eq_refl). eexists _, _. reflexivity.
    + destruct logs as [|row logs]; [eexists _, _; reflexivity|].
      run_script.
      destruct (filter_need_update_outcome (log_created_at row) (c :: rest) [])
        as [[l ->]| ->]; eexists _, _; reflexivity.
Qed.

(** A failed fetch of the catalog gives an empty work set. *)
Lemma get_coffee_data_fetch_failure env force_all tr e :
  select_coffees env = Fails e ->
  is_Exception e = true ->
  get_coffee_data env force_all tr
  = (Ret [], tr ++ [SelectCoffees; Log ERROR (MsgErrorFetching e)]).
Proof.
  intros Hc He. run_script. rewrite Hc, He. now rewrite <- app_assoc.
Qed.

Lemma credentials_present_cases env args :
  (if negb (truthy_str (or_str (supabase_url args) (environ_SUPABASE_URL env)))
      || negb (truthy_str (or_str (supabase_key args) (environ_SUPABASE_KEY env)))
   then false else true) = credentials_present env args.
Proof.
  unfold credentials_present.
  destruct (truthy_str (or_str (supabase_url args) (environ_SUPABASE_URL env)));
    destruct (truthy_str (or_str (supabase_key args) (environ_SUPABASE_KEY env)));
    reflexivity.
Qed.

Lemma initialize_clients_missing_credentials env args tr :
  credentials_present env args = false ->
  initialize_clients env args tr
  = (Raise (SystemExit 1), tr ++ [Log ERROR MsgCredentialsRequired]).
Proof.
  intros H. rewrite <- credentials_present_cases in H.
  unfold initialize_clients.
  destruct (negb (truthy_str (or_str (supabase_url args) (environ_SUPABASE_URL env)))
            || negb (truthy_str (or_str (supabase_key args) (environ_SUPABASE_KEY env))));
    [reflexivity|discriminate H].
Qed.

Lemma initialize_clients_ok env args tr :
  credentials_present env args = true ->
  create_client env = Data tt ->
  exists has_openai tr', initialize_clients env args tr = (Ret has_openai, tr').
Proof.
  intros H Hclient. rewrite <- credentials_present_cases in H.
  unfold initialize_clients.
  destruct (negb (truthy_str (or_str (supabase_url args) (environ_SUPABASE_URL env)))
            || negb (truthy_str (or_str (supabase_key args) (environ_SUPABASE_KEY env))));
    [discriminate H|].
  run_script. rewrite Hclient.
  destruct (truthy_str (or_str (openai_key args) (environ_OPENAI_API_KEY env)));
    eexists _, _; reflexivity.
Qed.

Lemma initialize_clients_no_client env args tr e :
  credentials_present env args = true ->
  create_client env = Fails e ->
  is_Exception e = true ->
  exists tr', initialize_clients env args tr = (Raise (SystemExit 1), tr').
Proof.
  intros H Hclient He. rewrite <- credentials_present_cases in H.
  unfold initialize_clients.
  destruct (negb (truthy_str (or_str (supabase_url args) (environ_SUPABASE_URL env)))
            || negb (truthy_str (or_str (supabase_key args) (environ_SUPABASE_KEY env))));
    [discriminate H|].
  run_script. rewrite Hclient, He.
  destruct (truthy_str (or_str (openai_key args) (environ_OPENAI_API_KEY env)));
    eexists; reflexivity.
Qed.

Lemma bind_ret A B (a : A) (k : A -> M B) tr : bind (ret a) k tr = k a tr.
Proof. reflexivity. Qed.

(** [main] past [get_args], on a command line that argparse accepts. *)
Ltac enter_main :=
  unfold main, get_args; rewrite bind_ret; cbv beta.

(** What the [__main__] guard makes of the outcome of [main]. *)
Lemma script_of_main env argv o tr :
  main env argv [] = (o, tr) ->
  script env argv =
  match o with
  | Ret _ => (Some 0%Z, tr)
  | Raise KeyboardInterrupt => (Some 1%Z, tr ++ [Log INFO MsgInterrupted])
  | Raise (SystemExit code) => (Some code, tr)
  | Raise e => (Some 1%Z, tr ++ [Log ERROR (MsgUnhandled e)])
  | Diverge => (None, tr)
  end.
Proof. intros H. unfold script. rewrite H. reflexivity. Qed.

(** With credentials, a gateway client and nobody pressing Ctrl-C, [main]
    returns. *)
Lemma main_returns env args :
  credentials_present env args = true ->
  create_client env = Data tt ->
  undisturbed env ->
  (0 < batch_size args)%Z ->
  exists r tr, main env (Parsed args) [] = (Ret r, tr).
Proof.
  intros Hcred Hclient (Hcalm & Hc & Hl & (answer & Hin)) Hpos.
  enter_main. unfold bind at 1, log at 1, emit at 1.
  destruct (initialize_clients_ok env args ([] ++ [Log INFO MsgStarting]) Hcred Hclient)
    as (has_openai & tr1 & Hinit).
  unfold bind at 1. rewrite Hinit.
  destruct (get_coffee_data_returns env (force_all args) tr1 Hc Hl)
    as (work_set & tr2 & Hget).
  unfold bind at 1. rewrite Hget.
  destruct work_set as [|c rest]; [eexists _, _; reflexivity|].
  assert (exists (proceed : bool) tr3,
    (if negb has_openai && negb (force_all args) then
       bind (log WARNING MsgNoOpenAIButUpdating)
         (fun _ => bind (py_input env "Continue with fallback embeddings? [y/N]: "%string)
            (fun user_input =>
               if negb (String.eqb (lower user_input) "y"%string)
               then bind (log INFO MsgCancelledByUser) (fun _ => ret false)
               else ret true))
     else ret true) tr2 = (Ret proceed, tr3)) as (proceed & tr3 & Hprompt).
  { destruct (negb has_openai && negb (force_all args)); [|eexists _, _; reflexivity].
    run_script. rewrite Hin.
    destruct (String.eqb (lower answer) "y"%string); eexists _, _; reflexivity. }
  unfold bind at 1. rewrite Hprompt.
  destruct proceed; [|eexists _, _; reflexivity].
  destruct (process_batches_judged args has_openai (c :: rest) tr3 Hcalm Hpos)
    as (counters & tr4 & Hrun & _).
  unfold bind at 1. rewrite Hrun. eexists _, _. reflexivity.
Qed.

(** C6, counterexample: a run cancelled by Ctrl-C during a pacing sleep
    and a run that dies of an unhandled exception ([--batch-size 0] makes
    [range] raise [ValueError]) both exit with status 1, so the status
    does not tell cancellation from failure; only the last log line does.
    Moreover a gateway that cannot be reached when the catalog is fetched,
    and a user who declines at the prompt, both give exit status 0. *)
Lemma cancellation_exit_status_not_distinct :
  fst (script (ctrl_c_env [guji; huila]) (Parsed default_args)) = Some 1%Z
  /\ last (snd (script (ctrl_c_env [guji; huila]) (Parsed default_args))) CreateClient
     = Log INFO MsgInterrupted
  /\ fst (script (sample_env [guji; huila] [] service_down) (Parsed zero_batch_args)) = Some 1%Z
  /\ last (snd (script (sample_env [guji; huila] [] service_down) (Parsed zero_batch_args)))
          CreateClient
     = Log ERROR (MsgUnhandled ValueError)
  /\ fst (script unreachable_env (Parsed default_args)) = Some 0%Z
  /\ script (declining_env [guji]) (Parsed default_args)
     = (Some 0%Z,
        [Log INFO MsgStarting; Log WARNING MsgNoOpenAIKey; CreateClient;
         Log INFO MsgSupabaseInitialized; SelectCoffees;
         Log INFO (MsgFoundTotal 1); SelectUpdateLogs;
         Log INFO MsgNoPreviousUpdates; Log WARNING MsgNoOpenAIButUpdating;
         Input "Continue with fallback embeddings? [y/N]: ";
         Log INFO MsgCancelledByUser]).
Proof. repeat split; vm_compute; reflexivity. Qed.

(** C6, amended: the process exits with status 0 whenever [main] returns:
    on every run that completes, even when records failed, and also when
    the catalog could not be fetched (the error is logged and the work set
    is empty).  It exits with status 1 when the Supabase credentials are
    missing, when the gateway client cannot be created, on Ctrl-C
    ([KeyboardInterrupt]) and on any other unhandled exception;
    cancellation and unhandled failure share the status 1 and differ in
    the last log line only. *)
Theorem exit_status_of_the_script env args :
  (credentials_present env args = true ->
   create_client env = Data tt ->
   undisturbed env ->
   (0 < batch_size args)%Z ->
   fst (script env (Parsed args)) = Some 0%Z)
  /\ (credentials_present env args = true ->
      create_client env = Data tt ->
      forall e, select_coffees env = Fails e -> is_Exception e = true ->
      fst (script env (Parsed args)) = Some 0%Z)
  /\ (credentials_present env args = false ->
      fst (script env (Parsed args)) = Some 1%Z)
  /\ (credentials_present env args = true ->
      forall e, create_client env = Fails e -> is_Exception e = true ->
      fst (script env (Parsed args)) = Some 1%Z)
  /\ (forall tr, main env (Parsed args) [] = (Raise KeyboardInterrupt, tr) ->
      script env (Parsed args) = (Some 1%Z, tr ++ [Log INFO MsgInterrupted]))
  /\ (forall e tr, is_Exception e = true ->
      main env (Parsed args) [] = (Raise e, tr) ->
      script env (Parsed args) = (Some 1%Z, tr ++ [Log ERROR (MsgUnhandled e)])).
Proof.
  split; [|split; [|split; [|split; [|split]]]].
  - intros Hcred Hclient Hund Hpos.
    destruct (@main_returns env args Hcred Hclient Hund Hpos) as (r & tr & Hmain).
    now rewrite (@script_of_main env (Parsed args) _ _ Hmain).
  - intros Hcred Hclient e Hfetch He.
    destruct (@initialize_clients_ok env args ([] ++ [Log INFO MsgStarting]) Hcred Hclient)
      as (has_openai & tr1 & Hinit).
    unfold script. enter_main. unfold bind at 1, log at 1, emit at 1.
    unfold bind at 1. rewrite Hinit.
    unfold bind at 1. rewrite (@get_coffee_data_fetch_failure env _ _ _ Hfetch He).
    reflexivity.
  - intros Hcred.
    unfold script. enter_main. unfold bind at 1, log at 1, emit at 1.
    unfold bind at 1.
    rewrite (@initialize_clients_missing_credentials env args _ Hcred). reflexivity.
  - intros Hcred e Hclient He.
    destruct (@initialize_clients_no_client env args ([] ++ [Log INFO MsgStarting])
                _ Hcred Hclient He) as (tr1 & Hinit).
    unfold script. enter_main. unfold bind at 1, log at 1, emit at 1.
    unfold bind at 1. rewrite Hinit. reflexivity.
  - intros tr Hmain. now rewrite (@script_of_main env (Parsed args) _ _ Hmain).
  - intros e tr He Hmain. rewrite (@script_of_main env (Parsed args) _ _ Hmain).
    destruct e; try reflexivity; discriminate He.
Qed.

Lemma exit_status_of_the_script_witness :
  credentials_present (sample_env [guji; huila; decaf] [] service_down) default_args = true
  /\ create_client (sample_env [guji; huila; decaf] [] service_down) = Data tt
  /\ undisturbed (sample_env [guji; huila; decaf] [] service_down)
  /\ (0 < batch_size default_args)%Z
  /\ fst (script (sample_env [guji; huila; decaf] [] service_down) (Parsed default_args)) = Some 0%Z
  /\ credentials_present bare_env default_args = false
  /\ fst (script bare_env (Parsed default_args)) = Some 1%Z.
Proof.
  assert (undisturbed (sample_env [guji; huila; decaf] [] service_down)) as Hund.
  { split; [apply sample_env_calm, service_down_is_Exception|].
    split; [intros e H; discriminate H|].
    split; [intros e H; discriminate H|].
    exists "y"%string. reflexivity. }
  split; [reflexivity|]. split; [reflexivity|]. split; [exact Hund|].
  split; [reflexivity|].
  split.
  - apply (proj1 (@exit_status_of_the_script
                    (sample_env [guji; huila; decaf] [] service_down) default_args));
      [reflexivity|reflexivity|exact Hund|reflexivity].
  - split; [reflexivity|].
    apply (proj1 (proj2 (proj2 (@exit_status_of_the_script bare_env default_args)))).
    reflexivity.
Defined.

(* ================================================================== *)
(** ** More about the fallback generator *)
(* ================================================================== *)

Section FallbackExpansion.
Local Open Scope R_scope.

Variable hash : string -> Z.

(** One pass of the inner loop appends the values of [vals], each times
    the factor of the position it lands on, up to [VECTOR_DIMENSIONS]. *)
Lemma extend_pass_formula vals : forall full_embedding,
  (List.length full_embedding < VECTOR_DIMENSIONS)%nat ->
  extend_pass hash vals full_embedding
  = full_embedding
    ++ map (fun j => nth j vals 0
                     * variation_factor hash (List.length full_embedding + j))
           (seq 0 (Nat.min (List.length vals)
                           (VECTOR_DIMENSIONS - List.length full_embedding))).
Proof.
  induction vals as [|val rest IH]; intros full Hlt.
  - cbn. now rewrite app_nil_r.
  - rewrite extend_pass_cons. cbv zeta.
    destruct (Nat.leb_spec VECTOR_DIMENSIONS
                (List.length (full ++ [val * variation_factor hash (List.length full)])))
      as [Hge|Hlt'].
    + rewrite length_app in Hge. cbn [List.length] in Hge.
      replace (Nat.min (List.length (val :: rest))
                       (VECTOR_DIMENSIONS - List.length full)) with 1%nat
        by (cbn [List.length]; lia).
      cbn [seq map nth]. now rewrite Nat.add_0_r.
    + rewrite (IH _ Hlt'). rewrite length_app in *. cbn [List.length] in *.
      replace (Nat.min (S (List.length rest)) (VECTOR_DIMENSIONS - List.length full))
        with (S (Nat.min (List.length rest)
                         (VECTOR_DIMENSIONS - (List.length full + 1)))) by lia.
      cbn [seq map nth]. rewrite <- seq_shift, map_map, Nat.add_0_r, <- app_assoc.
      cbn [List.app]. do 2 f_equal. apply map_ext. intros j.
      cbn [nth]. do 2 f_equal. lia.
Qed.

Lemma seq_from (n k : nat) : seq n k = map (Nat.add n) (seq 0 k).
Proof.
  revert n. induction k as [|k IH]; intros n; cbn [seq map].
  - reflexivity.
  - rewrite Nat.add_0_r. f_equal.
    rewrite (IH (S n)), (IH 1%nat), map_map. apply map_ext. intros j. lia.
Qed.

Lemma extend_pass_expanded normalized n :
  normalized <> [] ->
  (n < VECTOR_DIMENSIONS)%nat ->
  (n mod List.length normalized = 0)%nat ->
  extend_pass hash normalized (map (expanded hash normalized) (seq 0 n))
  = map (expanded hash normalized)
        (seq 0 (Nat.min (n + List.length normalized) VECTOR_DIMENSIONS)).
Proof.
  intros Hne Hlt Hmod.
  assert (List.length normalized <> 0)%nat as HL
      by (destruct normalized; [congruence|discriminate]).
  rewrite extend_pass_formula by (rewrite length_map, length_seq; exact Hlt).
  rewrite length_map, length_seq.
  replace (Nat.min (n + List.length normalized) VECTOR_DIMENSIONS)
    with (n + Nat.min (List.length normalized) (VECTOR_DIMENSIONS - n))%nat by lia.
  rewrite seq_app, map_app. f_equal. cbn [Nat.add].
  rewrite (seq_from n), map_map. apply map_ext_in. intros j Hj. apply in_seq in Hj.
  unfold expanded. do 2 f_equal.
  rewrite Nat.Div0.add_mod, Hmod, Nat.add_0_l, Nat.Div0.mod_mod by exact HL.
  symmetry. apply Nat.mod_small. lia.
Qed.

Lemma extend_loop_expanded normalized :
  normalized <> [] ->
  forall fuel n,
    (n <= VECTOR_DIMENSIONS)%nat ->
    (n = VECTOR_DIMENSIONS \/ n mod List.length normalized = 0)%nat ->
    (VECTOR_DIMENSIONS - n < fuel)%nat ->
    extend_loop hash fuel normalized (map (expanded hash normalized) (seq 0 n))
    = Ret (map (expanded hash normalized) (seq 0 VECTOR_DIMENSIONS)).
Proof.
  intros Hne.
  assert (List.length normalized <> 0)%nat as HL
      by (destruct normalized; [congruence|discriminate]).
  induction fuel as [|fuel IH]; intros n Hle Hshape Hfuel; [lia|].
  rewrite extend_loop_eq, length_map, length_seq.
  destruct (Nat.ltb_spec n VECTOR_DIMENSIONS) as [Hlt|Hge].
  - destruct Hshape as [->|Hmod]; [lia|].
    rewrite (extend_pass_expanded Hne Hlt Hmod).
    apply IH; [lia| |lia].
    destruct (Nat.le_gt_cases (n + List.length normalized) VECTOR_DIMENSIONS) as [H|H].
    + right. rewrite Nat.min_l by exact H.
      rewrite Nat.Div0.add_mod, Hmod, Nat.Div0.mod_same, Nat.add_0_l.
      apply Nat.Div0.mod_0_l.
    + left. lia.
  - replace n with VECTOR_DIMENSIONS by lia. reflexivity.
Qed.

End FallbackExpansion.

(** X1: the vector [generate_fallback_embedding] returns is the normalized
    five-component pattern repeated over 1536 positions: the component at
    position [i] is [normalized[i % 5] * (0.95 + (hash(str(i)) % 10) / 100)]. *)
Theorem generate_fallback_embedding_expansion (hash : string -> Z) (flavor_tags : list string) :
  generate_fallback_embedding hash flavor_tags
  = Ret (map (fun i => nth (i mod 5) (normalized_of flavor_tags) 0
                       * (0.95 + IZR (hash (str_of_nat i) mod 10) / 100))%R
             (seq 0 1536)).
Proof.
  pose proof (composite_ok flavor_tags) as Hok.
  pose proof (magnitude_pos Hok) as Hmag.
  assert (List.length (normalized_of flavor_tags) = 5%nat) as Hlen
      by (unfold normalized_of; rewrite length_map; apply Hok).
  assert (normalized_of flavor_tags <> []) as Hne
      by (intros E; rewrite E in Hlen; discriminate Hlen).
  unfold generate_fallback_embedding.
  rewrite list_comp_truediv by (apply Rgt_not_eq, Hmag).
  fold (normalized_of flavor_tags).
  change (@nil R) with (map (expanded hash (normalized_of flavor_tags)) (seq 0 0)).
  rewrite (extend_loop_expanded hash Hne); [| | |].
  - rewrite firstn_all2 by (rewrite length_map, length_seq; apply Nat.le_refl).
    f_equal. apply map_ext. intros i. unfold expanded, variation_factor.
    now rewrite Hlen.
  - apply Nat.le_0_l.
  - right. apply Nat.Div0.mod_0_l.
  - rewrite Nat.sub_0_r. apply Nat.lt_succ_diag_r.
Qed.

Section FallbackNorm.
Local Open Scope R_scope.

Lemma sum_from (l : list R) : forall a, fold_left Rplus l a = a + Py.sum l.
Proof.
  unfold Py.sum. induction l as [|x l IH]; intros a; cbn [fold_left].
  - lra.
  - rewrite (IH (a + x)), (IH (0 + x)). lra.
Qed.

Lemma sum_squares_scaled (m : R) (l : list R) :
  m <> 0 ->
  Py.sum (map (fun val => val ^ 2) (map (fun val => val / m) l))
  = Py.sum (map (fun val => val ^ 2) l) / m ^ 2.
Proof.
  intros Hm. unfold Py.sum at 1 2. induction l as [|x l IH]; cbn [map fold_left].
  - field. exact Hm.
  - rewrite (sum_from _ (0 + (x / m) ^ 2)), (sum_from _ (0 + x ^ 2)).
    unfold Py.sum. rewrite IH. field. exact Hm.
Qed.

Lemma sum_squares_cons (x : R) (l : list R) :
  Py.sum (map (fun val => val ^ 2) (x :: l))
  = x ^ 2 + Py.sum (map (fun val => val ^ 2) l).
Proof.
  unfold Py.sum at 1. cbn [map fold_left]. rewrite sum_from. lra.
Qed.

Lemma sum_squares_nonneg (l : list R) : 0 <= Py.sum (map (fun val => val ^ 2) l).
Proof. apply fold_squares_ge. Qed.

Lemma square_le_sum_squares (x : R) (l : list R) :
  In x l -> x ^ 2 <= Py.sum (map (fun val => val ^ 2) l).
Proof.
  induction l as [|y l IH]; intros Hin; [contradiction|].
  rewrite sum_squares_cons. destruct Hin as [->|Hin].
  - pose proof (sum_squares_nonneg l). lra.
  - specialize (IH Hin). pose proof (pow2_ge_0 y). lra.
Qed.

(** Every component of the normalized vector lies in (0, 1]. *)
Lemma normalized_components flavor_tags x :
  In x (normalized_of flavor_tags) -> 0 < x <= 1.
Proof.
  pose proof (composite_ok flavor_tags) as Hok.
  pose proof (magnitude_pos Hok) as Hmag.
  unfold normalized_of. intros Hin. apply in_map_iff in Hin.
  destruct Hin as (b & <- & Hb).
  destruct Hok as [_ Hpos]. rewrite Forall_forall in Hpos.
  pose proof (Hpos b Hb) as Hb01.
  pose proof (square_le_sum_squares b _ Hb) as Hsq.
  assert (b <= magnitude (composite flavor_tags)) as Hle.
  { unfold magnitude. rewrite <- (sqrt_pow2 b) by lra.
    apply sqrt_le_1; [apply pow2_ge_0|apply sum_squares_nonneg|exact Hsq]. }
  split.
  - apply Rdiv_lt_0_compat; lra.
  - apply (Rmult_le_reg_r (magnitude (composite flavor_tags))); [exact Hmag|].
    unfold Rdiv. rewrite Rmult_assoc, Rinv_l by lra. lra.
Qed.

(** X2: over the reals, the normalization step yields a vector of
    Euclidean norm 1, whatever the tags. *)
Theorem normalized_has_unit_norm (flavor_tags : list string) :
  list_comp (fun val => truediv val (magnitude (composite flavor_tags)))
            (composite flavor_tags)
  = Ret (normalized_of flavor_tags)
  /\ magnitude (normalized_of flavor_tags) = 1.
Proof.
  pose proof (composite_ok flavor_tags) as Hok.
  pose proof (magnitude_pos Hok) as Hmag.
  split; [apply list_comp_truediv; lra|].
  unfold magnitude at 1, normalized_of.
  rewrite sum_squares_scaled by lra.
  unfold magnitude. rewrite pow2_sqrt by apply sum_squares_nonneg.
  unfold magnitude in Hmag.
  assert (0 < Py.sum (map (fun val => val ^ 2) (composite flavor_tags))) as Hs.
  { destruct (Rle_lt_or_eq_dec _ _ (sum_squares_nonneg (composite flavor_tags)))
      as [H|H]; [exact H|].
    rewrite <- H, sqrt_0 in Hmag. lra. }
  unfold Rdiv. rewrite Rinv_r by lra. apply sqrt_1.
Qed.

(** X3: every component of the vector [generate_fallback_embedding]
    returns is strictly positive and below 1.05. *)
Theorem generate_fallback_embedding_components (hash : string -> Z) (flavor_tags : list string) :
  exists embedding,
    generate_fallback_embedding hash flavor_tags = Ret embedding
    /\ Forall (fun x => 0 < x < 1.05) embedding.
Proof.
  eexists. split; [apply generate_fallback_embedding_expansion|].
  rewrite Forall_forall. intros x Hx. apply in_map_iff in Hx.
  destruct Hx as (i & <- & _).
  assert (List.length (normalized_of flavor_tags) = 5%nat) as Hlen
      by (unfold normalized_of; rewrite length_map; apply composite_ok).
  assert (In (nth (i mod 5) (normalized_of flavor_tags) 0) (normalized_of flavor_tags))
    as Hin.
  { apply nth_In. rewrite Hlen. apply Nat.mod_upper_bound. discriminate. }
  pose proof (normalized_components _ _ Hin) as Hn.
  pose proof (Z.mod_pos_bound (hash (str_of_nat i)) 10 ltac:(lia)) as Hmod.
  assert (0 <= IZR (hash (str_of_nat i) mod 10) <= 9) as Hr.
  { split; [apply (IZR_le 0)|apply (IZR_le _ 9)]; lia. }
  split; nra.
Qed.

End FallbackNorm.

(* ================================================================== *)
(** ** What a run may do: composition rules *)
(* ================================================================== *)

Section Runs.
Context {A B : Type}.
Variable P : event -> Prop.
Variable E : exc -> Prop.

Lemma runs_ret (Q : A -> Prop) (a : A) : Q a -> runs P Q E (ret a).
Proof.
  intros H tr. exists []. rewrite app_nil_r. repeat split; [constructor|exact H].
Qed.

Lemma runs_raise (Q : A -> Prop) (e : exc) : E e -> runs P Q E (raise e).
Proof.
  intros H tr. exists []. rewrite app_nil_r. repeat split; [constructor|exact H].
Qed.

Lemma runs_lift (Q : A -> Prop) (o : outcome A) :
  match o with Ret a => Q a | Raise e => E e | Diverge => False end ->
  runs P Q E (lift o).
Proof.
  intros H tr. exists []. rewrite app_nil_r. repeat split; [constructor|exact H].
Qed.

Lemma runs_answer (Q : A -> Prop) (r : response A) :
  match r with Data d => Q d | Fails e => E e end ->
  runs P Q E (answer r).
Proof.
  intros H. destruct r; [apply runs_raise|apply runs_ret]; exact H.
Qed.

Lemma runs_bind (Q : A -> Prop) (Q' : B -> Prop) (m : M A) (k : A -> M B) :
  runs P Q E m ->
  (forall a, Q a -> runs P Q' E (k a)) ->
  runs P Q' E (bind m k).
Proof.
  intros Hm Hk tr. destruct (Hm tr) as (evs & Htr & HP & Hout).
  unfold bind. destruct (m tr) as [[a|e|] tr1]; cbn [fst snd] in *; subst tr1.
  - destruct (Hk a Hout (tr ++ evs)) as (evs2 & Htr2 & HP2 & Hout2).
    exists (evs ++ evs2). rewrite app_assoc, <- Htr2.
    repeat split; [apply Forall_app; split; assumption|exact Hout2].
  - exists evs. repeat split; assumption.
  - contradiction.
Qed.

Lemma runs_indexed {I} (Q : A -> Prop) (index : trace -> I) (m : I -> M A) :
  (forall i, runs P Q E (m i)) ->
  runs P Q E (fun tr => m (index tr) tr).
Proof. intros H tr. apply (H (index tr) tr). Qed.

End Runs.

Lemma runs_emit P (Q : unit -> Prop) E ev : P ev -> Q tt -> runs P Q E (emit ev).
Proof.
  intros HP HQ tr. exists [ev]. repeat split; [repeat constructor; exact HP|exact HQ].
Qed.

Lemma runs_log P E lvl m : P (Log lvl m) -> runs P (fun _ : unit => True) E (log lvl m).
Proof. intros H. apply runs_emit; [exact H|exact I]. Qed.

Lemma runs_try_except {A} P (Q : A -> Prop) (E1 E2 : exc -> Prop) body handler :
  runs P Q E1 body ->
  (forall e, E1 e -> is_Exception e = true -> runs P Q E2 (handler e)) ->
  (forall e, E1 e -> is_Exception e = false -> E2 e) ->
  runs P Q E2 (try_except body handler).
Proof.
  intros Hb Hh Hpass tr. destruct (Hb tr) as (evs & Htr & HP & Hout).
  unfold try_except. destruct (body tr) as [[a|e|] tr1]; cbn [fst snd] in *; subst tr1.
  - exists evs. repeat split; assumption.
  - destruct (is_Exception e) eqn:He.
    + destruct (Hh e Hout He (tr ++ evs)) as (evs2 & Htr2 & HP2 & Hout2).
      exists (evs ++ evs2). rewrite app_assoc, <- Htr2.
      repeat split; [apply Forall_app; split; assumption|exact Hout2].
    + exists evs. repeat split; [assumption|apply Hpass; assumption].
  - contradiction.
Qed.

Lemma runs_weaken {A} (P P' : event -> Prop) (Q Q' : A -> Prop) (E E' : exc -> Prop) m :
  runs P Q E m ->
  (forall ev, P ev -> P' ev) ->
  (forall a, Q a -> Q' a) ->
  (forall e, E e -> E' e) ->
  runs P' Q' E' m.
Proof.
  intros Hm HP HQ HE tr. destruct (Hm tr) as (evs & Htr & HPs & Hout).
  exists evs. split; [exact Htr|]. split.
  - eapply Forall_impl; [exact HP|exact HPs].
  - destruct (fst (m tr)); auto.
Qed.

Lemma runs_time_sleep env P secs :
  P (Sleep secs) ->
  runs P (fun _ : unit => True) (loop_interrupts env) (time_sleep env secs).
Proof.
  intros HP tr. exists [Sleep secs]. unfold time_sleep.
  destruct (sleep_interrupted env (count is_Sleep tr)) eqn:Hs; cbn [fst snd].
  - split; [reflexivity|]. split; [repeat constructor; exact HP|].
    split; [reflexivity|]. do 2 right. split; [reflexivity|eauto].
  - split; [reflexivity|]. split; [repeat constructor; exact HP|exact I].
Qed.

(* ================================================================== *)
(** ** What a run may do: the functions, one by one *)
(* ================================================================== *)

Lemma generate_openai_embedding_runs env c dry_run :
  has_tags c = true ->
  runs (record_event c true dry_run) full_or_none (loop_interrupts env)
       (generate_openai_embedding env (tags_of c)).
Proof.
  intros Htags tr. unfold generate_openai_embedding. cbv zeta.
  generalize (count is_CallOpenAI tr). intros k. revert tr.
  apply runs_bind with (Q := fun _ => True).
  - apply runs_emit; [|exact I]. repeat split; assumption.
  - intros _ _.
    apply runs_try_except
      with (E1 := fun e => e = Error "OpenAIError"
                           \/ embeddings_create env k = Fails e).
    + apply runs_bind with (Q := fun _ => True); [apply runs_log; exact I|].
      intros _ _.
      apply runs_bind with (Q := fun _ => True).
      { unfold new_openai_client.
        destruct (environ_OPENAI_API_KEY env);
          [apply runs_ret; exact I|apply runs_raise; left; reflexivity]. }
      intros _ _.
      apply runs_bind with (Q := fun _ => True); [apply runs_answer|].
      * destruct (embeddings_create env k); [right; reflexivity|exact I].
      * intros embedding _.
        destruct (Nat.eqb_spec (List.length embedding) VECTOR_DIMENSIONS) as [Hd|Hd];
          cbn [negb].
        -- apply runs_ret. exact Hd.
        -- apply runs_bind with (Q := fun _ => True); [apply runs_log; exact I|].
           intros _ _. apply runs_ret. exact I.
    + intros e _ _.
      apply runs_bind with (Q := fun _ => True); [apply runs_log; exact I|].
      intros _ _. apply runs_ret. exact I.
    + intros e [->|He] Hexc; [discriminate Hexc|].
      split; [exact Hexc|]. left. eauto.
Qed.

Lemma rpc_update_runs env c has_openai embedding :
  has_tags c = true ->
  List.length embedding = VECTOR_DIMENSIONS ->
  runs (record_event c has_openai false) (fun _ : bool => True) (loop_interrupts env)
       (rpc_update env (id c) embedding).
Proof.
  intros Htags Hlen tr. unfold rpc_update. cbv zeta.
  generalize (count is_RpcUpdate tr). intros k. revert tr.
  apply runs_try_except
    with (E1 := fun e => rpc_update_coffee_flavor_vector env k = Fails e).
  - apply runs_bind with (Q := fun _ => True).
    + apply runs_emit; [|exact I]. repeat split; assumption.
    + intros _ _. apply runs_bind with (Q := fun _ => True); [apply runs_answer|].
      * destruct (rpc_update_coffee_flavor_vector env k); [reflexivity|exact I].
      * intros data _.
        destruct data;
          (apply runs_bind with (Q := fun _ => True); [apply runs_log; exact I|]);
          intros _ _; apply runs_ret; exact I.
  - intros e _ _.
    apply runs_bind with (Q := fun _ => True); [apply runs_log; exact I|].
    intros _ _. apply runs_ret. exact I.
  - intros e He Hexc. split; [exact Hexc|]. right. left. eauto.
Qed.

Lemma update_coffee_embedding_runs env c has_openai dry_run :
  runs (record_event c has_openai dry_run) (fun _ : bool => True) (loop_interrupts env)
       (update_coffee_embedding env c has_openai dry_run).
Proof.
  unfold update_coffee_embedding. cbv zeta.
  destruct (no_tags (flavor_tags c)) eqn:Htags.
  - apply runs_bind with (Q := fun _ => True); [apply runs_log; exact I|].
    intros _ _. apply runs_ret. exact I.
  - assert (has_tags c = true) as Hhas by (unfold has_tags; now rewrite Htags).
    apply runs_bind with (Q := fun _ => True); [apply runs_log; exact I|].
    intros _ _. apply runs_bind with (Q := full_or_none).
    + destruct has_openai.
      * apply generate_openai_embedding_runs. exact Hhas.
      * apply runs_bind with (Q := fun _ => True).
        -- apply runs_emit; [|exact I]. repeat split; assumption.
        -- intros _ _.
           apply runs_bind with (Q := fun v => List.length v = VECTOR_DIMENSIONS).
           ++ apply runs_lift.
              destruct (generate_fallback_embedding_returns (hash env) (tags_of c))
                as (first & rest & -> & Hlen & _). exact Hlen.
           ++ intros v Hv. apply runs_ret. exact Hv.
    + intros [v|] Hfull; [|apply runs_bind with (Q := fun _ => True);
                            [apply runs_log; exact I|intros _ _; apply runs_ret; exact I]].
      destruct v as [|x v];
        [apply runs_bind with (Q := fun _ => True);
         [apply runs_log; exact I|intros _ _; apply runs_ret; exact I]|].
      cbn [no_embedding vector_of].
      apply runs_bind with (Q := fun _ => True); [apply runs_log; exact I|].
      intros _ _. destruct dry_run.
      * apply runs_bind with (Q := fun _ => True); [apply runs_log; exact I|].
        intros _ _. apply runs_ret. exact I.
      * apply rpc_update_runs; [exact Hhas|exact Hfull].
Qed.

Lemma record_event_in_batch args has_openai coffees c ev :
  In c coffees ->
  record_event c has_openai (dry_run args) ev ->
  batch_event args has_openai coffees ev.
Proof.
  intros Hin H. destruct ev; cbn in *; try exact H; try contradiction; eauto.
Qed.

Lemma process_batch_runs env args has_openai batch_last coffees todo :
  (forall c, In c todo -> In c coffees) ->
  forall counters,
    runs (batch_event args has_openai coffees) (fun _ : nat * nat => True)
         (loop_interrupts env)
         (process_batch env args has_openai batch_last todo counters).
Proof.
  induction todo as [|coffee rest IH]; intros Hincl [u f]; cbn [process_batch].
  - apply runs_ret. exact I.
  - apply runs_bind with (Q := fun _ => True).
    + eapply runs_weaken;
        [apply update_coffee_embedding_runs| |intros ? H; exact H|intros ? H; exact H].
      intros ev. apply record_event_in_batch. apply Hincl. now left.
    + intros success _. apply runs_bind with (Q := fun _ => True).
      * destruct (negb (Qle_bool (delay args) 0) && negb (coffee_eqb coffee batch_last))
          eqn:Hcond; [|apply runs_ret; exact I].
        apply runs_time_sleep. left. split; [reflexivity|].
        apply andb_prop in Hcond. destruct Hcond as [Hd _].
        now apply negb_true_iff in Hd.
      * intros _ _. apply IH. intros c Hc. apply Hincl. now right.
Qed.

Lemma In_slice {X} (l : list X) (i j : nat) (x : X) : In x (slice l i j) -> In x l.
Proof.
  unfold slice. intros H.
  rewrite <- (firstn_skipn i l). apply in_or_app. right.
  rewrite <- (firstn_skipn (j - i) (skipn i l)). apply in_or_app. now left.
Qed.

Lemma process_batch_at_runs env args has_openai coffees i counters :
  runs (batch_event args has_openai coffees) (fun _ : nat * nat => True)
       (loop_interrupts env)
       (process_batch_at env args has_openai coffees i counters).
Proof.
  unfold process_batch_at. cbv zeta.
  apply runs_bind with (Q := fun _ => True); [apply runs_log; exact I|].
  intros _ _. apply runs_bind with (Q := fun _ => True).
  - destruct (batch_at args coffees i) as [|c rest] eqn:Hb; [apply runs_ret; exact I|].
    apply process_batch_runs. intros x Hx. rewrite <- Hb in Hx.
    eapply In_slice. exact Hx.
  - intros counters' _.
    apply runs_bind with (Q := fun _ => True); [apply runs_log; exact I|].
    intros _ _.
    apply runs_bind with (Q := fun _ => True); [apply runs_log; exact I|].
    intros _ _. apply runs_bind with (Q := fun _ => True).
    + destruct ((Z.of_nat i + batch_size args <? Z.of_nat (List.length coffees))%Z
                && negb (Qle_bool (batch_delay args) 0)) eqn:Hcond;
        [|apply runs_ret; exact I].
      apply runs_bind with (Q := fun _ => True); [apply runs_log; exact I|].
      intros _ _. apply runs_time_sleep. right. split; [reflexivity|].
      apply andb_prop in Hcond. destruct Hcond as [_ Hd].
      now apply negb_true_iff in Hd.
    + intros _ _. apply runs_ret. exact I.
Qed.

Lemma for_each_batch_runs env args has_openai coffees starts :
  forall counters,
    runs (batch_event args has_openai coffees) (fun _ : nat * nat => True)
         (loop_interrupts env)
         (for_each_batch env args has_openai coffees starts counters).
Proof.
  induction starts as [|i rest IH]; intros counters; cbn [for_each_batch].
  - apply runs_ret. exact I.
  - apply runs_bind with (Q := fun _ => True); [apply process_batch_at_runs|].
    intros counters' _. apply IH.
Qed.

Lemma process_batches_runs env args has_openai coffees :
  runs (batch_event args has_openai coffees) (fun _ : nat * nat => True)
       (fun e => e = ValueError \/ loop_interrupts env e)
       (process_batches env args has_openai coffees).
Proof.
  unfold process_batches. cbv zeta.
  apply runs_bind with (Q := fun _ => True); [apply runs_log; exact I|].
  intros _ _. apply runs_bind with (Q := fun _ => True).
  - destruct (dry_run args); [apply runs_log; exact I|apply runs_ret; exact I].
  - intros _ _. apply runs_bind with (Q := fun _ => True).
    + apply runs_lift. unfold range0.
      destruct (batch_size args =? 0)%Z; [now left|].
      destruct (batch_size args <? 0)%Z; exact I.
    + intros starts _. apply runs_bind with (Q := fun _ => True).
      * eapply runs_weaken;
          [apply for_each_batch_runs|intros ? H; exact H|intros ? H; exact H|].
        intros e He. now right.
      * intros counters _.
        apply runs_bind with (Q := fun _ => True); [apply runs_log; exact I|].
        intros _ _.
        apply runs_bind with (Q := fun _ => True); [apply runs_log; exact I|].
        intros _ _. apply runs_ret. exact I.
Qed.

Lemma loop_interrupts_interrupts env e : loop_interrupts env e -> interrupts env e.
Proof.
  intros [He H]. split; [exact He|].
  destruct H as [H|[H|H]]; unfold raised_by_service; tauto.
Qed.

Lemma filter_all {X} (l : list X) : filter (fun _ => true) l = l.
Proof. induction l as [|x l IH]; cbn; [reflexivity|now rewrite IH]. Qed.

Lemma filter_none {X} (l : list X) : filter (fun _ => false) l = [].
Proof. induction l as [|x l IH]; cbn; [reflexivity|exact IH]. Qed.

(** The filter loop keeps the rows that pass its test, or stops on the
    [TypeError] of a comparison with [None]. *)
Lemma filter_need_update_kept last coffees : forall need_update,
  match filter_need_update last coffees need_update with
  | Ret l => l = need_update ++ filter (kept last) coffees
  | Raise e => e = TypeError
  | Diverge => False
  end.
Proof.
  induction coffees as [|coffee rest IH]; intros acc; cbn [filter_need_update filter].
  - now rewrite app_nil_r.
  - unfold kept at 1.
    destruct (needs_update_outcome last coffee) as [[b ->]| ->]; [|reflexivity].
    destruct b.
    + specialize (IH (acc ++ [coffee])).
      destruct (filter_need_update last rest (acc ++ [coffee])); [|exact IH|exact IH].
      rewrite IH, <- app_assoc. reflexivity.
    + apply IH.
Qed.

Lemma get_coffee_data_runs env force_all :
  runs query_event (selection_of (fetched env))
       (fun e => is_Exception e = false
                 /\ (select_coffees env = Fails e \/ select_update_logs env = Fails e))
       (get_coffee_data env force_all).
Proof.
  unfold get_coffee_data.
  apply runs_try_except
    with (E1 := fun e => select_coffees env = Fails e
                         \/ select_update_logs env = Fails e \/ e = TypeError).
  - apply runs_bind with (Q := fun _ => True); [apply runs_emit; exact I|].
    intros _ _.
    apply runs_bind with (Q := fun d => select_coffees env = Data d).
    + apply runs_answer. destruct (select_coffees env); [now left|reflexivity].
    + intros coffees Hc.
      assert (fetched env = coffees) as Hf by (unfold fetched; now rewrite Hc).
      rewrite Hf. destruct coffees as [|c0 rest].
      * apply runs_bind with (Q := fun _ => True); [apply runs_log; exact I|].
        intros _ _. apply runs_ret. exists (fun _ => true). reflexivity.
      * apply runs_bind with (Q := fun _ => True); [apply runs_log; exact I|].
        intros _ _. destruct force_all.
        -- apply runs_bind with (Q := fun _ => True); [apply runs_log; exact I|].
           intros _ _. apply runs_ret. exists (fun _ => true).
           symmetry. apply filter_all.
        -- apply runs_bind
             with (Q := fun r => match r with inl all => all = c0 :: rest | inr _ => True end).
           ++ unfold last_update.
              apply runs_try_except with (E1 := fun e => select_update_logs env = Fails e).
              ** apply runs_bind with (Q := fun _ => True); [apply runs_emit; exact I|].
                 intros _ _. apply runs_bind with (Q := fun _ => True).
                 --- apply runs_answer.
                     destruct (select_update_logs env); [reflexivity|exact I].
                 --- intros [|row logs] _;
                       (apply runs_bind with (Q := fun _ => True);
                        [apply runs_log; exact I|]);
                       intros _ _; apply runs_ret; [reflexivity|exact I].
              ** intros e _ _.
                 apply runs_bind with (Q := fun _ => True); [apply runs_log; exact I|].
                 intros _ _. apply runs_ret. reflexivity.
              ** intros e He _. right. left. exact He.
           ++ intros [all|last] Hr.
              ** apply runs_ret. subst all. exists (fun _ => true).
                 symmetry. apply filter_all.
              ** apply runs_bind with (Q := fun l => l = filter (kept last) (c0 :: rest)).
                 --- apply runs_lift.
                     pose proof (filter_need_update_kept last (c0 :: rest) []) as H.
                     destruct (filter_need_update last (c0 :: rest) []);
                       [exact H|right; right; exact H|exact H].
                 --- intros l Hl.
                     apply runs_bind with (Q := fun _ => True); [apply runs_log; exact I|].
                     intros _ _. apply runs_ret. exists (kept last). exact Hl.
  - intros e _ _.
    apply runs_bind with (Q := fun _ => True); [apply runs_log; exact I|].
    intros _ _. apply runs_ret. exists (fun _ => false).
    symmetry. apply filter_none.
  - intros e [H|[H|H]] He; [split; [exact He|now left] |split; [exact He|now right] |].
    subst e. discriminate He.
Qed.

Lemma initialize_clients_runs env args :
  runs init_event (fun b => b = has_openai_of env args)
       (fun e => e = SystemExit 1
                 \/ (is_Exception e = false /\ create_client env = Fails e))
       (initialize_clients env args).
Proof.
  unfold initialize_clients. cbv zeta.
  apply runs_bind with (Q := fun _ => True).
  - destruct (negb _ || negb _); [|apply runs_ret; exact I].
    apply runs_bind with (Q := fun _ => True); [apply runs_log; exact I|].
    intros _ _. apply runs_raise. now left.
  - intros _ _. apply runs_bind with (Q := fun _ => True).
    + destruct (truthy_str _); apply runs_log; exact I.
    + intros _ _.
      apply runs_try_except with (E1 := fun e => create_client env = Fails e).
      * apply runs_bind with (Q := fun _ => True); [apply runs_emit; exact I|].
        intros _ _. apply runs_bind with (Q := fun _ => True).
        -- apply runs_answer. destruct (create_client env); [reflexivity|exact I].
        -- intros _ _.
           apply runs_bind with (Q := fun _ => True); [apply runs_log; exact I|].
           intros _ _. apply runs_ret. reflexivity.
      * intros e _ _.
        apply runs_bind with (Q := fun _ => True); [apply runs_log; exact I|].
        intros _ _. apply runs_raise. now left.
      * intros e He Hexc. right. split; assumption.
Qed.

Lemma batch_event_in_main env args work_set ev :
  (forall c, In c work_set -> In c (fetched env)) ->
  batch_event args (has_openai_of env args) work_set ev ->
  main_event env args ev.
Proof.
  intros Hincl H. destruct ev; cbn in *; try exact I; try exact H;
    try contradiction; destruct H as (c & Hc & Hev); eauto.
Qed.

Lemma main_runs env args :
  runs (main_event env args) (fun _ : option (nat * nat) => True) (main_raises env)
       (main env (Parsed args)).
Proof.
  unfold main, get_args.
  apply runs_bind with (Q := fun a => a = args); [apply runs_ret; reflexivity|].
  intros ? ->.
  apply runs_bind with (Q := fun _ => True); [apply runs_log; exact I|].
  intros _ _. apply runs_bind with (Q := fun b => b = has_openai_of env args).
  - eapply runs_weaken; [apply initialize_clients_runs| |intros ? H; exact H|].
    + intros ev H. destruct ev; cbn in *; try exact I; contradiction.
    + intros e [H|[He H]]; [now left|].
      do 3 right. split; [exact He|]. now left.
  - intros has_openai ->.
    apply runs_bind with (Q := selection_of (fetched env)).
    + eapply runs_weaken; [apply get_coffee_data_runs| |intros ? H; exact H|].
      * intros ev H. destruct ev; cbn in *; try exact I; contradiction.
      * intros e [He H]. do 3 right. split; [exact He|].
        unfold raised_by_service. tauto.
    + intros work_set [keep Hws].
      assert (forall c, In c work_set -> In c (fetched env)) as Hincl
          by (intros c Hc; rewrite Hws in Hc; apply filter_In in Hc; tauto).
      destruct work_set as [|c0 rest].
      * apply runs_bind with (Q := fun _ => True); [apply runs_log; exact I|].
        intros _ _. apply runs_ret. exact I.
      * apply runs_bind with (Q := fun _ : bool => True).
        -- destruct (negb (has_openai_of env args) && negb (force_all args)) eqn:Hcond;
             [|apply runs_ret; exact I].
           apply andb_prop in Hcond. destruct Hcond as [Hk Hf].
           apply negb_true_iff in Hk. apply negb_true_iff in Hf.
           apply runs_bind with (Q := fun _ => True); [apply runs_log; exact I|].
           intros _ _. apply runs_bind with (Q := fun _ => True).
           ++ unfold py_input.
              apply runs_bind with (Q := fun _ => True);
                [apply runs_emit; [split; assumption|exact I]|].
              intros _ _. apply runs_answer.
              destruct (input env) eqn:Hin; [|exact I].
              right. right. now left.
           ++ intros user_input _.
              destruct (negb (String.eqb (lower user_input) "y")).
              ** apply runs_bind with (Q := fun _ => True); [apply runs_log; exact I|].
                 intros _ _. apply runs_ret. exact I.
              ** apply runs_ret. exact I.
        -- intros [|] _; [|apply runs_ret; exact I].
           apply runs_bind with (Q := fun _ => True); [|intros; apply runs_ret; exact I].
           eapply runs_weaken;
             [apply process_batches_runs| |intros ? H; exact H|].
           ++ intros ev. apply batch_event_in_main. exact Hincl.
           ++ intros e [->|H]; [right; now left|].
              do 3 right. apply loop_interrupts_interrupts. exact H.
Qed.

(** Every event of a run of the script is one [main_event] allows. *)
Lemma script_events env args : Forall (main_event env args) (snd (script env (Parsed args))).
Proof.
  destruct (main_runs env args []) as (evs & Htr & HP & _).
  unfold script. destruct (main env (Parsed args) []) as [[r|e|] tr]; cbn [fst snd] in *;
    subst tr; cbn [List.app].
  - exact HP.
  - destruct e; cbn [snd]; try exact HP;
      (apply Forall_app; split; [exact HP|repeat constructor]).
  - exact HP.
Qed.

(** X4: the script always ends, whatever the command line and the
    environment.  Its exit status is 0 or 1, or 2 when argparse rejects
    the command line (then nothing is logged and nothing is called); any
    other status can only be the code of a [SystemExit] that the gateway,
    the embedding service or the prompt itself raised.  After [--help]
    the status is 0 and nothing is logged or called either. *)
Theorem script_exit_status_is_0_1_or_2 env argv :
  (fst (script env argv) = Some 0%Z
   \/ fst (script env argv) = Some 1%Z
   \/ (argv = UsageError /\ fst (script env argv) = Some 2%Z)
   \/ exists code,
        fst (script env argv) = Some code
        /\ (input env = Fails (SystemExit code)
            \/ raised_by_service env (SystemExit code)))
  /\ script env UsageError = (Some 2%Z, [])
  /\ script env Help = (Some 0%Z, []).
Proof.
  split; [|split; reflexivity].
  destruct argv as [args| |];
    [|left; reflexivity|right; right; left; split; reflexivity].
  destruct (main_runs env args []) as (evs & _ & _ & Hout).
  unfold script. destruct (main env (Parsed args) []) as [[r|e|] tr]; cbn [fst snd] in *.
  - now left.
  - destruct e; try (right; left; reflexivity).
    destruct Hout as [H|[H|[H|[_ H]]]].
    + injection H as ->. right. now left.
    + discriminate H.
    + do 3 right. exists code. split; [reflexivity|now left].
    + do 3 right. exists code. split; [reflexivity|now right].
  - contradiction.
Qed.

(** X5: every update RPC the script issues is issued in live mode, for a
    row the catalog query returned and whose [flavor_tags] is not empty,
    with a vector of exactly 1536 elements; so a dry run never writes,
    whatever the environment does. *)
Theorem script_writes_are_well_formed env args coffee_id embedding :
  In (RpcUpdate coffee_id embedding) (snd (script env (Parsed args))) ->
  dry_run args = false
  /\ List.length embedding = 1536%nat
  /\ exists c, In c (fetched env) /\ id c = coffee_id /\ has_tags c = true.
Proof.
  intros Hin. pose proof (script_events env args) as H.
  rewrite Forall_forall in H. specialize (H _ Hin). cbn in H.
  destruct H as (c & Hc & Hdry & Hid & Htags & Hlen).
  split; [exact Hdry|]. split; [exact Hlen|].
  exists c. split; [exact Hc|]. split; [now symmetry|exact Htags].
Qed.

Lemma script_writes_are_well_formed_witness :
  In (RpcUpdate "c-001" (repeat 0%R 1536))
     (snd (script (sample_env [guji] [] service_up) (Parsed default_args)))
  /\ dry_run default_args = false
  /\ List.length (repeat 0%R 1536) = 1536%nat
  /\ exists c, In c (fetched (sample_env [guji] [] service_up))
               /\ id c = "c-001"%string /\ has_tags c = true.
Proof.
  assert (In (RpcUpdate "c-001" (repeat 0%R 1536))
             (snd (script (sample_env [guji] [] service_up) (Parsed default_args)))) as Hin.
  { vm_compute. do 14 right. left. reflexivity. }
  split; [exact Hin|].
  exact (@script_writes_are_well_formed
           (sample_env [guji] [] service_up) default_args "c-001"
           (repeat 0%R 1536) Hin).
Defined.

(** X6: the two generators exclude each other for a whole run: the
    embedding service is called only when an OpenAI key is configured, the
    fallback generator only when none is (a failing service never leads to
    the fallback), and either only on the non-empty tags of a row the
    catalog query returned. *)
Theorem script_generators_are_exclusive env args tags :
  (In (CallOpenAI tags) (snd (script env (Parsed args))) ->
   has_openai_of env args = true
   /\ exists c, In c (fetched env) /\ tags = tags_of c /\ has_tags c = true)
  /\ (In (CallFallback tags) (snd (script env (Parsed args))) ->
      has_openai_of env args = false
      /\ exists c, In c (fetched env) /\ tags = tags_of c /\ has_tags c = true).
Proof.
  pose proof (script_events env args) as H. rewrite Forall_forall in H.
  split; intros Hin; specialize (H _ Hin); cbn in H;
    destruct H as (c & Hc & Hho & Ht & Htags); eauto.
Qed.

Lemma script_generators_are_exclusive_witness :
  In (CallOpenAI ["Fruity"; "floral notes"]%string)
     (snd (script (sample_env [guji] [] service_down) (Parsed default_args)))
  /\ has_openai_of (sample_env [guji] [] service_down) default_args = true
  /\ ~ In (CallFallback ["Fruity"; "floral notes"]%string)
          (snd (script (sample_env [guji] [] service_down) (Parsed default_args))).
Proof.
  assert (In (CallOpenAI ["Fruity"; "floral notes"]%string)
             (snd (script (sample_env [guji] [] service_down) (Parsed default_args)))) as Hin.
  { vm_compute. do 11 right. left. reflexivity. }
  split; [exact Hin|].
  destruct (@script_generators_are_exclusive
              (sample_env [guji] [] service_down) default_args
              ["Fruity"; "floral notes"]%string) as [Hopen Hfall].
  split; [exact (proj1 (Hopen Hin))|].
  intros Hbad. destruct (Hfall Hbad) as [Hno _]. discriminate Hno.
Defined.

(** X7: the script sleeps only for the configured [delay] or
    [batch_delay], and only when that value is positive; with both at 0
    (or below) it never sleeps. *)
Theorem script_sleeps_only_for_positive_delays env args secs :
  In (Sleep secs) (snd (script env (Parsed args))) ->
  (secs = delay args /\ Qle_bool (delay args) 0 = false)
  \/ (secs = batch_delay args /\ Qle_bool (batch_delay args) 0 = false).
Proof.
  intros Hin. pose proof (script_events env args) as H.
  rewrite Forall_forall in H. exact (H _ Hin).
Qed.

Lemma script_sleeps_only_for_positive_delays_witness :
  In (Sleep 1) (snd (script (sample_env [guji; huila] [] service_down) (Parsed default_args)))
  /\ ((1 = delay default_args /\ Qle_bool (delay default_args) 0 = false)
      \/ (1 = batch_delay default_args /\ Qle_bool (batch_delay default_args) 0 = false)).
Proof.
  assert (In (Sleep 1)
             (snd (script (sample_env [guji; huila] [] service_down) (Parsed default_args))))
    as Hin.
  { vm_compute. do 15 right. left. reflexivity. }
  split; [exact Hin|].
  exact (@script_sleeps_only_for_positive_delays
           (sample_env [guji; huila] [] service_down) default_args 1 Hin).
Defined.

(** X8: the script asks the user for confirmation only when no OpenAI key
    is configured and [--force-all] is not given. *)
Theorem script_prompts_only_without_key env args prompt :
  In (Input prompt) (snd (script env (Parsed args))) ->
  has_openai_of env args = false /\ force_all args = false.
Proof.
  intros Hin. pose proof (script_events env args) as H.
  rewrite Forall_forall in H. exact (H _ Hin).
Qed.

Lemma script_prompts_only_without_key_witness :
  In (Input "Continue with fallback embeddings? [y/N]: ")
     (snd (script (declining_env [guji]) (Parsed default_args)))
  /\ has_openai_of (declining_env [guji]) default_args = false
  /\ force_all default_args = false.
Proof.
  assert (In (Input "Continue with fallback embeddings? [y/N]: ")
             (snd (script (declining_env [guji]) (Parsed default_args)))) as Hin.
  { vm_compute. do 9 right. left. reflexivity. }
  split; [exact Hin|].
  exact (@script_prompts_only_without_key (declining_env [guji]) default_args _ Hin).
Defined.

(** When the answer at the prompt is not "y", [main] generates nothing,
    writes nothing and does not sleep. *)
Lemma main_declined_runs env args :
  has_openai_of env args = false ->
  force_all args = false ->
  (forall answer, input env = Data answer -> String.eqb (lower answer) "y" = false) ->
  runs quiet_event (fun _ : option (nat * nat) => True) (main_raises env) (main env (Parsed args)).
Proof.
  intros Hkey Hforce Hanswer. unfold main, get_args.
  apply runs_bind with (Q := fun a => a = args); [apply runs_ret; reflexivity|].
  intros ? ->.
  apply runs_bind with (Q := fun _ => True); [apply runs_log; exact I|].
  intros _ _. apply runs_bind with (Q := fun b => b = has_openai_of env args).
  - eapply runs_weaken; [apply initialize_clients_runs| |intros ? H; exact H|].
    + intros ev H. destruct ev; cbn in *; try exact I; contradiction.
    + intros e [H|[He H]]; [now left|].
      do 3 right. split; [exact He|]. now left.
  - intros has_openai ->. rewrite Hkey, Hforce. cbn [negb andb].
    apply runs_bind with (Q := fun _ => True).
    + eapply runs_weaken; [apply get_coffee_data_runs| |intros ? H; exact I|].
      * intros ev H. destruct ev; cbn in *; try exact I; contradiction.
      * intros e [He H]. do 3 right. split; [exact He|].
        unfold raised_by_service. tauto.
    + intros [|c0 rest] _.
      * apply runs_bind with (Q := fun _ => True); [apply runs_log; exact I|].
        intros _ _. apply runs_ret. exact I.
      * apply runs_bind with (Q := fun b : bool => b = false).
        -- apply runs_bind with (Q := fun _ => True); [apply runs_log; exact I|].
           intros _ _.
           apply runs_bind with (Q := fun answer => input env = Data answer).
           ++ unfold py_input.
              apply runs_bind with (Q := fun _ => True); [apply runs_emit; exact I|].
              intros _ _. apply runs_answer.
              destruct (input env) eqn:Hin; [|reflexivity].
              right. right. now left.
           ++ intros user_input Hin. rewrite (Hanswer _ Hin). cbn [negb].
              apply runs_bind with (Q := fun _ => True); [apply runs_log; exact I|].
              intros _ _. apply runs_ret. reflexivity.
        -- intros proceed ->. apply runs_ret. exact I.
Qed.

(** X9: when no OpenAI key is configured, [--force-all] is not given and
    the answer at the prompt is anything but "y" or "Y", the script
    generates no vector, writes nothing and does not sleep: its trace
    holds log lines, the client creation, the two queries and the prompt
    only. *)
Theorem declined_prompt_changes_nothing env args :
  has_openai_of env args = false ->
  force_all args = false ->
  (forall answer, input env = Data answer -> String.eqb (lower answer) "y" = false) ->
  Forall quiet_event (snd (script env (Parsed args))).
Proof.
  intros Hkey Hforce Hanswer.
  destruct (main_declined_runs env args Hkey Hforce Hanswer []) as (evs & Htr & HP & _).
  unfold script. destruct (main env (Parsed args) []) as [[r|e|] tr]; cbn [fst snd] in *;
    subst tr; cbn [List.app].
  - exact HP.
  - destruct e; cbn [snd]; try exact HP;
      (apply Forall_app; split; [exact HP|repeat constructor]).
  - exact HP.
Qed.

Lemma declined_prompt_changes_nothing_witness :
  has_openai_of (declining_env [guji; huila]) default_args = false
  /\ force_all default_args = false
  /\ (forall answer, input (declining_env [guji; huila]) = Data answer ->
                     String.eqb (lower answer) "y" = false)
  /\ Forall quiet_event (snd (script (declining_env [guji; huila]) (Parsed default_args))).
Proof.
  assert (forall answer, input (declining_env [guji; huila]) = Data answer ->
                         String.eqb (lower answer) "y" = false) as Hanswer.
  { intros answer H. injection H as <-. reflexivity. }
  split; [reflexivity|]. split; [reflexivity|]. split; [exact Hanswer|].
  apply declined_prompt_changes_nothing; [reflexivity|reflexivity|exact Hanswer].
Defined.

(** X10: without the Supabase URL or key the script stops at once, with
    exit status 1 and two log lines: it creates no client and sends no
    query. *)
Theorem missing_credentials_stop_the_script env args :
  credentials_present env args = false ->
  script env (Parsed args)
  = (Some 1%Z, [Log INFO MsgStarting; Log ERROR MsgCredentialsRequired]).
Proof.
  intros Hcred. unfold script. enter_main.
  unfold bind at 1, log at 1, emit at 1. unfold bind at 1.
  rewrite (@initialize_clients_missing_credentials env args _ Hcred). reflexivity.
Qed.

Lemma missing_credentials_stop_the_script_witness :
  credentials_present bare_env default_args = false
  /\ script bare_env (Parsed default_args)
     = (Some 1%Z, [Log INFO MsgStarting; Log ERROR MsgCredentialsRequired]).
Proof.
  split; [reflexivity|].
  apply missing_credentials_stop_the_script. reflexivity.
Defined.

(* ================================================================== *)
(** ** More about the change detector and the primary generator *)
(* ================================================================== *)

(** X11: [get_coffee_data] returns rows of the catalog query, in their
    order, adding and duplicating none: the work set is a filter of the
    fetched rows (empty when the query failed).  It never raises an
    [Exception]: only a [KeyboardInterrupt] or [SystemExit] out of one of
    its two queries gets through. *)
Theorem get_coffee_data_selects_rows env force_all tr :
  match fst (get_coffee_data env force_all tr) with
  | Ret work_set => exists keep, work_set = filter keep (fetched env)
  | Raise e =>
      is_Exception e = false
      /\ (select_coffees env = Fails e \/ select_update_logs env = Fails e)
  | Diverge => False
  end.
Proof.
  destruct (get_coffee_data_runs env force_all tr) as (evs & _ & _ & H). exact H.
Qed.

Lemma get_coffee_data_log_failure env coffees e tr :
  select_coffees env = Data coffees ->
  select_update_logs env = Fails e ->
  is_Exception e = true ->
  fst (get_coffee_data env false tr) = Ret coffees.
Proof.
  intros Hc Hl He. run_script. rewrite Hc.
  destruct coffees as [|c rest]; [reflexivity|].
  run_script. rewrite Hl, He. reflexivity.
Qed.

(** X12: the change detector fails open.  Under [force_all], when the log
    of past runs is empty, and when the query on that log raises an
    [Exception], [get_coffee_data] returns every fetched row, in order. *)
Theorem get_coffee_data_fails_open env coffees force_all tr :
  select_coffees env = Data coffees ->
  force_all = true
  \/ select_update_logs env = Data []
  \/ (exists e, select_update_logs env = Fails e /\ is_Exception e = true) ->
  fst (get_coffee_data env force_all tr) = Ret coffees.
Proof.
  intros Hc [->|H]; [now apply get_coffee_data_force_all|].
  destruct force_all; [now apply get_coffee_data_force_all|].
  destruct H as [Hl|(e & Hl & He)].
  - now apply get_coffee_data_no_prior_sync.
  - eapply get_coffee_data_log_failure; eassumption.
Qed.

Lemma get_coffee_data_fails_open_witness :
  select_coffees (sample_env [guji; huila; decaf] [] service_down)
  = Data [guji; huila; decaf]
  /\ (false = true
      \/ select_update_logs (sample_env [guji; huila; decaf] [] service_down) = Data []
      \/ (exists e, select_update_logs (sample_env [guji; huila; decaf] [] service_down)
                    = Fails e /\ is_Exception e = true))
  /\ fst (get_coffee_data (sample_env [guji; huila; decaf] [] service_down) false [])
     = Ret [guji; huila; decaf].
Proof.
  split; [reflexivity|].
  assert (false = true
      \/ select_update_logs (sample_env [guji; huila; decaf] [] service_down) = Data []
      \/ (exists e, select_update_logs (sample_env [guji; huila; decaf] [] service_down)
                    = Fails e /\ is_Exception e = true)) as H
      by (right; left; reflexivity).
  split; [exact H|].
  apply (@get_coffee_data_fails_open
           (sample_env [guji; huila; decaf] [] service_down)
           [guji; huila; decaf] false [] eq_refl H).
Defined.

Lemma filter_need_update_null_time coffees : forall need_update,
  (exists c, In c coffees /\ truthy_str (effective_timestamp c) = true) ->
  filter_need_update None coffees need_update = Raise TypeError.
Proof.
  induction coffees as [|coffee rest IH]; intros acc (c & Hin & Hts).
  - contradiction.
  - cbn [filter_need_update]. unfold needs_update.
    fold (effective_timestamp coffee).
    destruct Hin as [->|Hin].
    + destruct (effective_timestamp c) as [cu|]; [|discriminate Hts].
      now rewrite Hts.
    + destruct (effective_timestamp coffee) as [cu|].
      * destruct (truthy_str (Some cu)); [reflexivity|].
        destruct (negb (truthy_str (flavor_embedding coffee))); apply IH; eauto.
      * destruct (negb (truthy_str (flavor_embedding coffee))); apply IH; eauto.
Qed.

(** X13: when the first row of the log of past runs has a NULL
    [created_at] and some fetched row has a timestamp, the comparison of a
    string with [None] raises [TypeError] inside [get_coffee_data], which
    logs it as a fetch error and returns the empty work set. *)
Theorem get_coffee_data_null_sync_time env coffees row logs tr :
  select_coffees env = Data coffees ->
  select_update_logs env = Data (row :: logs) ->
  log_created_at row = None ->
  (exists c, In c coffees /\ truthy_str (effective_timestamp c) = true) ->
  get_coffee_data env false tr
  = (Ret [],
     tr ++ [SelectCoffees; Log INFO (MsgFoundTotal (List.length coffees));
            SelectUpdateLogs; Log INFO (MsgLastUpdate None);
            Log ERROR (MsgErrorFetching TypeError)]).
Proof.
  intros Hc Hl Ht Hex. run_script. rewrite Hc.
  destruct coffees as [|c0 rest]; [destruct Hex as (c & [] & _)|].
  run_script. rewrite Hl. run_script. rewrite Ht.
  rewrite (@filter_need_update_null_time (c0 :: rest) [] Hex). cbn [is_Exception].
  rewrite <- !app_assoc. reflexivity.
Qed.

Lemma get_coffee_data_null_sync_time_witness :
  select_coffees (sample_env [guji; decaf] [{| log_created_at := None |}] service_down)
  = Data [guji; decaf]
  /\ select_update_logs (sample_env [guji; decaf] [{| log_created_at := None |}] service_down)
     = Data [{| log_created_at := None |}]
  /\ log_created_at {| log_created_at := None |} = None
  /\ (exists c, In c [guji; decaf] /\ truthy_str (effective_timestamp c) = true)
  /\ fst (get_coffee_data
            (sample_env [guji; decaf] [{| log_created_at := None |}] service_down)
            false [])
     = Ret [].
Proof.
  assert (exists c, In c [guji; decaf] /\ truthy_str (effective_timestamp c) = true)
    as Hex by (exists guji; split; [now left|reflexivity]).
  split; [reflexivity|]. split; [reflexivity|]. split; [reflexivity|].
  split; [exact Hex|].
  rewrite (@get_coffee_data_null_sync_time
             (sample_env [guji; decaf] [{| log_created_at := None |}] service_down)
             [guji; decaf] {| log_created_at := None |} [] [] eq_refl eq_refl eq_refl Hex).
  reflexivity.
Defined.

Lemma string_compare_lt_trans (a : string) : forall b c,
  String.compare a b = Lt -> String.compare b c = Lt -> String.compare a c = Lt.
Proof.
  induction a as [|x a IH]; intros [|y b] [|z c]; cbn; try discriminate; try reflexivity.
  unfold Ascii.compare.
  destruct (N.compare_spec (N_of_ascii x) (N_of_ascii y)) as [Hxy|Hxy|Hxy];
    destruct (N.compare_spec (N_of_ascii y) (N_of_ascii z)) as [Hyz|Hyz|Hyz];
    destruct (N.compare_spec (N_of_ascii x) (N_of_ascii z)) as [Hxz|Hxz|Hxz];
    try discriminate; try reflexivity; try lia.
  apply IH.
Qed.

(** A later sync time makes fewer records stale. *)
Lemma stale_earlier (t1 t2 : string) (c : Coffee) :
  str_gt t2 t1 = false -> stale t1 c = true -> stale t2 c = true.
Proof.
  unfold stale, strictly_later, str_gt, String.ltb. intros Hle H.
  apply orb_true_iff in H. apply orb_true_iff. destruct H as [H|H]; [|now right].
  left. destruct (effective_timestamp c) as [cu|]; [|discriminate H].
  destruct (String.compare t1 cu) eqn:H1; try discriminate H.
  destruct (String.compare t1 t2) eqn:H12; try discriminate Hle.
  - apply String.compare_eq_iff in H12. subst t2. now rewrite H1.
  - rewrite String.compare_antisym in H12.
    destruct (String.compare t2 t1) eqn:H21; try discriminate H12.
    now rewrite (string_compare_lt_trans _ _ _ H21 H1).
Qed.

(** X14: the work set only shrinks as the timestamp it is compared with
    advances.  That timestamp is the [created_at] of the first row the
    log query returns (which need not be the most recent run): on the
    same fetched rows, every record selected when the first row carries
    [t1] is also selected when it carries a [t2] that is not later than
    [t1]. *)
Theorem earlier_first_row_selects_more
  env1 env2 coffees row1 logs1 row2 logs2 (t1 t2 : string) tr :
  select_coffees env1 = Data coffees ->
  select_coffees env2 = Data coffees ->
  select_update_logs env1 = Data (row1 :: logs1) ->
  log_created_at row1 = Some t1 ->
  select_update_logs env2 = Data (row2 :: logs2) ->
  log_created_at row2 = Some t2 ->
  str_gt t2 t1 = false ->
  exists later_set earlier_set,
    fst (get_coffee_data env1 false tr) = Ret later_set
    /\ fst (get_coffee_data env2 false tr) = Ret earlier_set
    /\ forall c, In c later_set -> In c earlier_set.
Proof.
  intros Hc1 Hc2 Hl1 Ht1 Hl2 Ht2 Hle.
  exists (filter (stale t1) coffees), (filter (stale t2) coffees).
  split; [eapply get_coffee_data_prior_sync; eassumption|].
  split; [eapply get_coffee_data_prior_sync; eassumption|].
  intros c Hin. apply filter_In in Hin. apply filter_In.
  split; [tauto|]. eapply stale_earlier; [exact Hle|tauto].
Qed.

Lemma earlier_first_row_selects_more_witness :
  str_gt "2024-01-01T00:00:00+00:00" "2024-06-01T00:00:00+00:00" = false
  /\ exists later_set earlier_set,
       fst (get_coffee_data
              (sample_env [guji; huila; decaf]
                 [{| log_created_at := Some "2024-06-01T00:00:00+00:00"%string |}]
                 service_down) false [])
       = Ret later_set
       /\ fst (get_coffee_data
                 (sample_env [guji; huila; decaf]
                    [{| log_created_at := Some "2024-01-01T00:00:00+00:00"%string |}]
                    service_down) false [])
          = Ret earlier_set
       /\ forall c, In c later_set -> In c earlier_set.
Proof.
  split; [reflexivity|].
  apply (@earlier_first_row_selects_more
           (sample_env [guji; huila; decaf]
              [{| log_created_at := Some "2024-06-01T00:00:00+00:00"%string |}]
              service_down)
           (sample_env [guji; huila; decaf]
              [{| log_created_at := Some "2024-01-01T00:00:00+00:00"%string |}]
              service_down)
           [guji; huila; decaf]
           {| log_created_at := Some "2024-06-01T00:00:00+00:00"%string |} []
           {| log_created_at := Some "2024-01-01T00:00:00+00:00"%string |} []
           "2024-06-01T00:00:00+00:00" "2024-01-01T00:00:00+00:00" []);
    reflexivity.
Defined.

(** X15: [generate_openai_embedding] builds its client from the
    environment variable [OPENAI_API_KEY] alone: when the variable is
    unset the function returns [None] whatever the service would answer.
    When it is set, the function returns the answer of the service if it
    has exactly 1536 elements and [None] if it has another length.  Any
    [Exception] of the service gives [None]; the function raises no
    [Exception] itself, and what it does raise was raised by the
    service. *)
Theorem generate_openai_embedding_validates env tags tr :
  (environ_OPENAI_API_KEY env = None ->
   fst (generate_openai_embedding env tags tr) = Ret None)
  /\ (forall embedding,
        fst (generate_openai_embedding env tags tr) = Ret (Some embedding) ->
        List.length embedding = 1536%nat
        /\ environ_OPENAI_API_KEY env <> None
        /\ embeddings_create env (count is_CallOpenAI tr) = Data embedding)
  /\ (forall key embedding,
        environ_OPENAI_API_KEY env = Some key ->
        embeddings_create env (count is_CallOpenAI tr) = Data embedding ->
        fst (generate_openai_embedding env tags tr)
        = Ret (if (List.length embedding =? 1536)%nat then Some embedding else None))
  /\ (forall e,
        embeddings_create env (count is_CallOpenAI tr) = Fails e ->
        is_Exception e = true ->
        fst (generate_openai_embedding env tags tr) = Ret None)
  /\ (forall e,
        fst (generate_openai_embedding env tags tr) = Raise e ->
        is_Exception e = false
        /\ embeddings_create env (count is_CallOpenAI tr) = Fails e)
  /\ fst (generate_openai_embedding env tags tr) <> Diverge.
Proof.
  rewrite generate_openai_embedding_eq. cbv zeta.
  change 1536%nat with VECTOR_DIMENSIONS.
  destruct (environ_OPENAI_API_KEY env) as [key|].
  - destruct (embeddings_create env (count is_CallOpenAI tr)) as [e|embedding].
    + destruct (is_Exception e) eqn:He; cbn [fst snd];
        (split; [intros H; discriminate H|]);
        (split; [intros v H; discriminate H|]);
        (split; [intros k v _ H; discriminate H|]);
        (split; [intros e' H He'; injection H as <-; congruence|]);
        (split; [intros e' H; try discriminate H; injection H as <-; now split
                |discriminate]).
    + destruct (Nat.eqb_spec (List.length embedding) VECTOR_DIMENSIONS) as [Hd|Hd];
        cbn [fst snd].
      * split; [intros H; discriminate H|].
        split; [intros v H; injection H as <-; repeat split;
                [exact Hd|discriminate]|].
        split; [intros k v _ H; injection H as <-;
                now rewrite (proj2 (Nat.eqb_eq _ _) Hd)|].
        split; [intros e' H; discriminate H|].
        split; [intros e' H; discriminate H|discriminate].
      * split; [intros H; discriminate H|].
        split; [intros v H; discriminate H|].
        split; [intros k v _ H; injection H as <-;
                now rewrite (proj2 (Nat.eqb_neq _ _) Hd)|].
        split; [intros e' H; discriminate H|].
        split; [intros e' H; discriminate H|discriminate].
  - cbn [fst snd].
    split; [reflexivity|].
    split; [intros v H; discriminate H|].
    split; [intros k v H; discriminate H|].
    split; [reflexivity|].
    split; [intros e' H; discriminate H|discriminate].
Qed.

Lemma generate_openai_embedding_validates_witness :
  environ_OPENAI_API_KEY (keyless_env [guji]) = None
  /\ embeddings_create (keyless_env [guji]) 0 = Data (repeat 0%R 1536)
  /\ fst (generate_openai_embedding (keyless_env [guji]) ["Fruity"%string] [])
     = Ret None.
Proof.
  split; [reflexivity|]. split; [reflexivity|].
  apply (proj1 (@generate_openai_embedding_validates
                  (keyless_env [guji]) ["Fruity"%string] [])).
  reflexivity.
Defined.

(* ================================================================== *)
(** ** More about the runner *)
(* ================================================================== *)

Lemma filter_has_tags_cons c (rest : list Coffee) :
  List.length (filter has_tags (c :: rest))
  = ((if no_tags (flavor_tags c) then 0 else 1) + List.length (filter has_tags rest))%nat.
Proof.
  cbn [filter]. unfold has_tags at 1. destruct (no_tags (flavor_tags c)); reflexivity.
Qed.

(** One generator call per record with tags, at most one write, and an
    update only after a write (in live mode). *)
Lemma judge_all_calls env has_openai dry_run coffees : forall p,
  let p' := judge_all env has_openai dry_run coffees p in
  (openai_calls p' + fallback_calls p'
   = openai_calls p + fallback_calls p + List.length (filter has_tags coffees))%nat
  /\ (rpc_calls p <= rpc_calls p' <= rpc_calls p + List.length (filter has_tags coffees))%nat
  /\ (count_updated p <= count_updated p'
      <= count_updated p + List.length (filter has_tags coffees))%nat
  /\ (dry_run = false ->
      count_updated p' + rpc_calls p <= rpc_calls p' + count_updated p)%nat.
Proof.
  induction coffees as [|c rest IH]; intros p; cbv zeta.
  - cbn. repeat split; lia.
  - cbn [judge_all fold_left].
    fold (judge_all env has_openai dry_run rest (judge env has_openai dry_run p c)).
    specialize (IH (judge env has_openai dry_run p c)). cbv zeta in IH.
    destruct IH as (Hg & Hr & Hu & Hl).
    rewrite filter_has_tags_cons.
    assert ((openai_calls (judge env has_openai dry_run p c)
             + fallback_calls (judge env has_openai dry_run p c)
             = openai_calls p + fallback_calls p
               + (if no_tags (flavor_tags c) then 0 else 1))%nat
            /\ (rpc_calls p <= rpc_calls (judge env has_openai dry_run p c)
                <= rpc_calls p + (if no_tags (flavor_tags c) then 0 else 1))%nat
            /\ (count_updated p <= count_updated (judge env has_openai dry_run p c)
                <= count_updated p + (if no_tags (flavor_tags c) then 0 else 1))%nat
            /\ (dry_run = false ->
                count_updated (judge env has_openai dry_run p c) + rpc_calls p
                <= rpc_calls (judge env has_openai dry_run p c) + count_updated p)%nat)
      as (Sg & Sr & Su & Sl).
    { unfold judge, judge_one, write_verdict, count_updated.
      cbn [verdicts openai_calls fallback_calls rpc_calls].
      rewrite !filter_app, !length_app.
      destruct (no_tags (flavor_tags c)); [cbn; repeat split; lia|].
      destruct has_openai, dry_run; cbn [orb];
        repeat match goal with
               | |- context [match ?x with _ => _ end] => destruct x
               end; cbn; repeat split; intros; try lia; try discriminate. }
    repeat split; try lia. intros Hd. specialize (Hl Hd). specialize (Sl Hd). lia.
Qed.

(** X16: in a run that no Ctrl-C interrupts, every record with tags gets
    exactly one generator call (no retry), at most one update RPC is
    issued per such record, and no more records are counted as updated
    than there are records with tags; in live mode every record counted
    as updated was written. *)
Theorem every_record_is_tried_once env args has_openai coffees tr :
  calm env ->
  (0 < batch_size args)%Z ->
  exists updated failed tr',
    process_batches env args has_openai coffees tr = (Ret (updated, failed), tr')
    /\ (count is_CallOpenAI tr' + count is_CallFallback tr'
        = count is_CallOpenAI tr + count is_CallFallback tr
          + List.length (filter has_tags coffees))%nat
    /\ (count is_RpcUpdate tr' - count is_RpcUpdate tr
        <= List.length (filter has_tags coffees))%nat
    /\ (updated <= List.length (filter has_tags coffees))%nat
    /\ (dry_run args = false ->
        updated <= count is_RpcUpdate tr' - count is_RpcUpdate tr)%nat.
Proof.
  intros Hcalm Hpos.
  destruct (process_batches_judged args has_openai coffees tr Hcalm Hpos)
    as ([u f] & tr' & Hrun & (Hu & _ & Ho & Hf & Hr & _)).
  destruct (judge_all_calls env has_openai (dry_run args) coffees (start_of tr))
    as (Jg & Jr & Ju & Jl).
  cbn [fst] in Hu. cbn [start_of openai_calls fallback_calls rpc_calls] in Jg, Jr, Jl.
  assert (count_updated (start_of tr) = 0%nat) as H0 by reflexivity.
  exists u, f, tr'. split; [exact Hrun|].
  rewrite Ho, Hf, Hr, Hu. repeat split; try lia.
  intros Hd. specialize (Jl Hd). lia.
Qed.

Lemma every_record_is_tried_once_witness :
  calm (sample_env [guji; huila; decaf] [] service_up)
  /\ (0 < batch_size default_args)%Z
  /\ exists updated failed tr',
       process_batches (sample_env [guji; huila; decaf] [] service_up)
         default_args true [guji; huila; decaf] [] = (Ret (updated, failed), tr')
       /\ (updated <= List.length (filter has_tags [guji; huila; decaf]))%nat.
Proof.
  assert (calm (sample_env [guji; huila; decaf] [] service_up)) as Hcalm.
  { apply sample_env_calm. intros k e H. discriminate H. }
  split; [exact Hcalm|]. split; [reflexivity|].
  destruct (@every_record_is_tried_once
              (sample_env [guji; huila; decaf] [] service_up)
              default_args true [guji; huila; decaf] [] Hcalm)
    as (u & f & tr' & Hrun & _ & _ & Hu & _); [reflexivity|].
  exists u, f, tr'. split; assumption.
Defined.

Lemma judge_all_service_down env dry_run coffees :
  environ_OPENAI_API_KEY env = None
  \/ (forall k, exists e, embeddings_create env k = Fails e) ->
  forall p,
    count_updated (judge_all env true dry_run coffees p) = count_updated p
    /\ rpc_calls (judge_all env true dry_run coffees p) = rpc_calls p
    /\ fallback_calls (judge_all env true dry_run coffees p) = fallback_calls p.
Proof.
  intros Hdown. induction coffees as [|c rest IH]; intros p.
  - repeat split; reflexivity.
  - cbn [judge_all fold_left].
    fold (judge_all env true dry_run rest (judge env true dry_run p c)).
    destruct (IH (judge env true dry_run p c)) as (-> & -> & ->).
    unfold judge, judge_one, count_updated.
    cbn [verdicts openai_calls fallback_calls rpc_calls].
    rewrite filter_app, length_app.
    destruct (no_tags (flavor_tags c)); [cbn; repeat split; lia|].
    destruct (environ_OPENAI_API_KEY env) as [key|] eqn:Hkey;
      [|cbn; repeat split; lia].
    destruct Hdown as [Hnone|Hdown]; [discriminate Hnone|].
    destruct (Hdown (openai_calls p)) as [e ->]. cbn. repeat split; lia.
Qed.

(** A primary generator that cannot work (no key in the environment, or a
    service that fails every time) makes every record fail. *)
Lemma failing_generator_updates_nothing env args coffees tr :
  calm env ->
  (0 < batch_size args)%Z ->
  environ_OPENAI_API_KEY env = None
  \/ (forall k, exists e, embeddings_create env k = Fails e) ->
  exists tr',
    process_batches env args true coffees tr = (Ret (0%nat, List.length coffees), tr')
    /\ count is_RpcUpdate tr' = count is_RpcUpdate tr
    /\ count is_CallFallback tr' = count is_CallFallback tr.
Proof.
  intros Hcalm Hpos Hdown.
  destruct (process_batches_judged args true coffees tr Hcalm Hpos)
    as ([u f] & tr' & Hrun & (Hu & Hf & _ & Hfb & Hr & _)).
  destruct (@judge_all_service_down env (dry_run args) coffees Hdown (start_of tr))
    as (Ju & Jr & Jf).
  pose proof (counts_cover (judge_all env true (dry_run args) coffees (start_of tr)))
    as Hcover.
  pose proof (judge_all_verdicts env true (dry_run args) coffees (start_of tr)) as Hv.
  apply (f_equal (@List.length Coffee)) in Hv. rewrite length_map in Hv.
  cbn [fst snd] in Hu, Hf. cbn in Hv.
  assert (count_updated (start_of tr) = 0%nat) as H0 by reflexivity.
  exists tr'. replace u with 0%nat in Hrun by lia.
  replace f with (List.length coffees) in Hrun by lia.
  split; [exact Hrun|]. split; [rewrite Hr, Jr|rewrite Hfb, Jf]; reflexivity.
Qed.

(** X17: there is no fallback on a failing service.  When an OpenAI key
    is configured and every call to the embedding service fails, a run
    that no Ctrl-C interrupts counts every record as failed, updates
    none, writes nothing and never calls the fallback generator. *)
Theorem failing_service_updates_nothing env args coffees tr :
  calm env ->
  (0 < batch_size args)%Z ->
  (forall k, exists e, embeddings_create env k = Fails e) ->
  exists tr',
    process_batches env args true coffees tr = (Ret (0%nat, List.length coffees), tr')
    /\ count is_RpcUpdate tr' = count is_RpcUpdate tr
    /\ count is_CallFallback tr' = count is_CallFallback tr.
Proof.
  intros Hcalm Hpos Hdown.
  apply failing_generator_updates_nothing; [exact Hcalm|exact Hpos|].
  right. exact Hdown.
Qed.

Lemma failing_service_updates_nothing_witness :
  calm (sample_env [guji; huila; decaf] [] service_down)
  /\ (0 < batch_size default_args)%Z
  /\ (forall k, exists e, service_down k = Fails e)
  /\ exists tr',
       process_batches (sample_env [guji; huila; decaf] [] service_down)
         default_args true [guji; huila; decaf] [] = (Ret (0%nat, 3%nat), tr').
Proof.
  assert (calm (sample_env [guji; huila; decaf] [] service_down)) as Hcalm
      by apply sample_env_calm, service_down_is_Exception.
  assert (forall k, exists e, service_down k = Fails e) as Hdown
      by (intros k; eexists; reflexivity).
  split; [exact Hcalm|]. split; [reflexivity|]. split; [exact Hdown|].
  destruct (@failing_service_updates_nothing
              (sample_env [guji; huila; decaf] [] service_down)
              default_args [guji; huila; decaf] [] Hcalm)
    as (tr' & Hrun & _); [reflexivity|exact Hdown|].
  exists tr'. exact Hrun.
Defined.

(** X25: a key given with [--openai-key] only is of no use.  It makes
    [has_openai] true, so the primary generator is chosen for every
    record, but that generator builds its client from the environment
    variable [OPENAI_API_KEY]: when the variable is unset, a run that no
    Ctrl-C interrupts counts every record as failed, updates none, writes
    nothing and never calls the fallback generator, whatever the
    embedding service would answer. *)
Theorem command_line_key_is_not_used env args coffees tr :
  calm env ->
  (0 < batch_size args)%Z ->
  truthy_str (openai_key args) = true ->
  environ_OPENAI_API_KEY env = None ->
  has_openai_of env args = true
  /\ exists tr',
       process_batches env args (has_openai_of env args) coffees tr
       = (Ret (0%nat, List.length coffees), tr')
       /\ count is_RpcUpdate tr' = count is_RpcUpdate tr
       /\ count is_CallFallback tr' = count is_CallFallback tr.
Proof.
  intros Hcalm Hpos Hcli Hnone.
  assert (has_openai_of env args = true) as Hhas
      by (unfold has_openai_of, or_str; now rewrite Hcli).
  split; [exact Hhas|]. rewrite Hhas.
  apply failing_generator_updates_nothing; [exact Hcalm|exact Hpos|].
  left. exact Hnone.
Qed.

Lemma command_line_key_is_not_used_witness :
  calm (keyless_env [guji; huila])
  /\ truthy_str (openai_key keyed_args) = true
  /\ embeddings_create (keyless_env [guji; huila]) 0 = Data (repeat 0%R 1536)
  /\ exists tr',
       process_batches (keyless_env [guji; huila]) keyed_args true [guji; huila] []
       = (Ret (0%nat, 2%nat), tr').
Proof.
  assert (calm (keyless_env [guji; huila])) as Hcalm.
  { split; [|split]; [intros k e H; discriminate H|intros k e H; discriminate H
                     |reflexivity]. }
  split; [exact Hcalm|]. split; [reflexivity|]. split; [reflexivity|].
  destruct (@command_line_key_is_not_used
              (keyless_env [guji; huila]) keyed_args [guji; huila] [] Hcalm)
    as (_ & tr' & Hrun & _); [reflexivity|reflexivity|reflexivity|].
  exists tr'. exact Hrun.
Defined.

Lemma judge_all_all_succeed env has_openai dry_run coffees :
  (has_openai = true -> exists key, environ_OPENAI_API_KEY env = Some key) ->
  (has_openai = true ->
   forall k, exists embedding,
     embeddings_create env k = Data embedding
     /\ List.length embedding = VECTOR_DIMENSIONS) ->
  (dry_run = true \/ forall k, rpc_update_coffee_flavor_vector env k = Data JTrue) ->
  forall p,
    count_updated (judge_all env has_openai dry_run coffees p)
    = (count_updated p + List.length (filter has_tags coffees))%nat.
Proof.
  intros Hkey Hgen Hwrite. induction coffees as [|c rest IH]; intros p.
  - cbn. lia.
  - cbn [judge_all fold_left].
    fold (judge_all env has_openai dry_run rest (judge env has_openai dry_run p c)).
    rewrite IH, filter_has_tags_cons.
    unfold judge, judge_one, write_verdict, count_updated. cbn [verdicts].
    rewrite filter_app, length_app.
    destruct (no_tags (flavor_tags c)); [cbn; lia|].
    assert (fst (if dry_run then (Updated, rpc_calls p)
                 else match rpc_update_coffee_flavor_vector env (rpc_calls p) with
                      | Data JTrue => (Updated, S (rpc_calls p))
                      | _ => (WriteFailed, S (rpc_calls p))
                      end) = Updated) as Hw.
    { destruct Hwrite as [->|Hall]; [reflexivity|].
      rewrite Hall. now destruct dry_run. }
    destruct has_openai.
    + destruct (Hkey eq_refl) as (key & ->).
      destruct (Hgen eq_refl (openai_calls p)) as (embedding & -> & Hlen).
      apply Nat.eqb_eq in Hlen. rewrite Hlen. cbn [fst snd]. rewrite Hw. cbn. lia.
    + cbn [fst snd]. rewrite Hw. cbn. lia.
Qed.

(** X18: when nothing fails (if the primary generator is used, the
    environment variable [OPENAI_API_KEY] is set and the embedding
    service always answers with 1536 elements; every write succeeds or
    the run is a dry run), a run that no Ctrl-C interrupts counts exactly
    the records with tags as updated and exactly the records without tags
    as failed. *)
Theorem healthy_run_updates_every_tagged_record env args has_openai coffees tr :
  calm env ->
  (0 < batch_size args)%Z ->
  (has_openai = true -> exists key, environ_OPENAI_API_KEY env = Some key) ->
  (has_openai = true ->
   forall k, exists embedding,
     embeddings_create env k = Data embedding
     /\ List.length embedding = 1536%nat) ->
  (dry_run args = true \/ forall k, rpc_update_coffee_flavor_vector env k = Data JTrue) ->
  exists tr',
    process_batches env args has_openai coffees tr
    = (Ret (List.length (filter has_tags coffees),
            List.length (filter (fun c => no_tags (flavor_tags c)) coffees)), tr').
Proof.
  intros Hcalm Hpos Hkey Hgen Hwrite.
  destruct (process_batches_judged args has_openai coffees tr Hcalm Hpos)
    as ([u f] & tr' & Hrun & (Hu & Hf & _)).
  pose proof (@judge_all_all_succeed env has_openai (dry_run args) coffees Hkey Hgen
                Hwrite (start_of tr)) as Ju.
  pose proof (counts_cover (judge_all env has_openai (dry_run args) coffees (start_of tr)))
    as Hcover.
  pose proof (judge_all_verdicts env has_openai (dry_run args) coffees (start_of tr)) as Hv.
  apply (f_equal (@List.length Coffee)) in Hv. rewrite length_map in Hv.
  cbn [fst snd] in Hu, Hf. cbn in Hv.
  assert (count_updated (start_of tr) = 0%nat) as H0 by reflexivity.
  assert (List.length (filter has_tags coffees)
          + List.length (filter (fun c => no_tags (flavor_tags c)) coffees)
          = List.length coffees)%nat as Hsplit.
  { clear. induction coffees as [|c rest IH]; [reflexivity|].
    cbn [filter List.length]. unfold has_tags at 1.
    destruct (no_tags (flavor_tags c)); cbn [negb List.length]; lia. }
  exists tr'. rewrite Hrun.
  replace u with (List.length (filter has_tags coffees)) by lia.
  replace f with (List.length (filter (fun c => no_tags (flavor_tags c)) coffees)) by lia.
  reflexivity.
Qed.

Lemma healthy_run_updates_every_tagged_record_witness :
  calm (sample_env [guji; huila; decaf] [] service_up)
  /\ (0 < batch_size default_args)%Z
  /\ exists tr',
       process_batches (sample_env [guji; huila; decaf] [] service_up)
         default_args true [guji; huila; decaf] [] = (Ret (2%nat, 1%nat), tr').
Proof.
  assert (calm (sample_env [guji; huila; decaf] [] service_up)) as Hcalm.
  { apply sample_env_calm. intros k e H. discriminate H. }
  split; [exact Hcalm|]. split; [reflexivity|].
  destruct (@healthy_run_updates_every_tagged_record
              (sample_env [guji; huila; decaf] [] service_up)
              default_args true [guji; huila; decaf] [] Hcalm)
    as (tr' & Hrun).
  - reflexivity.
  - intros _. exists "sk-test"%string. reflexivity.
  - intros _ k. exists (repeat 0%R VECTOR_DIMENSIONS).
    split; [reflexivity|apply repeat_length].
  - right. intros k. reflexivity.
  - exists tr'. exact Hrun.
Defined.

(** *** Pacing *)

Lemma process_batch_no_sleep env args has_openai batch_last todo :
  Qle_bool (delay args) 0 = true ->
  forall counters,
    runs (fun ev => is_Sleep ev = false) (fun _ : nat * nat => True)
         (loop_interrupts env)
         (process_batch env args has_openai batch_last todo counters).
Proof.
  intros Hdelay. induction todo as [|coffee rest IH]; intros [u f]; cbn [process_batch].
  - apply runs_ret. exact I.
  - apply runs_bind with (Q := fun _ => True).
    + eapply runs_weaken;
        [apply update_coffee_embedding_runs| |intros ? H; exact H|intros ? H; exact H].
      intros ev H. destruct ev; cbn in *; try reflexivity; contradiction.
    + intros success _. rewrite Hdelay. cbn [negb andb].
      apply runs_bind with (Q := fun _ => True); [apply runs_ret; exact I|].
      intros _ _. apply IH.
Qed.

Lemma calm_never_interrupts env e : calm env -> ~ loop_interrupts env e.
Proof.
  intros (Ho & Hr & Hs) [He [[k H]|[[k H]|[_ [k H]]]]].
  - rewrite (Ho _ _ H) in He. discriminate He.
  - rewrite (Hr _ _ H) in He. discriminate He.
  - rewrite Hs in H. discriminate H.
Qed.

Lemma count_no_sleep (evs : trace) :
  Forall (fun ev => is_Sleep ev = false) evs -> count is_Sleep evs = 0%nat.
Proof.
  unfold count. induction 1 as [|ev evs Hev _ IH]; cbn; [reflexivity|].
  now rewrite Hev.
Qed.

(** One batch without per-record delay: the only sleep is the one after
    the batch, when another batch follows and [batch_delay] is positive. *)
Lemma process_batch_at_sleeps env args has_openai coffees i counters tr :
  calm env ->
  Qle_bool (delay args) 0 = true ->
  exists counters' tr',
    process_batch_at env args has_openai coffees i counters tr = (Ret counters', tr')
    /\ count is_Sleep tr'
       = (count is_Sleep tr
          + if (Z.of_nat i + batch_size args <? Z.of_nat (List.length coffees))%Z
               && negb (Qle_bool (batch_delay args) 0)
            then 1 else 0)%nat.
Proof.
  intros Hcalm Hdelay. unfold process_batch_at. cbv zeta.
  set (batch := batch_at args coffees i).
  unfold bind at 1, log at 1, emit at 1.
  match goal with |- context [tr ++ [?ev]] => set (tr1 := tr ++ [ev]) end.
  assert (count is_Sleep tr1 = count is_Sleep tr) as H1
      by (unfold tr1; apply count_snoc_log; reflexivity).
  assert (exists counters1 tr2,
    match batch with
    | [] => ret counters
    | c :: _ => process_batch env args has_openai (last batch c) batch counters
    end tr1 = (Ret counters1, tr2)
    /\ count is_Sleep tr2 = count is_Sleep tr1) as (counters1 & tr2 & Hrun & H2).
  { destruct batch as [|c rest]; [exists counters, tr1; split; reflexivity|].
    destruct (process_batch_no_sleep env args has_openai (last (c :: rest) c) (c :: rest)
                Hdelay counters tr1) as (evs & Htr & HP & Hout).
    destruct (process_batch env args has_openai (last (c :: rest) c) (c :: rest) counters tr1)
      as [[r|e|] tr2]; cbn [fst snd] in *.
    - exists r, tr2. split; [reflexivity|].
      rewrite Htr, count_app, (count_no_sleep HP). lia.
    - destruct (calm_never_interrupts Hcalm Hout).
    - contradiction. }
  unfold bind at 1. rewrite Hrun. run_monad.
  destruct ((Z.of_nat i + batch_size args <? Z.of_nat (List.length coffees))%Z
            && (if Qle_bool (batch_delay args) 0 then false else true)).
  - rewrite (time_sleep_calm _ _ Hcalm).
    eexists _, _. split; [reflexivity|].
    rewrite !count_app, H2, H1. unfold count at 2 3 4. cbn. lia.
  - eexists _, _. split; [reflexivity|].
    rewrite !count_app, H2, H1. unfold count at 2 3. cbn. lia.
Qed.

Lemma for_each_batch_sleeps env args has_openai coffees starts :
  calm env ->
  Qle_bool (delay args) 0 = true ->
  forall counters tr,
    exists counters' tr',
      for_each_batch env args has_openai coffees starts counters tr = (Ret counters', tr')
      /\ count is_Sleep tr'
         = (count is_Sleep tr
            + List.length
                (filter (fun i =>
                           (Z.of_nat i + batch_size args <? Z.of_nat (List.length coffees))%Z
                           && negb (Qle_bool (batch_delay args) 0)) starts))%nat.
Proof.
  intros Hcalm Hdelay. induction starts as [|i rest IH]; intros counters tr.
  - exists counters, tr. split; [reflexivity|]. cbn. lia.
  - destruct (process_batch_at_sleeps args has_openai coffees i counters tr Hcalm Hdelay)
      as (counters1 & tr1 & Hrun & H1).
    cbn [for_each_batch filter]. unfold bind at 1. rewrite Hrun.
    destruct (IH counters1 tr1) as (counters2 & tr2 & Hrun2 & H2).
    exists counters2, tr2. split; [exact Hrun2|]. rewrite H2, H1.
    destruct ((Z.of_nat i + batch_size args <? Z.of_nat (List.length coffees))%Z
              && negb (Qle_bool (batch_delay args) 0)); cbn [List.length]; lia.
Qed.

Lemma length_filter_map {X Y} (f : Y -> bool) (g : X -> Y) (l : list X) :
  List.length (filter f (map g l)) = List.length (filter (fun x => f (g x)) l).
Proof.
  induction l as [|x l IH]; cbn; [reflexivity|].
  destruct (f (g x)); cbn; now rewrite IH.
Qed.

Lemma count_non_final (m : nat) :
  List.length (filter (fun k => S k <? m)%nat (seq 0 m)) = (m - 1)%nat.
Proof.
  destruct m as [|m]; [reflexivity|].
  rewrite seq_S, filter_app. cbn [Nat.add filter]. rewrite Nat.ltb_irrefl.
  rewrite (filter_ext_in (fun k => S k <? S m)%nat (fun _ => true)).
  - rewrite filter_all, length_app, length_seq. cbn. lia.
  - intros k Hk. apply in_seq in Hk. apply Nat.ltb_lt. lia.
Qed.

(** X19: without per-record delay and with a positive [batch_delay], a
    run over a non-empty work set that no Ctrl-C interrupts sleeps once
    after every batch but the last: one sleep less than there are
    batches. *)
Theorem one_sleep_between_batches env args has_openai coffees tr :
  calm env ->
  (0 < batch_size args)%Z ->
  Qle_bool (delay args) 0 = true ->
  Qle_bool (batch_delay args) 0 = false ->
  coffees <> [] ->
  exists starts counters tr',
    range0 (List.length coffees) (batch_size args) = Ret starts
    /\ process_batches env args has_openai coffees tr = (Ret counters, tr')
    /\ count is_Sleep tr' = (count is_Sleep tr + (List.length starts - 1))%nat.
Proof.
  intros Hcalm Hpos Hdelay Hbatch Hne.
  pose proof (range0_positive (List.length coffees) Hpos) as Hrange.
  eexists. unfold process_batches. cbv zeta. rewrite Hrange.
  set (size := Z.to_nat (batch_size args)).
  set (n := List.length coffees).
  set (starts := map (fun k => (k * size)%nat) (seq 0 ((n + size - 1) / size))).
  assert (exists tr1,
             (forall (k : unit -> M (nat * nat)),
                bind (log INFO (MsgStartingUpdate (batch_size args)))
                  (fun _ => bind (if dry_run args then log INFO MsgDryRunMode else ret tt) k) tr
                = k tt tr1)
             /\ count is_Sleep tr1 = count is_Sleep tr) as (tr1 & Htr1 & H1).
  { destruct (dry_run args); eexists; (split; [intros k; reflexivity|]).
    - rewrite !count_app. unfold count at 2 3. cbn. lia.
    - rewrite !count_app. unfold count at 2. cbn. lia. }
  rewrite Htr1. unfold bind at 1, lift at 1.
  destruct (for_each_batch_sleeps args has_openai coffees starts Hcalm Hdelay (0, 0)%nat tr1)
    as (counters & tr2 & Hrun & H2).
  unfold bind at 1. rewrite Hrun. run_monad.
  eexists _, _. split; [reflexivity|]. split; [reflexivity|].
  rewrite !count_app, H2, H1. unfold count at 2 3. cbn [filter List.length].
  rewrite !Nat.add_0_r. f_equal.
  assert (0 < size)%nat as Hsize by (unfold size; lia).
  assert (0 < n)%nat as Hn by (unfold n; destruct coffees; [congruence|cbn; lia]).
  destruct (ceil_tight Hsize Hn) as [Hm Htight].
  pose proof (ceil_covers n Hsize) as Hcover.
  unfold starts. rewrite length_filter_map, length_map, length_seq, Hbatch.
  cbn [negb]. fold n size. rewrite <- (count_non_final ((n + size - 1) / size)).
  f_equal. apply filter_ext_in. intros k Hk. apply in_seq in Hk.
  rewrite andb_true_r.
  set (m := ((n + size - 1) / size)%nat) in *.
  destruct (Nat.ltb_spec (S k) m) as [Hlt|Hge].
  - apply Z.ltb_lt. unfold size in *. nia.
  - apply Z.ltb_ge. assert (k = (m - 1)%nat) as -> by lia. unfold size in *. nia.
Qed.

Lemma one_sleep_between_batches_witness :
  calm (sample_env [guji; huila; decaf] [] service_down)
  /\ (0 < batch_size paced_args)%Z
  /\ Qle_bool (delay paced_args) 0 = true
  /\ Qle_bool (batch_delay paced_args) 0 = false
  /\ [guji; huila; decaf] <> []
  /\ exists starts counters tr',
       range0 (List.length [guji; huila; decaf]) (batch_size paced_args) = Ret starts
       /\ process_batches (sample_env [guji; huila; decaf] [] service_down)
            paced_args true [guji; huila; decaf] [] = (Ret counters, tr')
       /\ count is_Sleep tr' = (count is_Sleep [] + (List.length starts - 1))%nat.
Proof.
  assert (calm (sample_env [guji; huila; decaf] [] service_down)) as Hcalm
      by apply sample_env_calm, service_down_is_Exception.
  split; [exact Hcalm|]. split; [reflexivity|]. split; [reflexivity|].
  split; [reflexivity|]. split; [discriminate|].
  apply (@one_sleep_between_batches
           (sample_env [guji; huila; decaf] [] service_down)
           paced_args true [guji; huila; decaf] [] Hcalm);
    [reflexivity|reflexivity|reflexivity|discriminate].
Defined.

(* ================================================================== *)
(** ** The migration script *)
(* ================================================================== *)

Ltac run_migration :=
  cbv [Migration.script Migration.main Migration.get_args
       Migration.initialize_supabase
       Migration.read_migration_file Migration.apply_migration
       Migration.bind Migration.ret Migration.raise Migration.emit
       Migration.log Migration.try_except Migration.answer
       Migration.sys_exit is_Exception negb orb andb fst snd
       Migration.environ_URL Migration.environ_KEY Migration.path_exists
       Migration.read_file Migration.new_client Migration.exec_sql
       Migration.migration_file List.app].

Ltac migration_stops :=
  right; split;
  [ intros (? & ? & ? & ? & (? & ?) & (? & ? & ?)); congruence
  | reflexivity ].

Ltac migration_absent :=
  let H := fresh "H" in
  intros H; exfalso; cbn in H; intuition discriminate.

Ltac migration_sent sql0 sql :=
  let H := fresh "H" in
  let E := fresh "E" in
  intros H;
  assert (E : sql0 = sql) by (cbn in H; intuition congruence);
  subst sql0; cbn; repeat split; reflexivity.

Ltac migration_raises H e :=
  destruct e; cbv beta iota;
  try (exfalso; eapply H; reflexivity).

(** X20: on a command line that argparse accepts, the migration script
    ends with status 0 exactly when the file exists, both credentials are
    set, the client is created, the file is read and the gateway answers
    without an error; in every other case it ends with status 1 (the
    environment raising no [SystemExit] of its own).  On a command line
    that argparse rejects (the positional argument is missing, say) it
    ends with status 2, and after [--help] with status 0, in both cases
    before anything is logged, checked or sent. *)
Theorem migration_exit_status env argv :
  Migration.no_exit_raised env ->
  match argv with
  | Parsed args =>
      (Migration.goes_through env
       /\ fst (Migration.script env (Parsed args)) = Some 0%Z)
      \/ (~ Migration.goes_through env
          /\ fst (Migration.script env (Parsed args)) = Some 1%Z)
  | Help => Migration.script env Help = (Some 0%Z, [])
  | UsageError => Migration.script env UsageError = (Some 2%Z, [])
  end.
Proof.
  intros (Hrf & Hnc & Hes).
  destruct argv as [args| |]; [|reflexivity|reflexivity].
  unfold Migration.goes_through.
  destruct env as [url key pe rf nc es]; cbn in Hrf, Hnc, Hes |- *.
  run_migration.
  destruct pe; cbv beta iota; [| migration_stops].
  destruct (truthy_str url) eqn:Hurl; cbv beta iota; [| migration_stops].
  destruct (truthy_str key) eqn:Hkey; cbv beta iota; [| migration_stops].
  destruct nc as [e|[]]; cbv beta iota;
    [migration_raises Hnc e; migration_stops |].
  destruct rf as [e|sql]; cbv beta iota;
    [migration_raises Hrf e; migration_stops |].
  destruct es as [e|error]; cbv beta iota;
    [migration_raises Hes e; migration_stops |].
  destruct (truthy_str error) eqn:Herr; cbv beta iota; [migration_stops |].
  left. split; [repeat split; eauto | reflexivity].
Qed.

Lemma migration_exit_status_witness :
  Migration.no_exit_raised Migration.sample_env
  /\ fst (Migration.script Migration.sample_env (Parsed Migration.sample_args))
     = Some 0%Z
  /\ fst (Migration.script Migration.broken_env (Parsed Migration.sample_args))
     = Some 1%Z
  /\ Migration.script Migration.sample_env UsageError = (Some 2%Z, []).
Proof.
  assert (H : Migration.no_exit_raised Migration.sample_env)
    by (repeat split; intros code; discriminate).
  assert (H' : Migration.no_exit_raised Migration.broken_env)
    by (repeat split; intros code; discriminate).
  split; [exact H |]. split; [|split].
  - destruct (migration_exit_status (Parsed Migration.sample_args) H)
      as [[_ E] | [_ E]]; [exact E | vm_compute in E; discriminate].
  - destruct (migration_exit_status (Parsed Migration.sample_args) H')
      as [[_ E] | [_ E]]; [vm_compute in E; discriminate | exact E].
  - exact (migration_exit_status UsageError H).
Defined.

(** X21: whatever the command line, the migration script sends SQL to the
    gateway only after the file was found, both credentials were set, the
    client was created and the file was read; what it sends is the content
    of the file, and it sends it once. *)
Theorem migration_sends_the_file_once env argv sql :
  In (Migration.ExecSql sql) (snd (Migration.script env argv)) ->
  Migration.path_exists env = true
  /\ truthy_str (Migration.environ_URL env) = true
  /\ truthy_str (Migration.environ_KEY env) = true
  /\ Migration.new_client env = Data tt
  /\ Migration.read_file env = Data sql
  /\ filter Migration.is_ExecSql (snd (Migration.script env argv))
     = [Migration.ExecSql sql].
Proof.
  destruct argv as [args| |]; [|intros []|intros []].
  destruct env as [url key pe rf nc es]; cbn -[In filter].
  run_migration.
  destruct pe; cbv beta iota; [| migration_absent].
  destruct (truthy_str url) eqn:Hurl; cbv beta iota; [| migration_absent].
  destruct (truthy_str key) eqn:Hkey; cbv beta iota; [| migration_absent].
  destruct nc as [e|[]]; cbv beta iota; [destruct e; migration_absent |].
  destruct rf as [e|sql0]; cbv beta iota; [destruct e; migration_absent |].
  destruct es as [e|error]; cbv beta iota;
    [destruct e; migration_sent sql0 sql |].
  destruct (truthy_str error); migration_sent sql0 sql.
Qed.

Lemma migration_sends_the_file_once_witness :
  In (Migration.ExecSql "create extension vector;")
     (snd (Migration.script Migration.broken_env (Parsed Migration.sample_args)))
  /\ filter Migration.is_ExecSql
       (snd (Migration.script Migration.broken_env (Parsed Migration.sample_args)))
     = [Migration.ExecSql "create extension vector;"].
Proof.
  assert (H : In (Migration.ExecSql "create extension vector;")
                (snd (Migration.script Migration.broken_env
                        (Parsed Migration.sample_args))))
    by (vm_compute; tauto).
  split; [exact H |].
  apply (migration_sends_the_file_once Migration.broken_env
           (Parsed Migration.sample_args) _ H).
Defined.

Lemma ends_with_report_last (tr : Migration.trace) :
  match List.rev tr with
  | Migration.Log ERROR _ :: _ => True
  | Migration.Log INFO Migration.MsgInterrupted :: _ => True
  | _ => False
  end ->
  Migration.ends_with_report tr.
Proof.
  intros H. rewrite <- (List.rev_involutive tr).
  destruct (List.rev tr) as [|[lvl m| | | |] l]; try contradiction.
  exists (List.rev l). cbn [List.rev].
  destruct lvl; try contradiction.
  - destruct m; try contradiction. right. reflexivity.
  - left. exists m. reflexivity.
Qed.

Ltac migration_reported :=
  intros _; right; apply ends_with_report_last; exact I.

(** X22: once argparse has accepted the command line, the migration
    script never fails silently: whenever it ends with a status other
    than 0, the last line it logged is an error, or the notice of the
    interruption (the environment raising no [SystemExit] of its own).
    The one failure that logs nothing is a command line that argparse
    rejects: status 2, with an empty log. *)
Theorem failed_migration_is_reported env argv :
  Migration.no_exit_raised env ->
  fst (Migration.script env argv) <> Some 0%Z ->
  (argv = UsageError /\ Migration.script env argv = (Some 2%Z, []))
  \/ Migration.ends_with_report (snd (Migration.script env argv)).
Proof.
  intros (Hrf & Hnc & Hes).
  destruct argv as [args| |];
    [|intros H; now contradiction H|intros _; left; split; reflexivity].
  destruct env as [url key pe rf nc es]; cbn in Hrf, Hnc, Hes |- *.
  run_migration.
  destruct pe; cbv beta iota; [| migration_reported].
  destruct (truthy_str url) eqn:Hurl; cbv beta iota; [| migration_reported].
  destruct (truthy_str key) eqn:Hkey; cbv beta iota; [| migration_reported].
  destruct nc as [e|[]]; cbv beta iota;
    [migration_raises Hnc e; migration_reported |].
  destruct rf as [e|sql]; cbv beta iota;
    [migration_raises Hrf e; migration_reported |].
  destruct es as [e|error]; cbv beta iota;
    [migration_raises Hes e; migration_reported |].
  destruct (truthy_str error) eqn:Herr; cbv beta iota;
    [migration_reported | intros H; exfalso; apply H; reflexivity].
Qed.

Lemma failed_migration_is_reported_witness :
  Migration.ends_with_report
    (snd (Migration.script Migration.broken_env (Parsed Migration.sample_args))).
Proof.
  destruct (@failed_migration_is_reported Migration.broken_env
              (Parsed Migration.sample_args)) as [[H _]|H].
  - repeat split; intros code; discriminate.
  - vm_compute. discriminate.
  - discriminate H.
  - exact H.
Defined.

(** X23: the migration script opens the file named on the command line and
    no other, and only after it found the file, found both credentials
    and created the client. *)
Theorem migration_reads_after_checks env argv path :
  In (Migration.ReadFile path) (snd (Migration.script env argv)) ->
  (exists args, argv = Parsed args /\ path = Migration.migration_file args)
  /\ Migration.path_exists env = true
  /\ truthy_str (Migration.environ_URL env) = true
  /\ truthy_str (Migration.environ_KEY env) = true
  /\ Migration.new_client env = Data tt.
Proof.
  destruct argv as [args| |]; [|intros []|intros []].
  destruct env as [url key pe rf nc es]; destruct args as [file v];
    cbn -[In].
  run_migration.
  destruct pe; cbv beta iota; [| migration_absent].
  destruct (truthy_str url) eqn:Hurl; cbv beta iota; [| migration_absent].
  destruct (truthy_str key) eqn:Hkey; cbv beta iota; [| migration_absent].
  destruct nc as [e|[]]; cbv beta iota; [destruct e; migration_absent |].
  intros H.
  assert (E : path = file).
  { destruct rf as [e|sql0]; cbv beta iota in H;
      [destruct e | destruct es as [e|error];
                    [destruct e | destruct (truthy_str error)]];
      cbn in H; intuition congruence. }
  split; [eexists; split; [reflexivity|exact E]|]. repeat split; auto.
Qed.

Lemma migration_reads_after_checks_witness :
  In (Migration.ReadFile "migrations/001_vectors.sql")
     (snd (Migration.script Migration.sample_env (Parsed Migration.sample_args)))
  /\ Migration.new_client Migration.sample_env = Data tt.
Proof.
  assert (H : In (Migration.ReadFile "migrations/001_vectors.sql")
                (snd (Migration.script Migration.sample_env
                        (Parsed Migration.sample_args))))
    by (vm_compute; tauto).
  split; [exact H |].
  apply (migration_reads_after_checks Migration.sample_env
           (Parsed Migration.sample_args) _ H).
Defined.
